(** * The stochastic-block-model inference core of graph-tool: a shallow embedding

    This development embeds the parts of the SBM inference core that its
    specification makes claims about:

    - the numeric primitives of [util.hh] ([lbinom], [lbinom_fast],
      [lbinom_careful]) and of [int_part.hh] ([log_q]);
    - the authoritative block state of [graph_blockmodel.hh]
      ([BlockState]): the constraint check [allow_move], the partition-node
      bookkeeping ([remove_partition_node], [add_partition_node],
      [set_vertex_weight], [add_block]), the authoritative moves
      ([modify_vertex], [remove_vertex], [add_vertex], [move_vertex]) and
      the virtual move ([virtual_move] with its helpers);

    and, around them, [log_sum_exp] of [util.hh] and further operations of
    [BlockState]: the loops of the constructor, [get_empty_block],
    [move_vertices], [set_partition], [is_last], [virtual_remove_size],
    [add_edge], [remove_edge], [get_partition_stats] and the consistency
    checks [check_node_counts] and [check_edge_counts].

    Conventions.
    - A C++ [double] is a binary64 primitive float ([float]).
    - The integer counters ([int32_t] property maps, [size_t] totals) are
      unbounded [Z]: signed overflow is undefined behaviour in C++, and the
      model describes the executions in which the counters stay in range.
    - A vertex-indexed or block-indexed property map is a [list], read with
      [!!!] and written with [<[ i := x ]>]; the C++ maps are unchecked, so
      an out-of-range access is undefined there, while here a read yields
      the default value and a write changes nothing.
    - The sentinel [null_group] ([size_t(-1)]) is [None] in a block argument
      of type [option nat].
    - A hierarchy of coupled states is a list of levels: the head is the
      state the operation is invoked on ([this]) and the tail is the chain
      reached through [_coupled_state] ([nullptr] is the empty tail). *)

From Stdlib Require Import ZArith Floats String Bool Lia.
From stdpp Require Import gmap list.

#[local] Open Scope Z_scope.

(** The value an out-of-range read of a [double] map yields in the model. *)
#[export] Instance float_inhabited : Inhabited float := populate 0%float.

(* ===================================================================== *)
(** * Part I. Numeric primitives                                          *)
(* ===================================================================== *)

Module Numeric.

(** The arithmetic types the templates [lbinom<T1, T2>], [log_q<T>] are
    instantiated at; both template arguments are taken at one type. *)
Class Arith (T : Type) := {
  is_zero : T -> bool;          (* [x == 0] *)
  geb : T -> T -> bool;         (* [x >= y] *)
  succ : T -> T;                (* [x + 1] *)
  sub : T -> T -> T;            (* [x - y] *)
  neg : T -> T;                 (* [-x] *)
  to_double : T -> float        (* the implicit conversion to [double] *)
}.

(** Conversion of an integer to the nearest [double]. *)
Definition Z_to_double (z : Z) : float :=
  if z <? 0 then PrimFloat.opp (PrimFloat.of_uint63 (Uint63.of_Z (- z)))
  else PrimFloat.of_uint63 (Uint63.of_Z z).

#[export] Instance Arith_Z : Arith Z := {|
  is_zero x := x =? 0;
  geb x y := x >=? y;
  succ x := x + 1;
  sub x y := x - y;
  neg x := - x;
  to_double := Z_to_double
|}.

(** [double] arguments: IEEE comparisons ([NaN] compares false). *)
#[export] Instance Arith_double : Arith float := {|
  is_zero x := PrimFloat.eqb x 0%float;
  geb x y := PrimFloat.leb y x;
  succ x := PrimFloat.add x 1%float;
  sub x y := PrimFloat.sub x y;
  neg x := PrimFloat.opp x;
  to_double x := x
|}.

Section LogBinomial.

Context {T : Type} `{Arith T}.

(** [std::lgamma], [std::log], [std::log1p] of the C library, and the cached
    [lgamma_fast<Init>] of [cache.hh] (not among the sources). *)
Variable lgamma : float -> float.
Variable log : float -> float.
Variable log1p : float -> float.
Variable lgamma_fast : bool -> T -> float.

(** [util.hh], [lbinom]. *)
Definition lbinom (N k : T) : float :=
  if is_zero N || is_zero k || geb k N then 0%float
  else ((lgamma (to_double (succ N)) - lgamma (to_double (succ k)))
        - lgamma (to_double (succ (sub N k))))%float.

(** [util.hh], [lbinom_fast<Init>]. *)
Definition lbinom_fast (Init : bool) (N k : T) : float :=
  if is_zero N || is_zero k || geb k N then 0%float
  else ((lgamma_fast Init (succ N) - lgamma_fast Init (succ k))
        - lgamma_fast Init (succ (sub N k)))%float.

(** [util.hh], [lbinom_careful]: Stirling's approximation when [N >> k]. *)
Definition lbinom_careful (N k : T) : float :=
  if is_zero N || is_zero k || geb k N then 0%float
  else
    let lgN := lgamma (to_double (succ N)) in
    let lgk := lgamma (to_double (succ k)) in
    if PrimFloat.ltb 1e8%float (lgN - lgk)%float then
      let N_ := to_double N in
      let l := log1p (to_double (neg k) / N_)%float in
      (to_double (neg N) * l - to_double k * l - to_double k - lgk
       + to_double k * log N_)%float
    else
      (lgN - lgamma (to_double (succ (sub N k))) - lgk)%float.

End LogBinomial.

(** ** Sums of exponentials in logarithmic form *)

Section LogSumExp.

(** [std::log], [std::log1p] and [std::exp] of the C library. *)
Variable log : float -> float.
Variable log1p : float -> float.
Variable exp : float -> float.

(** [util.hh], [log_sum_exp(a, b)] at two [double] arguments. *)
Definition log_sum_exp (a b : float) : float :=
  if PrimFloat.eqb a b then (a + log 2)%float
  else if PrimFloat.ltb b a then (a + log1p (exp (b - a)))%float
  else (b + log1p (exp (a - b)))%float.

(** [util.hh], the variadic [log_sum_exp(a, b, cs...)]: the arguments are
    folded in from the left. *)
Definition log_sum_exp_more (a b : float) (cs : list float) : float :=
  foldl log_sum_exp (log_sum_exp a b) cs.

(** [util.hh], [log_sum_exp(v)] of a vector. *)
Definition log_sum_exp_vec (v : list float) : float :=
  foldl log_sum_exp neg_infinity v.

End LogSumExp.

(** ** The partition-number table [log_q] *)

(** The process-wide state [log_q] reads: the table [__q_cache], a
    [boost::multi_array<double, 2>]. *)
Record Globals := { __q_cache : list (list float) }.

(** [__q_cache.shape()[0]]. *)
Definition q_cache_bound (G : Globals) : nat := length (__q_cache G).

(** [__q_cache[n][k]]. *)
Definition q_cache_at (G : Globals) (n k : nat) : float :=
  (__q_cache G !!! n) !!! k.

Section LogQ.

(** [log_q_approx] is declared in [int_part.hh]; its definition is not among
    the sources. *)
Variable log_q_approx : Z -> Z -> float.

(** [int_part.hh], [log_q<T>] at an integer type: the result and the global
    state it leaves behind. *)
Definition log_q (n k : Z) (G : Globals) : float * Globals :=
  if (n <=? 0) || (k <? 1) then (0%float, G)
  else
    let k := if k >? n then n else k in
    if (Z.to_nat n <? q_cache_bound G)%nat
    then (q_cache_at G (Z.to_nat n) (Z.to_nat k), G)
    else (log_q_approx n k, G).

End LogQ.

(** A table with the shape [init_q_cache(2)] gives [__q_cache]: rows and
    columns 0 to 2, minus infinity where nothing was filled in. *)
Definition small_q_cache : Globals :=
  {| __q_cache := [ [neg_infinity; neg_infinity; neg_infinity];
                    [neg_infinity; 0%float; neg_infinity];
                    [neg_infinity; 0%float; 0x1.62e42fefa39efp-1%float] ] |}.

End Numeric.

(* ===================================================================== *)
(** * Part II. The block state: data model                                *)
(* ===================================================================== *)

Module SBM.

(** ** Failures *)

(** The exceptions of [graph_exceptions.hh] that the modelled code throws. *)
Inductive exn :=
| ValueException (msg : string)
| GraphException (msg : string).

Inductive result (A : Type) :=
| Ok (a : A)
| Raise (e : exn).
Arguments Ok {A} a.
Arguments Raise {A} e.

(** ** Configuration *)

(** The edge-covariate kinds the block state distinguishes
    ([weight_type::NONE], [weight_type::REAL_NORMAL], any other kind). *)
Inductive weight_type :=
| NONE
| REAL_NORMAL
| OTHER_TYPE (code : Z).

#[export] Instance weight_type_eq_dec : EqDecision weight_type.
Proof. solve_decision. Defined.

(** [entropy_args_t]: the fields the block state reads (prefixed [ea_]). *)
Record entropy_args_t := {
  ea_adjacency : bool;
  ea_dense : bool;
  ea_multigraph : bool;
  ea_exact : bool;
  ea_deg_entropy : bool;
  ea_partition_dl : bool;
  ea_degree_dl : bool;
  ea_degree_dl_kind : Z;
  ea_edges_dl : bool;
  ea_recs : bool;
  ea_Bfield : bool;
  ea_beta_dl : float
}.

(** ** The graph interface the core consumes *)

(** An edge with its weight [_eweight[e]] and its covariates [_rec[i][e]],
    [_drec[i][e]]. *)
Record edge_t := {
  source : nat;
  target : nat;
  eweight : Z;
  e_rec : list float;
  e_drec : list float
}.

(** The graph [_g]; [directed] is [is_directed_::apply<g_t>::type::value]. *)
Record graph_t := {
  directed : bool;
  num_vertices : nat;
  edges : list edge_t
}.

Definition flip_edge (e : edge_t) : edge_t :=
  {| source := target e; target := source e; eweight := eweight e;
     e_rec := e_rec e; e_drec := e_drec e |}.

(** [out_edges_range(v, g)]: on an undirected graph every incident edge,
    seen from [v] (a self-loop is met twice). *)
Definition out_edges_range (v : nat) (g : graph_t) : list edge_t :=
  if directed g then filter (fun e => source e = v) (edges g)
  else filter (fun e => source e = v) (edges g)
       ++ (flip_edge <$> filter (fun e => target e = v) (edges g)).

(** [in_edges_range(v, g)] of a directed graph. *)
Definition in_edges_range (v : nat) (g : graph_t) : list edge_t :=
  filter (fun e => target e = v) (edges g).

(** ** MEntries: the move-delta accumulator *)

(** One accumulated change [(r, s) -> delta], with the covariate deltas. *)
Record entry := {
  en_r : nat;
  en_s : nat;
  en_delta : Z;
  en_edelta : list float * list float
}.

(** An element of [_p_entries]: [(t, u, me, delta, edelta)], where the
    resolved block-graph edge [me] is [None] for the null edge. *)
Definition p_entry : Type :=
  nat * nat * option (nat * nat) * Z * list float.

(** Modelled from the spec: the [EntrySet] class of
    [graph_blockmodel_entries.hh] is not among the sources.  It holds the
    declared proposal, the sparse entries keyed by block pair, and the buffer
    [_p_entries] handed to the coupled state. *)
Record MEntries := {
  _rnr : option nat * option nat;
  _entries : list entry;
  _p_entries : list p_entry
}.

(** Block pairs of an undirected graph are canonicalised to [(min, max)]. *)
Definition canon (dir : bool) (rs : nat * nat) : nat * nat :=
  if dir then rs
  else if (rs.2 <? rs.1)%nat then (rs.2, rs.1) else rs.

(** Modelled from the spec: [set_move(r, nr, B)] resets the accumulator and
    declares the proposal. *)
Definition set_move (r nr : option nat) (B : nat) (m : MEntries) : MEntries :=
  {| _rnr := (r, nr); _entries := []; _p_entries := _p_entries m |}.

(** Modelled from the spec: covariate deltas are added componentwise; an
    absent vector stands for no covariates. *)
Definition vec_add (x y : list float) : list float :=
  match x, y with
  | [], _ => y
  | _, [] => x
  | _, _ => zip_with PrimFloat.add x y
  end.

(** Modelled from the spec: the entries are keyed sparsely by block pair;
    a second delta for a pair is added to the entry the pair already has. *)
Fixpoint insert_entry (k : nat * nat) (d : Z) (ed : list float * list float)
    (es : list entry) : list entry :=
  match es with
  | [] => [ {| en_r := k.1; en_s := k.2; en_delta := d; en_edelta := ed |} ]
  | e :: es' =>
      if decide ((en_r e, en_s e) = k)
      then {| en_r := en_r e; en_s := en_s e; en_delta := en_delta e + d;
              en_edelta := (vec_add (en_edelta e).1 ed.1,
                            vec_add (en_edelta e).2 ed.2) |} :: es'
      else e :: insert_entry k d ed es'
  end.

Definition neg_vec (x : list float) : list float := PrimFloat.opp <$> x.

(** Modelled from the spec: [insert_delta<Add>(r, s, delta, edelta...)]
    accumulates the deltas (negated without [Add]) into the entry keyed by
    the (canonicalised) pair. *)
Definition insert_delta (Add : bool) (dir : bool) (r s : nat) (d : Z)
    (ed : list float * list float) (m : MEntries) : MEntries :=
  {| _rnr := _rnr m;
     _entries :=
       insert_entry (canon dir (r, s)) (if Add then d else - d)
         (if Add then ed else (neg_vec ed.1, neg_vec ed.2)) (_entries m);
     _p_entries := _p_entries m |}.

(** A write of the buffer [_p_entries]. *)
Definition set_p_entries (ps : list p_entry) (m : MEntries) : MEntries :=
  {| _rnr := _rnr m; _entries := _entries m; _p_entries := ps |}.

(** ** Partition statistics *)

(** The class [partition_stats<use_rmap>] of [graph_blockmodel_partition.hh]
    is not among the sources; the block state uses it through this
    interface.  The queries are pure: they only consult the rolling
    counters. *)
Class PartitionStats := {
  PS : Type;
  (** the constructor [partition_stats(g, b, vs, E, B, vweight, eweight, degs)] *)
  ps_make : graph_t -> list nat -> list nat -> Z -> nat -> list Z ->
            list (Z * Z) -> PS;
  ps_get_r : nat -> PS -> PS;
  (** [add_vertex(v, r, deg_corr, g, vweight, eweight, degs)] *)
  ps_add_vertex : nat -> nat -> bool -> graph_t -> list Z -> list (Z * Z) ->
                  PS -> PS;
  (** [remove_vertex(v, r, deg_corr, g, vweight, eweight, degs)] *)
  ps_remove_vertex : nat -> nat -> bool -> graph_t -> list Z ->
                     list (Z * Z) -> PS -> PS;
  ps_add_block : PS -> PS;
  ps_get_actual_B : PS -> Z;
  ps_get_delta_partition_dl : nat -> option nat -> option nat -> list Z ->
                              PS -> float;
  ps_get_delta_deg_dl : nat -> option nat -> option nat -> list Z ->
                        list (Z * Z) -> graph_t -> Z -> PS -> float;
  ps_get_delta_edges_dl : nat -> option nat -> option nat -> list Z -> Z ->
                          graph_t -> PS -> float
}.

(** ** The authoritative state of one level *)

(** One [BlockState] object.  The reference [_g] is not a field: a function
    receives the graph of the state it runs on as an argument, and the graph
    of a coupled state is the block graph of the level below ([bg_of]).
    The block graph [_bg] with its edge index [_emat] and the edge counts
    [_mrs] is the finite map [_mrs]: a pair is a key iff its edge exists. *)
Record BlockState `{PartitionStats} := {
  _deg_corr : bool;
  _rec_types : list weight_type;
  _rt : weight_type;
  _bclabel : list Z;
  _pclabel : list nat;
  _bfield : list (list float);
  _Bfield : list float;
  _degs : list (Z * Z);
  _E : Z;
  _coupled_entropy_args : entropy_args_t;
  _b : list nat;
  _vweight : list Z;
  _wr : list Z;
  _N : Z;
  _candidate_groups : gset nat;
  _empty_groups : gset nat;
  _partition_stats : list PS;
  _B : nat;                               (* [num_vertices(_bg)] *)
  _mrs : gmap (nat * nat) Z;
  _mrp : list Z;
  _mrm : list Z;
  _brec : gmap (nat * nat) (list float);
  _bdrec : gmap (nat * nat) (list float);
  _brecsum : list float;
  _m_entries : MEntries
}.

Section Setters.

Context `{PartitionStats}.

Definition set_bclabel (f : list Z -> list Z) (l : BlockState) : BlockState :=
  {| _deg_corr := _deg_corr l; _rec_types := _rec_types l; _rt := _rt l;
     _bclabel := f (_bclabel l); _pclabel := _pclabel l; _bfield := _bfield l;
     _Bfield := _Bfield l; _degs := _degs l; _E := _E l; _coupled_entropy_args
     := _coupled_entropy_args l; _b := _b l; _vweight := _vweight l; _wr :=
     _wr l; _N := _N l; _candidate_groups := _candidate_groups l;
     _empty_groups := _empty_groups l; _partition_stats := _partition_stats l;
     _B := _B l; _mrs := _mrs l; _mrp := _mrp l; _mrm := _mrm l; _brec :=
     _brec l; _bdrec := _bdrec l; _brecsum := _brecsum l; _m_entries :=
     _m_entries l |}.

Definition set_pclabel (f : list nat -> list nat) (l : BlockState) : BlockState :=
  {| _deg_corr := _deg_corr l; _rec_types := _rec_types l; _rt := _rt l;
     _bclabel := _bclabel l; _pclabel := f (_pclabel l); _bfield := _bfield l;
     _Bfield := _Bfield l; _degs := _degs l; _E := _E l; _coupled_entropy_args
     := _coupled_entropy_args l; _b := _b l; _vweight := _vweight l; _wr :=
     _wr l; _N := _N l; _candidate_groups := _candidate_groups l;
     _empty_groups := _empty_groups l; _partition_stats := _partition_stats l;
     _B := _B l; _mrs := _mrs l; _mrp := _mrp l; _mrm := _mrm l; _brec :=
     _brec l; _bdrec := _bdrec l; _brecsum := _brecsum l; _m_entries :=
     _m_entries l |}.

Definition set_bfield (f : list (list float) -> list (list float)) (l : BlockState) : BlockState :=
  {| _deg_corr := _deg_corr l; _rec_types := _rec_types l; _rt := _rt l;
     _bclabel := _bclabel l; _pclabel := _pclabel l; _bfield := f (_bfield l);
     _Bfield := _Bfield l; _degs := _degs l; _E := _E l; _coupled_entropy_args
     := _coupled_entropy_args l; _b := _b l; _vweight := _vweight l; _wr :=
     _wr l; _N := _N l; _candidate_groups := _candidate_groups l;
     _empty_groups := _empty_groups l; _partition_stats := _partition_stats l;
     _B := _B l; _mrs := _mrs l; _mrp := _mrp l; _mrm := _mrm l; _brec :=
     _brec l; _bdrec := _bdrec l; _brecsum := _brecsum l; _m_entries :=
     _m_entries l |}.

Definition set_degs (f : list (Z * Z) -> list (Z * Z)) (l : BlockState) : BlockState :=
  {| _deg_corr := _deg_corr l; _rec_types := _rec_types l; _rt := _rt l;
     _bclabel := _bclabel l; _pclabel := _pclabel l; _bfield := _bfield l;
     _Bfield := _Bfield l; _degs := f (_degs l); _E := _E l;
     _coupled_entropy_args := _coupled_entropy_args l; _b := _b l; _vweight :=
     _vweight l; _wr := _wr l; _N := _N l; _candidate_groups :=
     _candidate_groups l; _empty_groups := _empty_groups l; _partition_stats
     := _partition_stats l; _B := _B l; _mrs := _mrs l; _mrp := _mrp l; _mrm
     := _mrm l; _brec := _brec l; _bdrec := _bdrec l; _brecsum := _brecsum l;
     _m_entries := _m_entries l |}.

Definition set_b (f : list nat -> list nat) (l : BlockState) : BlockState :=
  {| _deg_corr := _deg_corr l; _rec_types := _rec_types l; _rt := _rt l;
     _bclabel := _bclabel l; _pclabel := _pclabel l; _bfield := _bfield l;
     _Bfield := _Bfield l; _degs := _degs l; _E := _E l; _coupled_entropy_args
     := _coupled_entropy_args l; _b := f (_b l); _vweight := _vweight l; _wr
     := _wr l; _N := _N l; _candidate_groups := _candidate_groups l;
     _empty_groups := _empty_groups l; _partition_stats := _partition_stats l;
     _B := _B l; _mrs := _mrs l; _mrp := _mrp l; _mrm := _mrm l; _brec :=
     _brec l; _bdrec := _bdrec l; _brecsum := _brecsum l; _m_entries :=
     _m_entries l |}.

Definition set_vweight (f : list Z -> list Z) (l : BlockState) : BlockState :=
  {| _deg_corr := _deg_corr l; _rec_types := _rec_types l; _rt := _rt l;
     _bclabel := _bclabel l; _pclabel := _pclabel l; _bfield := _bfield l;
     _Bfield := _Bfield l; _degs := _degs l; _E := _E l; _coupled_entropy_args
     := _coupled_entropy_args l; _b := _b l; _vweight := f (_vweight l); _wr
     := _wr l; _N := _N l; _candidate_groups := _candidate_groups l;
     _empty_groups := _empty_groups l; _partition_stats := _partition_stats l;
     _B := _B l; _mrs := _mrs l; _mrp := _mrp l; _mrm := _mrm l; _brec :=
     _brec l; _bdrec := _bdrec l; _brecsum := _brecsum l; _m_entries :=
     _m_entries l |}.

Definition set_wr (f : list Z -> list Z) (l : BlockState) : BlockState :=
  {| _deg_corr := _deg_corr l; _rec_types := _rec_types l; _rt := _rt l;
     _bclabel := _bclabel l; _pclabel := _pclabel l; _bfield := _bfield l;
     _Bfield := _Bfield l; _degs := _degs l; _E := _E l; _coupled_entropy_args
     := _coupled_entropy_args l; _b := _b l; _vweight := _vweight l; _wr := f
     (_wr l); _N := _N l; _candidate_groups := _candidate_groups l;
     _empty_groups := _empty_groups l; _partition_stats := _partition_stats l;
     _B := _B l; _mrs := _mrs l; _mrp := _mrp l; _mrm := _mrm l; _brec :=
     _brec l; _bdrec := _bdrec l; _brecsum := _brecsum l; _m_entries :=
     _m_entries l |}.

Definition set_N (f : Z -> Z) (l : BlockState) : BlockState :=
  {| _deg_corr := _deg_corr l; _rec_types := _rec_types l; _rt := _rt l;
     _bclabel := _bclabel l; _pclabel := _pclabel l; _bfield := _bfield l;
     _Bfield := _Bfield l; _degs := _degs l; _E := _E l; _coupled_entropy_args
     := _coupled_entropy_args l; _b := _b l; _vweight := _vweight l; _wr :=
     _wr l; _N := f (_N l); _candidate_groups := _candidate_groups l;
     _empty_groups := _empty_groups l; _partition_stats := _partition_stats l;
     _B := _B l; _mrs := _mrs l; _mrp := _mrp l; _mrm := _mrm l; _brec :=
     _brec l; _bdrec := _bdrec l; _brecsum := _brecsum l; _m_entries :=
     _m_entries l |}.

Definition set_candidate_groups (f : gset nat -> gset nat) (l : BlockState) : BlockState :=
  {| _deg_corr := _deg_corr l; _rec_types := _rec_types l; _rt := _rt l;
     _bclabel := _bclabel l; _pclabel := _pclabel l; _bfield := _bfield l;
     _Bfield := _Bfield l; _degs := _degs l; _E := _E l; _coupled_entropy_args
     := _coupled_entropy_args l; _b := _b l; _vweight := _vweight l; _wr :=
     _wr l; _N := _N l; _candidate_groups := f (_candidate_groups l);
     _empty_groups := _empty_groups l; _partition_stats := _partition_stats l;
     _B := _B l; _mrs := _mrs l; _mrp := _mrp l; _mrm := _mrm l; _brec :=
     _brec l; _bdrec := _bdrec l; _brecsum := _brecsum l; _m_entries :=
     _m_entries l |}.

Definition set_empty_groups (f : gset nat -> gset nat) (l : BlockState) : BlockState :=
  {| _deg_corr := _deg_corr l; _rec_types := _rec_types l; _rt := _rt l;
     _bclabel := _bclabel l; _pclabel := _pclabel l; _bfield := _bfield l;
     _Bfield := _Bfield l; _degs := _degs l; _E := _E l; _coupled_entropy_args
     := _coupled_entropy_args l; _b := _b l; _vweight := _vweight l; _wr :=
     _wr l; _N := _N l; _candidate_groups := _candidate_groups l;
     _empty_groups := f (_empty_groups l); _partition_stats :=
     _partition_stats l; _B := _B l; _mrs := _mrs l; _mrp := _mrp l; _mrm :=
     _mrm l; _brec := _brec l; _bdrec := _bdrec l; _brecsum := _brecsum l;
     _m_entries := _m_entries l |}.

Definition set_partition_stats (f : list PS -> list PS) (l : BlockState) : BlockState :=
  {| _deg_corr := _deg_corr l; _rec_types := _rec_types l; _rt := _rt l;
     _bclabel := _bclabel l; _pclabel := _pclabel l; _bfield := _bfield l;
     _Bfield := _Bfield l; _degs := _degs l; _E := _E l; _coupled_entropy_args
     := _coupled_entropy_args l; _b := _b l; _vweight := _vweight l; _wr :=
     _wr l; _N := _N l; _candidate_groups := _candidate_groups l;
     _empty_groups := _empty_groups l; _partition_stats := f (_partition_stats
     l); _B := _B l; _mrs := _mrs l; _mrp := _mrp l; _mrm := _mrm l; _brec :=
     _brec l; _bdrec := _bdrec l; _brecsum := _brecsum l; _m_entries :=
     _m_entries l |}.

Definition set_B (f : nat -> nat) (l : BlockState) : BlockState :=
  {| _deg_corr := _deg_corr l; _rec_types := _rec_types l; _rt := _rt l;
     _bclabel := _bclabel l; _pclabel := _pclabel l; _bfield := _bfield l;
     _Bfield := _Bfield l; _degs := _degs l; _E := _E l; _coupled_entropy_args
     := _coupled_entropy_args l; _b := _b l; _vweight := _vweight l; _wr :=
     _wr l; _N := _N l; _candidate_groups := _candidate_groups l;
     _empty_groups := _empty_groups l; _partition_stats := _partition_stats l;
     _B := f (_B l); _mrs := _mrs l; _mrp := _mrp l; _mrm := _mrm l; _brec :=
     _brec l; _bdrec := _bdrec l; _brecsum := _brecsum l; _m_entries :=
     _m_entries l |}.

Definition set_mrs (f : gmap (nat * nat) Z -> gmap (nat * nat) Z) (l : BlockState) : BlockState :=
  {| _deg_corr := _deg_corr l; _rec_types := _rec_types l; _rt := _rt l;
     _bclabel := _bclabel l; _pclabel := _pclabel l; _bfield := _bfield l;
     _Bfield := _Bfield l; _degs := _degs l; _E := _E l; _coupled_entropy_args
     := _coupled_entropy_args l; _b := _b l; _vweight := _vweight l; _wr :=
     _wr l; _N := _N l; _candidate_groups := _candidate_groups l;
     _empty_groups := _empty_groups l; _partition_stats := _partition_stats l;
     _B := _B l; _mrs := f (_mrs l); _mrp := _mrp l; _mrm := _mrm l; _brec :=
     _brec l; _bdrec := _bdrec l; _brecsum := _brecsum l; _m_entries :=
     _m_entries l |}.

Definition set_mrp (f : list Z -> list Z) (l : BlockState) : BlockState :=
  {| _deg_corr := _deg_corr l; _rec_types := _rec_types l; _rt := _rt l;
     _bclabel := _bclabel l; _pclabel := _pclabel l; _bfield := _bfield l;
     _Bfield := _Bfield l; _degs := _degs l; _E := _E l; _coupled_entropy_args
     := _coupled_entropy_args l; _b := _b l; _vweight := _vweight l; _wr :=
     _wr l; _N := _N l; _candidate_groups := _candidate_groups l;
     _empty_groups := _empty_groups l; _partition_stats := _partition_stats l;
     _B := _B l; _mrs := _mrs l; _mrp := f (_mrp l); _mrm := _mrm l; _brec :=
     _brec l; _bdrec := _bdrec l; _brecsum := _brecsum l; _m_entries :=
     _m_entries l |}.

Definition set_mrm (f : list Z -> list Z) (l : BlockState) : BlockState :=
  {| _deg_corr := _deg_corr l; _rec_types := _rec_types l; _rt := _rt l;
     _bclabel := _bclabel l; _pclabel := _pclabel l; _bfield := _bfield l;
     _Bfield := _Bfield l; _degs := _degs l; _E := _E l; _coupled_entropy_args
     := _coupled_entropy_args l; _b := _b l; _vweight := _vweight l; _wr :=
     _wr l; _N := _N l; _candidate_groups := _candidate_groups l;
     _empty_groups := _empty_groups l; _partition_stats := _partition_stats l;
     _B := _B l; _mrs := _mrs l; _mrp := _mrp l; _mrm := f (_mrm l); _brec :=
     _brec l; _bdrec := _bdrec l; _brecsum := _brecsum l; _m_entries :=
     _m_entries l |}.

Definition set_brec (f : gmap (nat * nat) (list float) -> gmap (nat * nat) (list float)) (l : BlockState) : BlockState :=
  {| _deg_corr := _deg_corr l; _rec_types := _rec_types l; _rt := _rt l;
     _bclabel := _bclabel l; _pclabel := _pclabel l; _bfield := _bfield l;
     _Bfield := _Bfield l; _degs := _degs l; _E := _E l; _coupled_entropy_args
     := _coupled_entropy_args l; _b := _b l; _vweight := _vweight l; _wr :=
     _wr l; _N := _N l; _candidate_groups := _candidate_groups l;
     _empty_groups := _empty_groups l; _partition_stats := _partition_stats l;
     _B := _B l; _mrs := _mrs l; _mrp := _mrp l; _mrm := _mrm l; _brec := f
     (_brec l); _bdrec := _bdrec l; _brecsum := _brecsum l; _m_entries :=
     _m_entries l |}.

Definition set_bdrec (f : gmap (nat * nat) (list float) -> gmap (nat * nat) (list float)) (l : BlockState) : BlockState :=
  {| _deg_corr := _deg_corr l; _rec_types := _rec_types l; _rt := _rt l;
     _bclabel := _bclabel l; _pclabel := _pclabel l; _bfield := _bfield l;
     _Bfield := _Bfield l; _degs := _degs l; _E := _E l; _coupled_entropy_args
     := _coupled_entropy_args l; _b := _b l; _vweight := _vweight l; _wr :=
     _wr l; _N := _N l; _candidate_groups := _candidate_groups l;
     _empty_groups := _empty_groups l; _partition_stats := _partition_stats l;
     _B := _B l; _mrs := _mrs l; _mrp := _mrp l; _mrm := _mrm l; _brec :=
     _brec l; _bdrec := f (_bdrec l); _brecsum := _brecsum l; _m_entries :=
     _m_entries l |}.

Definition set_brecsum (f : list float -> list float) (l : BlockState) : BlockState :=
  {| _deg_corr := _deg_corr l; _rec_types := _rec_types l; _rt := _rt l;
     _bclabel := _bclabel l; _pclabel := _pclabel l; _bfield := _bfield l;
     _Bfield := _Bfield l; _degs := _degs l; _E := _E l; _coupled_entropy_args
     := _coupled_entropy_args l; _b := _b l; _vweight := _vweight l; _wr :=
     _wr l; _N := _N l; _candidate_groups := _candidate_groups l;
     _empty_groups := _empty_groups l; _partition_stats := _partition_stats l;
     _B := _B l; _mrs := _mrs l; _mrp := _mrp l; _mrm := _mrm l; _brec :=
     _brec l; _bdrec := _bdrec l; _brecsum := f (_brecsum l); _m_entries :=
     _m_entries l |}.

Definition set_m_entries (f : MEntries -> MEntries) (l : BlockState) : BlockState :=
  {| _deg_corr := _deg_corr l; _rec_types := _rec_types l; _rt := _rt l;
     _bclabel := _bclabel l; _pclabel := _pclabel l; _bfield := _bfield l;
     _Bfield := _Bfield l; _degs := _degs l; _E := _E l; _coupled_entropy_args
     := _coupled_entropy_args l; _b := _b l; _vweight := _vweight l; _wr :=
     _wr l; _N := _N l; _candidate_groups := _candidate_groups l;
     _empty_groups := _empty_groups l; _partition_stats := _partition_stats l;
     _B := _B l; _mrs := _mrs l; _mrp := _mrp l; _mrm := _mrm l; _brec :=
     _brec l; _bdrec := _bdrec l; _brecsum := _brecsum l; _m_entries := f
     (_m_entries l) |}.

End Setters.

(** ** The remaining collaborators that are not among the sources *)

(** [move_entries], [recs_propagate_insert] and [rec_entries_dS] of
    [graph_blockmodel_entries.hh] and [graph_blockmodel_weights.hh], and the
    entropy terms of [graph_blockmodel_entropy.hh]. *)
Class Externals `{PartitionStats} := {
  (** [move_entries(v, r, nr, _b, _g, _eweight, num_vertices(_bg), m_entries,
      efilt, is_loop, eprops...)]; the last argument is [_rt], which selects
      the edge covariates passed along. *)
  move_entries : nat -> option nat -> option nat -> list nat -> graph_t ->
                 nat -> MEntries -> (edge_t -> bool) -> weight_type ->
                 MEntries;
  (** [recs_propagate_insert(state, r, s, me, delta, edelta, m_entries)] *)
  recs_propagate_insert : graph_t -> BlockState -> nat -> nat ->
                          option (nat * nat) -> Z -> list float ->
                          MEntries -> MEntries;
  (** [rec_entries_dS(state, m_entries, ea, dBdx, dL)]: the two entropy
      parts, and the values left in [dBdx] and [dL]. *)
  rec_entries_dS : graph_t -> BlockState -> MEntries -> entropy_args_t ->
                   list float -> Z -> (float * float) * (list float * Z);
  (** [entries_dS<exact>(m_entries, _mrs, _emat, _bg)] *)
  entries_dS : bool -> bool -> MEntries -> gmap (nat * nat) Z -> float;
  (** [vterm(mrp, mrm, wr, deg_corr, bg)] and [vterm_exact] *)
  vterm : Z -> Z -> Z -> bool -> bool -> float;
  vterm_exact : Z -> Z -> Z -> bool -> bool -> float;
  (** [eterm_dense(r, s, ers, wr_r, wr_s, multigraph, bg)] *)
  eterm_dense : nat -> nat -> Z -> Z -> Z -> bool -> bool -> float;
  (** [get_edges_dl(B, E, g)] *)
  get_edges_dl : Z -> Z -> graph_t -> float
}.

(** [apply_delta<Add, Remove>(state, state._m_entries)] of
    [graph_blockmodel_entries.hh].  A state is the level an operation runs
    on together with its chain of coupled states. *)
Class ApplyDelta `{PartitionStats} := {
  apply_delta : bool -> bool -> graph_t -> BlockState -> list BlockState ->
                BlockState * list BlockState
}.

(* ===================================================================== *)
(** * Part III. The block state: operations of [graph_blockmodel.hh]      *)
(* ===================================================================== *)

Section Operations.

Context `{PartitionStats} `{!Externals} `{!ApplyDelta}.

(** The graph of the coupled state: the block graph of this level, with the
    edge counts as edge weights and the covariate sums as covariates. *)
Definition bg_of (g : graph_t) (l : BlockState) : graph_t :=
  {| directed := directed g;
     num_vertices := _B l;
     edges := (fun km : nat * nat * Z =>
                 {| source := km.1.1; target := km.1.2; eweight := km.2;
                    e_rec := default [] (_brec l !! km.1);
                    e_drec := default [] (_bdrec l !! km.1) |})
              <$> map_to_list (_mrs l) |}.

(** On an undirected graph [_mrm] shares its storage with [_mrp]
    (see [deep_copy] and [deep_assign]). *)
Definition mrm_of (g : graph_t) (l : BlockState) : list Z :=
  if directed g then _mrm l else _mrp l.

(** [get_beprop(r, s, _mrs, _emat)]: the count of the pair, 0 on the null
    edge. *)
Definition get_beprop (g : graph_t) (r s : nat) (l : BlockState) : Z :=
  default 0 (_mrs l !! canon (directed g) (r, s)).

(** ** Partition statistics of a state *)

(** [reset_partition_stats]. *)
Definition reset_partition_stats (l : BlockState) : BlockState :=
  set_partition_stats (fun _ => []) l.

(** [init_partition_stats]: one statistics object per constraint class. *)
Definition init_partition_stats (g : graph_t) (l : BlockState) : BlockState :=
  let l := reset_partition_stats l in
  let B := _B l in
  let vs := seq 0 (num_vertices g) in
  let C := S (max_list ((fun v => _pclabel l !!! v) <$> vs)) in
  let vcs := fun c : nat => filter (fun v => _pclabel l !!! v = c) vs in
  let rc := foldl (fun rc v => <[ _b l !!! v := _pclabel l !!! v ]> rc)
                  (replicate B 0%nat) vs in
  let stats := (fun c => ps_make g (_b l) (vcs c) (_E l) B (_vweight l)
                           (_degs l)) <$> seq 0 C in
  let stats := foldl (fun st r => alter (ps_get_r r) (rc !!! r) st) stats
                     (seq 0 B) in
  set_partition_stats (fun _ => stats) l.

(** [get_partition_stats(v)]: the index of the statistics object of [v]'s
    class, after the lazy (re)initialisation. *)
Definition get_partition_stats (g : graph_t) (v : nat) (l : BlockState)
    : nat * BlockState :=
  let r := _pclabel l !!! v in
  (r, if (length (_partition_stats l) <=? r)%nat
      then init_partition_stats g l else l).

(** The sum over [_partition_stats] of [get_actual_B()]. *)
Definition actual_B (l : BlockState) : Z :=
  foldl (fun acc ps => acc + ps_get_actual_B ps) 0 (_partition_stats l).

(** ** Constraint check *)

(** [allow_move(r, nr)]. *)
Fixpoint allow_move (r nr : nat) (l : BlockState) (cs : list BlockState)
    {struct cs} : bool :=
  let coupled_ok :=
    match cs with
    | [] => true
    | h :: rest =>
        let rr := _b h !!! r in
        let ss := _b h !!! nr in
        negb (negb (rr =? ss)%nat && negb (allow_move rr ss h rest))
    end in
  if coupled_ok then (_bclabel l !!! r =? _bclabel l !!! nr) else false.

(** ** Partition-node bookkeeping *)

(** [set_vertex_weight(v, w)]; the state is weighted ([is_weighted] is
    always [true_type]), so the throwing overload is never selected. *)
Definition set_vertex_weight (v : nat) (w : Z) (l : BlockState) : BlockState :=
  set_vweight (fun vw => <[ v := w ]> vw)
    (set_N (fun n => n - (_vweight l !!! v) + w) l).

(** [remove_partition_node(v, r)]. *)
Fixpoint remove_partition_node (g : graph_t) (v r : nat) (l : BlockState)
    (cs : list BlockState) {struct cs} : BlockState * list BlockState :=
  let vw := _vweight l !!! v in
  let emptied := (0 <? vw) && (_wr l !!! r =? vw) in
  let l1 :=
    if emptied
    then set_empty_groups (fun s => {[ r ]} ∪ s)
           (set_candidate_groups (fun s => s ∖ {[ r ]}) l)
    else l in
  let cs1 :=
    if emptied then
      match cs with
      | [] => []
      | h :: rest =>
          let '(h1, rest1) :=
            remove_partition_node (bg_of g l1) r (_b h !!! r) h rest in
          set_vertex_weight r 0 h1 :: rest1
      end
    else cs in
  let l2 := set_wr (fun wr => <[ r := wr !!! r - vw ]> wr) l1 in
  let '(c, l3) := get_partition_stats g v l2 in
  (set_partition_stats
     (alter (ps_remove_vertex v r (_deg_corr l3) g (_vweight l3) (_degs l3))
            c) l3,
   cs1).

(** [add_partition_node(v, r)]. *)
Fixpoint add_partition_node (g : graph_t) (v r : nat) (l : BlockState)
    (cs : list BlockState) {struct cs} : BlockState * list BlockState :=
  let l1 := set_b (fun b => <[ v := r ]> b) l in
  let vw := _vweight l1 !!! v in
  let l2 := set_wr (fun wr => <[ r := wr !!! r + vw ]> wr) l1 in
  let '(c, l3) := get_partition_stats g v l2 in
  let l4 :=
    set_partition_stats
      (alter (ps_add_vertex v r (_deg_corr l3) g (_vweight l3) (_degs l3)) c)
      l3 in
  if (0 <? vw) && (_wr l4 !!! r =? vw) then
    let l5 := set_candidate_groups (fun s => {[ r ]} ∪ s)
                (set_empty_groups (fun s => s ∖ {[ r ]}) l4) in
    match cs with
    | [] => (l5, [])
    | h :: rest =>
        let h1 := set_vertex_weight r 1 h in
        let '(h2, rest2) :=
          add_partition_node (bg_of g l5) r (_b h !!! r) h1 rest in
        (l5, h2 :: rest2)
    end
  else (l4, cs).

(** ** Growing the block graph *)

(** [coupled_resize_vertex(v)], run on the coupled state whose graph [g]
    just received the vertex [v]. *)
Definition coupled_resize_vertex (g : graph_t) (v : nat) (l : BlockState)
    : BlockState :=
  let n := num_vertices g in
  let l := set_b (resize n 0%nat) l in
  let l := set_bfield (resize n []) l in
  let l := set_vweight (fun vw => <[ v := 0 ]> (resize n 0 vw)) l in
  let l := set_pclabel (resize n 0%nat) l in
  set_degs (resize n (0, 0)) l.

(** One round of the loop of [add_block]: the new block is [_B l]. *)
Definition add_block_step (g : graph_t) (l : BlockState)
    (cs : list BlockState) : BlockState * list BlockState :=
  let r := _B l in
  let l := set_B S l in
  let l := set_wr (fun wr => <[ r := 0 ]> wr) l in
  let l := if directed g then set_mrm (fun m => <[ r := 0 ]> m) l else l in
  let l := set_mrp (fun m => <[ r := 0 ]> m) l in
  let l := set_empty_groups (fun s => {[ r ]} ∪ s) l in
  let l := set_partition_stats (fmap ps_add_block) l in
  (l, match cs with
      | [] => []
      | h :: rest => coupled_resize_vertex (bg_of g l) r h :: rest
      end).

(** [add_block(n)]: the state, and the last block added. *)
Definition add_block (n : nat) (g : graph_t) (l : BlockState)
    (cs : list BlockState) : option nat * (BlockState * list BlockState) :=
  let m := (_B l + n)%nat in
  let l := set_wr (resize m 0) l in
  let l := if directed g then set_mrm (resize m 0) l else l in
  let l := set_mrp (resize m 0) l in
  let l := set_bclabel (resize m 0) l in
  let l := set_brecsum (resize m 0%float) l in
  let st := Nat.iter n (fun st => add_block_step g st.1 st.2) (l, cs) in
  (if n is O then None else Some (pred (_B st.1)), st).

(** The loop of the constructor that files every block under
    [_empty_groups] or [_candidate_groups]. *)
Definition init_groups (l : BlockState) : BlockState :=
  foldl (fun l r =>
           if _wr l !!! r =? 0
           then set_empty_groups (fun s => {[ r ]} ∪ s) l
           else set_candidate_groups (fun s => {[ r ]} ∪ s) l)
        (set_candidate_groups (fun _ => ∅) (set_empty_groups (fun _ => ∅) l))
        (seq 0 (_B l)).

(** ** Authoritative moves *)

(** [get_move_entries(v, r, nr, _m_entries, efilt)]. *)
Definition get_move_entries (v : nat) (r nr : option nat)
    (efilt : edge_t -> bool) (g : graph_t) (l : BlockState) : BlockState :=
  set_m_entries
    (fun m => move_entries v r nr (_b l) g (_B l) m efilt (_rt l)) l.

Definition no_efilt (e : edge_t) : bool := false.

(** [modify_vertex<Add>(v, r, efilt)]. *)
Definition modify_vertex (Add : bool) (v r : nat) (efilt : edge_t -> bool)
    (g : graph_t) (l : BlockState) (cs : list BlockState)
    : BlockState * list BlockState :=
  let l1 :=
    if Add then get_move_entries v None (Some r) efilt g l
    else get_move_entries v (Some r) None efilt g l in
  let '(l2, cs2) := apply_delta Add (negb Add) g l1 cs in
  if Add then add_partition_node g v r l2 cs2
  else remove_partition_node g v r l2 cs2.

(** [remove_vertex(v, r)] and [remove_vertex(v)]. *)
Definition remove_vertex_from (v r : nat) (g : graph_t) (l : BlockState)
    (cs : list BlockState) : BlockState * list BlockState :=
  modify_vertex false v r no_efilt g l cs.

Definition remove_vertex (v : nat) (g : graph_t) (l : BlockState)
    (cs : list BlockState) : BlockState * list BlockState :=
  remove_vertex_from v (_b l !!! v) g l cs.

(** [add_vertex(v, r)]. *)
Definition add_vertex (v r : nat) (g : graph_t) (l : BlockState)
    (cs : list BlockState) : BlockState * list BlockState :=
  modify_vertex true v r no_efilt g l cs.

(** [move_vertex(v, r, nr, _m_entries)]: the move whose entries are already
    in [_m_entries]. *)
Definition move_vertex_entries (v r nr : nat) (g : graph_t) (l : BlockState)
    (cs : list BlockState) : BlockState * list BlockState :=
  if decide (r = nr) then (l, cs)
  else
    let '(l1, cs1) := apply_delta true true g l cs in
    let '(l2, cs2) := remove_partition_node g v r l1 cs1 in
    add_partition_node g v nr l2 cs2.

Definition barrier_msg : string := "cannot move vertex across clabel barriers".

(** [move_vertex(v, r, nr)]: the outcome and the state left behind. *)
Definition move_vertex_from (v r nr : nat) (g : graph_t) (l : BlockState)
    (cs : list BlockState) : result unit * (BlockState * list BlockState) :=
  if decide (r = nr) then (Ok tt, (l, cs))
  else if negb (allow_move r nr l cs)
  then (Raise (ValueException barrier_msg), (l, cs))
  else
    let l1 := get_move_entries v (Some r) (Some nr) no_efilt g l in
    (Ok tt, move_vertex_entries v r nr g l1 cs).

(** [move_vertex(v, nr)]. *)
Definition move_vertex (v nr : nat) (g : graph_t) (l : BlockState)
    (cs : list BlockState) : result unit * (BlockState * list BlockState) :=
  move_vertex_from v (_b l !!! v) nr g l cs.

(** ** The receiving side of a coupled state *)

(** A read of [_b] at a block argument; at [null_group] the C++ read is out
    of range. *)
Definition b_at (l : BlockState) (u : option nat) : nat :=
  from_option (fun u => _b l !!! u) 0%nat u.

Definition wr_at (l : BlockState) (r : option nat) : Z :=
  from_option (fun r => _wr l !!! r) 0 r.

(** [propagate_delta(u, v, entries)], for a given [apply_delta<true, true>]. *)
Definition propagate_delta_with
    (ad : graph_t -> BlockState -> list BlockState ->
          BlockState * list BlockState)
    (g : graph_t) (u v : option nat)
    (entries : list p_entry) (l : BlockState) (cs : list BlockState)
    : BlockState * list BlockState :=
  let r := b_at l u in
  let s := b_at l v in
  let m := set_move (Some r) (Some s) (_B l) (_m_entries l) in
  let m :=
    if decide (_rt l = NONE) then
      foldl (fun m (rsd : p_entry) =>
               insert_delta true (directed g) (_b l !!! rsd.1.1.1.1)
                 (_b l !!! rsd.1.1.1.2) rsd.1.2 ([], []) m) m entries
    else
      foldl (fun m (rsd : p_entry) =>
               recs_propagate_insert g l (_b l !!! rsd.1.1.1.1)
                 (_b l !!! rsd.1.1.1.2) rsd.1.1.2 rsd.1.2 rsd.2 m) m entries
  in
  ad g (set_m_entries (fun _ => m) l) cs.

Definition propagate_delta :=
  propagate_delta_with (apply_delta true true).

Definition zero_recs (l : BlockState) : list float :=
  replicate (length (_rec_types l)) 0%float.

(** [add_edge(e)]: the edge [e] of this state's graph appeared; make sure
    the block graph has the edge its endpoints fall on. *)
Fixpoint add_edge (g : graph_t) (e : nat * nat) (l : BlockState)
    (cs : list BlockState) {struct cs} : BlockState * list BlockState :=
  let me := canon (directed g) (_b l !!! e.1, _b l !!! e.2) in
  match _mrs l !! me with
  | Some _ => (l, cs)
  | None =>
      let l1 := set_mrs (fun m => <[ me := 0 ]> m) l in
      let l1 := set_brec (fun m => <[ me := zero_recs l ]> m) l1 in
      let l1 := set_bdrec (fun m => <[ me := zero_recs l ]> m) l1 in
      match cs with
      | [] => (l1, [])
      | h :: rest =>
          let '(h1, rest1) := add_edge (bg_of g l1) me h rest in
          (l1, h1 :: rest1)
      end
  end.

(** The graph [_g] without its [i]-th edge: [boost::remove_edge(e, _g)] for
    the edge descriptor [e] of that edge. *)
Definition remove_graph_edge (i : nat) (g : graph_t) : graph_t :=
  {| directed := directed g; num_vertices := num_vertices g;
     edges := delete i (edges g) |}.

(** [remove_edge(e)] up to its last statement, for an edge [e] with the
    given end points: the block-graph edge [me] the edge falls on is dropped
    once its count is zero.  The block graph is the map [_mrs]: [delete me]
    stands for [_emat.remove_me(me, _bg)] and for the removal of [me] from
    [_bg], which is done by [boost::remove_edge(me, _bg)] without a coupled
    state and, with one, by the last statement of
    [_coupled_state->remove_edge(me)], whose graph [_g] is this [_bg]; so
    the call on the coupled state is this function again. *)
Fixpoint remove_edge_bg (g : graph_t) (e : nat * nat) (l : BlockState)
    (cs : list BlockState) {struct cs} : BlockState * list BlockState :=
  let me := canon (directed g) (_b l !!! e.1, _b l !!! e.2) in
  match _mrs l !! me with
  | Some 0 =>
      let l1 := set_mrs (delete me) l in
      match cs with
      | [] => (l1, [])
      | h :: rest =>
          let '(h1, rest1) := remove_edge_bg (bg_of g l1) me h rest in
          (l1, h1 :: rest1)
      end
  | _ => (l, cs)
  end.

(** [remove_edge(e)] on the state itself, for the [i]-th edge [e] of [_g]:
    the graph it leaves, without [e], and the state.  An [i] that names no
    edge is an invalid descriptor, for which the C++ is undefined. *)
Definition remove_edge (i : nat) (g : graph_t) (l : BlockState)
    (cs : list BlockState) : graph_t * (BlockState * list BlockState) :=
  match edges g !! i with
  | Some e =>
      (remove_graph_edge i g, remove_edge_bg g (source e, target e) l cs)
  | None => (g, (l, cs))
  end.

(** ** Virtual moves *)

(** [entries_op(m_entries, _emat, f)] lists every entry with its resolved
    block-graph edge. *)
Definition resolve (g : graph_t) (l : BlockState) (e : entry)
    : option (nat * nat) :=
  let k := canon (directed g) (en_r e, en_s e) in
  if _mrs l !! k is Some _ then Some k else None.

(** The block-pair deltas with a non-zero count change, as [_p_entries]
    elements (no covariates). *)
Definition p_entries_nonzero (g : graph_t) (l : BlockState) (m : MEntries)
    : list p_entry :=
  (fun e => (en_r e, en_s e, resolve g l e, en_delta e, []))
    <$> filter (fun e => en_delta e <> 0) (_entries m).

(** The block-pair deltas with their first covariate delta. *)
Definition p_entries_weighted (g : graph_t) (l : BlockState) (m : MEntries)
    : list p_entry :=
  (fun e => (en_r e, en_s e, resolve g l e, en_delta e, (en_edelta e).1))
    <$> _entries m.

(** [virtual_move_sparse<exact>(v, r, nr, m_entries)]. *)
Definition virtual_move_sparse (exact : bool) (v : nat) (r nr : option nat)
    (g : graph_t) (l : BlockState) : float :=
  if decide (r = nr) then 0%float
  else
    let dS := entries_dS exact (directed g) (_m_entries l) (_mrs l) in
    let '(kin, kout) := _degs l !!! v in
    let dwr := _vweight l !!! v in
    let dwnr := if decide (r = None) then (if dwr =? 0 then 1 else dwr)
                else dwr in
    let vt := fun mrp mrm n =>
      if exact then vterm_exact mrp mrm n (_deg_corr l) (directed g)
      else vterm mrp mrm n (_deg_corr l) (directed g) in
    let dS :=
      match r with
      | Some r =>
          let mrp_r := _mrp l !!! r in
          let mrm_r := mrm_of g l !!! r in
          let wr_r := _wr l !!! r in
          (dS + vt (mrp_r - kout)%Z (mrm_r - kin)%Z (wr_r - dwr)%Z
           - vt mrp_r mrm_r wr_r)%float
      | None => dS
      end in
    match nr with
    | Some nr =>
        let mrp_nr := _mrp l !!! nr in
        let mrm_nr := mrm_of g l !!! nr in
        let wr_nr := _wr l !!! nr in
        (dS + vt (mrp_nr + kout)%Z (mrm_nr + kin)%Z (wr_nr + dwnr)%Z
         - vt mrp_nr mrm_nr wr_nr)%float
    | None => dS
    end.

Definition dense_msg : string :=
  "Dense entropy for degree corrected model not implemented!".

(** The per-block edge weights of [v]: [deltap], [deltam] and the self-loop
    weight [deltal] of [virtual_move_dense]. *)
Definition dense_deltas (v : nat) (g : graph_t) (l : BlockState)
    : list Z * list Z * Z :=
  let B := _B l in
  let '(deltap, deltal) :=
    foldl (fun (acc : list Z * Z) e =>
             let u := target e in
             let s := _b l !!! u in
             if decide (u = v) then (acc.1, acc.2 + eweight e)
             else (<[ s := acc.1 !!! s + eweight e ]> acc.1, acc.2))
          (replicate B 0, 0) (out_edges_range v g) in
  let deltal := if directed g then deltal else Z.quot deltal 2 in
  let deltam :=
    if directed g then
      foldl (fun (acc : list Z) e =>
               let u := source e in
               if decide (u = v) then acc
               else let s := _b l !!! u in <[ s := acc !!! s + eweight e ]> acc)
            (replicate B 0) (in_edges_range v g)
    else replicate B 0 in
  (deltap, deltam, deltal).

(** One round of the loop over the blocks [s] of [virtual_move_dense]: the
    contributions to [Si] and [Sf]. *)
Definition dense_round (r nr : option nat) (multigraph : bool)
    (dwr dwnr : Z) (deltap deltam : list Z) (deltal : Z) (g : graph_t)
    (l : BlockState) (SiSf : float * float) (s : nat) : float * float :=
  let wr := fun x : nat => _wr l !!! x in
  let ed := fun a b m wa wb =>
    eterm_dense a b m wa wb multigraph (directed g) in
  let step := fun (acc : float * float) (ab : float * float) =>
    ((acc.1 + ab.1)%float, (acc.2 + ab.2)%float) in
  if (wr s =? 0) && negb (bool_decide (Some s = r))
     && negb (bool_decide (Some s = nr)) then SiSf
  else
    let ers := from_option (fun r => get_beprop g r s l) 0 r in
    let enrs := from_option (fun nr => get_beprop g nr s l) 0 nr in
    let other := negb (bool_decide (Some s = nr))
                 && negb (bool_decide (Some s = r)) in
    if negb (directed g) then
      let acc := SiSf in
      let acc :=
        match r with
        | Some r0 =>
            if other then
              step acc (ed r0 s ers (wr r0) (wr s),
                        ed r0 s (ers - deltap !!! s) (wr r0 - dwr) (wr s))
            else acc
        | None => acc
        end in
      let acc :=
        match nr with
        | Some n0 =>
            if other then
              step acc (ed n0 s enrs (wr n0) (wr s),
                        ed n0 s (enrs + deltap !!! s) (wr n0 + dwnr) (wr s))
            else acc
        | None => acc
        end in
      let acc :=
        match r with
        | Some r0 =>
            if bool_decide (s = r0) then
              step acc (ed r0 r0 ers (wr r0) (wr r0),
                        ed r0 r0 (ers - deltap !!! r0 - deltal)
                           (wr r0 - dwr) (wr r0 - dwr))
            else acc
        | None => acc
        end in
      match nr with
      | Some n0 =>
          if bool_decide (s = n0) then
            let acc :=
              step acc (ed n0 n0 enrs (wr n0) (wr n0),
                        ed n0 n0 (enrs + deltap !!! n0 + deltal)
                           (wr n0 + dwnr) (wr n0 + dwnr)) in
            match r with
            | Some r0 =>
                step acc (ed r0 n0 ers (wr r0) (wr n0),
                          ed r0 n0 (ers - deltap !!! n0 + deltap !!! r0)
                             (wr r0 - dwr) (wr n0 + dwnr))
            | None => acc
            end
          else acc
      | None => acc
      end
    else
      let esr := from_option (fun r => get_beprop g s r l) 0 r in
      let esnr := from_option (fun nr => get_beprop g s nr l) 0 nr in
      let acc := SiSf in
      let acc :=
        match r with
        | Some r0 =>
            if other then
              let acc :=
                step acc (ed r0 s ers (wr r0) (wr s),
                          ed r0 s (ers - deltap !!! s) (wr r0 - dwr) (wr s)) in
              step acc (ed s r0 esr (wr s) (wr r0),
                        ed s r0 (esr - deltam !!! s) (wr s) (wr r0 - dwr))
            else acc
        | None => acc
        end in
      let acc :=
        match nr with
        | Some n0 =>
            if other then
              let acc :=
                step acc (ed n0 s enrs (wr n0) (wr s),
                          ed n0 s (enrs + deltap !!! s) (wr n0 + dwnr) (wr s))
              in
              step acc (ed s n0 esnr (wr s) (wr n0),
                        ed s n0 (esnr + deltam !!! s) (wr s) (wr n0 + dwnr))
            else acc
        | None => acc
        end in
      let acc :=
        match r with
        | Some r0 =>
            if bool_decide (s = r0) then
              let acc :=
                step acc (ed r0 r0 ers (wr r0) (wr r0),
                          ed r0 r0
                             (ers - deltap !!! r0 - deltam !!! r0 - deltal)
                             (wr r0 - dwr) (wr r0 - dwr)) in
              match nr with
              | Some n0 =>
                  step acc (ed r0 n0 esnr (wr r0) (wr n0),
                            ed r0 n0 (esnr - deltap !!! n0 + deltam !!! r0)
                               (wr r0 - dwr) (wr n0 + dwnr))
              | None => acc
              end
            else acc
        | None => acc
        end in
      match nr with
      | Some n0 =>
          if bool_decide (s = n0) then
            let acc :=
              step acc (ed n0 n0 esnr (wr n0) (wr n0),
                        ed n0 n0
                           (esnr + deltap !!! n0 + deltam !!! n0 + deltal)
                           (wr n0 + dwnr) (wr n0 + dwnr)) in
            match r with
            | Some r0 =>
                step acc (ed n0 r0 esr (wr n0) (wr r0),
                          ed n0 r0 (esr + deltap !!! r0 - deltam !!! n0)
                             (wr n0 + dwnr) (wr r0 - dwr))
            | None => acc
            end
          else acc
      | None => acc
      end.

(** [virtual_move_dense(v, r, nr, multigraph)]. *)
Definition virtual_move_dense (v : nat) (r nr : option nat)
    (multigraph : bool) (g : graph_t) (l : BlockState) : result float :=
  if _deg_corr l then Raise (GraphException dense_msg)
  else if decide (r = nr) then Ok 0%float
  else
    let '(deltap, deltam, deltal) := dense_deltas v g l in
    let dS := 0%float in
    let dwr := _vweight l !!! v in
    let dwnr := if decide (r = None) then (if dwr =? 0 then 1 else dwr)
                else dwr in
    let '(deltap, deltam, deltal) :=
      if decide (nr = None)
      then (replicate (_B l) 0, replicate (_B l) 0,
            if dwr =? wr_at l r then deltal else 0)
      else (deltap, deltam, deltal) in
    let '(Si, Sf) :=
      foldl (dense_round r nr multigraph dwr dwnr deltap deltam deltal g l)
            (0%float, 0%float) (seq 0 (_B l)) in
    Ok (Sf - Si + dS)%float.

(** [(i < f.size()) ? f[i] : f.back()]. *)
Definition field_at (f : list float) (i : nat) : float :=
  if (i <? length f)%nat then f !!! i else List.last f 0%float.

(** The same with a [size_t] index computed in [Z]: a negative value stands
    for the wrapped-around index, which is beyond every size. *)
Definition field_at_Z (f : list float) (i : Z) : float :=
  if (0 <=? i) && (i <? Z.of_nat (length f)) then f !!! Z.to_nat i
  else List.last f 0%float.

(** The part of [get_delta_partition_dl] that concerns this level: the
    field [_bfield[v]] and the partition statistics of [v]'s class. *)
Definition partition_dl_own (g : graph_t) (v : nat) (r nr : option nat)
    (ea : entropy_args_t) (l : BlockState) : float * BlockState :=
  let dS := 0%float in
  let f := _bfield l !!! v in
  let dS :=
    if f is [] then dS
    else
      let dS := if nr is Some n0 then (dS - field_at f n0)%float else dS in
      if r is Some r0 then (dS + field_at f r0)%float else dS in
  if ea_partition_dl ea then
    let '(c, l1) := get_partition_stats g v l in
    ((dS + from_option
             (ps_get_delta_partition_dl v r nr (_vweight l1)) 0%float
             (_partition_stats l1 !! c))%float, l1)
  else (dS, l).

(** [get_delta_partition_dl(v, r, nr, ea)].  In the [else] branch of the
    coupled part at most one of [r_vacate], [nr_occupy] holds, so the two
    conditional calls there are one [if ... else if]. *)
Fixpoint get_delta_partition_dl (g : graph_t) (v : nat) (r nr : option nat)
    (ea : entropy_args_t) (l : BlockState) (cs : list BlockState)
    {struct cs} : float * (BlockState * list BlockState) :=
  if decide (r = nr) then (0%float, (l, cs))
  else
    let '(dS, l1) := partition_dl_own g v r nr ea l in
    match cs with
    | [] => (dS, (l1, []))
    | h :: rest =>
        let r_vacate :=
          if r is Some r0 then _wr l1 !!! r0 =? _vweight l1 !!! v
          else false in
        let nr_occupy :=
          if nr is Some n0 then _wr l1 !!! n0 =? 0 else false in
        let cea := _coupled_entropy_args l1 in
        let gh := bg_of g l1 in
        match r, nr with
        | Some r0, Some n0 =>
            if r_vacate && nr_occupy then
              let '(d, (h1, rest1)) :=
                get_delta_partition_dl gh r0 (Some (_b h !!! r0))
                  (Some (_b h !!! n0)) cea h rest in
              ((dS + d)%float, (l1, h1 :: rest1))
            else if r_vacate then
              let '(d, (h1, rest1)) :=
                get_delta_partition_dl gh r0 (Some (_b h !!! r0)) None cea
                  h rest in
              ((dS + d)%float, (l1, h1 :: rest1))
            else if nr_occupy then
              let '(d, (h1, rest1)) :=
                get_delta_partition_dl gh n0 None (Some (_b h !!! n0)) cea
                  h rest in
              ((dS + d)%float, (l1, h1 :: rest1))
            else (dS, (l1, cs))
        | Some r0, None =>
            if r_vacate then
              let '(d, (h1, rest1)) :=
                get_delta_partition_dl gh r0 (Some (_b h !!! r0)) None cea
                  h rest in
              ((dS + d)%float, (l1, h1 :: rest1))
            else (dS, (l1, cs))
        | None, Some n0 =>
            if nr_occupy then
              let '(d, (h1, rest1)) :=
                get_delta_partition_dl gh n0 None (Some (_b h !!! n0)) cea
                  h rest in
              ((dS + d)%float, (l1, h1 :: rest1))
            else (dS, (l1, cs))
        | None, None => (dS, (l1, cs))
        end
    end.

Definition out_neighbors_range (v : nat) (g : graph_t) : list nat :=
  target <$> out_edges_range v g.

Definition in_neighbors_range (v : nat) (g : graph_t) : list nat :=
  if directed g then source <$> in_edges_range v g
  else out_neighbors_range v g.

(** The lambda [comp] of [propagate_entries_dS] at one block [x]. *)
Definition comp_at (g : graph_t) (l : BlockState) (x : nat)
    (dummy : list float * list float) (m : MEntries) : MEntries :=
  let bg := bg_of g l in
  let m := foldl (fun m t => insert_delta true (directed g) x t 0 dummy m) m
                 (out_neighbors_range x bg) in
  foldl (fun m t => insert_delta true (directed g) t x 0 dummy m) m
        (in_neighbors_range x bg).

(** The lambda [e_diff] of [propagate_entries_dS]. *)
Definition e_diff (g : graph_t) (l : BlockState) (r s : nat) (du dv : Z)
    (dS : float) (e : entry) : float :=
  let rr := en_r e in
  let ss := en_s e in
  let ers := if resolve g l e is Some k then default 0 (_mrs l !! k) else 0 in
  let wr := _wr l !!! rr in
  let ws := _wr l !!! ss in
  let dS := (dS - eterm_dense rr ss ers wr ws true (directed g))%float in
  let wr := if decide (rr = r) then wr + du else wr in
  let wr := if decide (rr = s) then wr + dv else wr in
  let ws := if decide (ss = r) then ws + du else ws in
  let ws := if decide (ss = s) then ws + dv else ws in
  (dS + eterm_dense rr ss (ers + en_delta e) wr ws true (directed g))%float.

(** [propagate_entries_dS(u, v, du, dv, entries, ea, dBdx, dL)], run on a
    coupled state: the entropy difference, the state left behind, and the
    contents left in the by-reference arguments [entries] and [dBdx]. *)
Fixpoint propagate_entries_dS (g : graph_t) (u v : option nat) (du dv : Z)
    (entries : list p_entry) (ea : entropy_args_t) (dBdx : list float)
    (dL : Z) (l : BlockState) (cs : list BlockState) {struct cs}
    : float * (BlockState * list BlockState) * (list p_entry * list float) :=
  let r := b_at l u in
  let s := b_at l v in
  if decide (u = v) then
    if ea_recs ea && bool_decide (_rt l = REAL_NORMAL) then
      let m := set_move (Some r) (Some s) (_B l) (_m_entries l) in
      let l1 := set_m_entries (fun _ => m) l in
      let '((d0, d1), (dBdx1, dL1)) := rec_entries_dS g l1 m ea dBdx dL in
      let dS := (d0 + d1)%float in
      match cs with
      | [] => (dS, (l1, []), ([], dBdx1))
      | h :: rest =>
          let '(d, (h1, rest1), out) :=
            propagate_entries_dS (bg_of g l1) (Some r) (Some s) 0 0 []
              (_coupled_entropy_args l1) dBdx1 dL1 h rest in
          ((dS + d)%float, (l1, h1 :: rest1), out)
      end
    else (0%float, (l, cs), (entries, dBdx))
  else
    let dir := directed g in
    let plain := negb (ea_recs ea) || bool_decide (_rt l = NONE) in
    let dummy := if plain then ([], []) else (zero_recs l, zero_recs l) in
    let m := set_move (Some r) (Some s) (_B l) (_m_entries l) in
    let m :=
      if plain then
        foldl (fun m (it : p_entry) =>
                 insert_delta true dir (_b l !!! it.1.1.1.1)
                   (_b l !!! it.1.1.1.2) it.1.2 ([], []) m) m entries
      else
        foldl (fun m (it : p_entry) =>
                 recs_propagate_insert g l (_b l !!! it.1.1.1.1)
                   (_b l !!! it.1.1.1.2) it.1.1.2 it.1.2 it.2 m) m entries in
    let m := if decide (du = 0) then m else comp_at g l r dummy m in
    let m := if decide (dv = 0) then m else comp_at g l s dummy m in
    let l1 := set_m_entries (fun _ => m) l in
    let dS :=
      if ea_adjacency ea then foldl (e_diff g l1 r s du dv) 0%float (_entries m)
      else 0%float in
    let entries1 :=
      if plain then p_entries_nonzero g l1 m else p_entries_weighted g l1 m in
    let '(dS, (dBdx1, dL1)) :=
      if plain then (dS, (dBdx, dL))
      else
        let '((d0, d1), out) := rec_entries_dS g l1 m ea dBdx dL in
        ((dS + (d0 + d1))%float, out) in
    let dr := if _wr l1 !!! r + du =? 0 then -1 else 0 in
    let ds := if _wr l1 !!! s =? 0 then 1 else 0 in
    match cs with
    | [] =>
        let dS :=
          if negb (bool_decide (r = s)) && negb (dr + ds =? 0)
             && ea_edges_dl ea
          then ((dS - get_edges_dl (actual_B l1) (_E l1) g)
                + get_edges_dl (actual_B l1 + dr + ds) (_E l1) g)%float
          else dS in
        (dS, (l1, []), (entries1, dBdx1))
    | h :: rest =>
        let '(d, (h1, rest1), out) :=
          propagate_entries_dS (bg_of g l1) (Some r) (Some s) dr ds entries1
            (_coupled_entropy_args l1) dBdx1 dL1 h rest in
        ((dS + d)%float, (l1, h1 :: rest1), out)
    end.

(** [virtual_remove_size(v)]: the difference of the two [int] counters,
    converted to the [size_t] the function returns; a negative difference
    wraps around. *)
Definition virtual_remove_size (v : nat) (l : BlockState) : Z :=
  (_wr l !!! (_b l !!! v) - _vweight l !!! v) mod 2 ^ 64.

(** The adjacency part of [virtual_move]. *)
Definition virtual_move_adjacency (v : nat) (r nr : option nat)
    (ea : entropy_args_t) (g : graph_t) (l : BlockState) : result float :=
  if ea_adjacency ea then
    if ea_dense ea then virtual_move_dense v r nr (ea_multigraph ea) g l
    else Ok (virtual_move_sparse (ea_exact ea) v r nr g l)
  else Ok 0%float.

(** The degree and edge description-length part of [virtual_move]. *)
Definition virtual_move_deg_edges_dl (v : nat) (r nr : option nat)
    (ea : entropy_args_t) (g : graph_t) (dS_dl : float) (l : BlockState)
    : float * BlockState :=
  if ea_degree_dl ea || ea_edges_dl ea then
    let '(c, l1) := get_partition_stats g v l in
    let ps := _partition_stats l1 !! c in
    let dS_dl :=
      if _deg_corr l1 && ea_degree_dl ea then
        (dS_dl + from_option
                   (ps_get_delta_deg_dl v r nr (_vweight l1) (_degs l1) g
                      (ea_degree_dl_kind ea)) 0%float ps)%float
      else dS_dl in
    let dS_dl :=
      if ea_edges_dl ea then
        (dS_dl + from_option
                   (ps_get_delta_edges_dl v r nr (_vweight l1) (actual_B l1)
                      g) 0%float ps)%float
      else dS_dl in
    (dS_dl, l1)
  else (dS_dl, l).

(** The [Bfield] part of [virtual_move]. *)
Definition virtual_move_Bfield (v : nat) (nr : option nat)
    (ea : entropy_args_t) (dS_dl : float) (l : BlockState) : float :=
  if negb (bool_decide (_Bfield l = [])) && ea_Bfield ea then
    let dB := 0 in
    let dB := if virtual_remove_size v l =? 0 then dB - 1 else dB in
    let dB := if wr_at l nr =? 0 then dB + 1 else dB in
    if dB =? 0 then dS_dl
    else
      let dS_dl := (dS_dl + field_at_Z (_Bfield l) (actual_B l))%float in
      (dS_dl - field_at_Z (_Bfield l) (actual_B l + dB))%float
  else dS_dl.

(** [virtual_move(v, r, nr, ea)] on the state's own [_m_entries]: the
    outcome and the state left behind. *)
Definition virtual_move (v : nat) (r nr : option nat) (ea : entropy_args_t)
    (g : graph_t) (l : BlockState) (cs : list BlockState)
    : result float * (BlockState * list BlockState) :=
  if bool_decide (r = nr) || (_vweight l !!! v =? 0) then
    (Ok 0%float, (l, cs))
  else if match r, nr with
          | Some r0, Some n0 => negb (allow_move r0 n0 l cs)
          | _, _ => false
          end
  then (Ok infinity, (l, cs))
  else
    let l := get_move_entries v r nr no_efilt g l in
    match virtual_move_adjacency v r nr ea g l with
    | Raise e => (Raise e, (l, cs))
    | Ok dS =>
        let dS_dl := 0%float in
        let '(d, (l, cs)) := get_delta_partition_dl g v r nr ea l cs in
        let dS_dl := (dS_dl + d)%float in
        let '(dS_dl, l) := virtual_move_deg_edges_dl v r nr ea g dS_dl l in
        let dS_dl := virtual_move_Bfield v nr ea dS_dl l in
        let '((dS, dS_dl), (LdBdx, dL)) :=
          if ea_recs ea && negb (bool_decide (_rt l = NONE)) then
            let '((d0, d1), out) :=
              rec_entries_dS g l (_m_entries l) ea (zero_recs l) 0 in
            (((dS + d0)%float, (dS_dl + d1)%float), out)
          else ((dS, dS_dl), ([], 0)) in
        match cs with
        | h :: rest =>
            if 0 <? _vweight l !!! v then
              let pe :=
                if decide (_rt l = NONE)
                then p_entries_nonzero g l (_m_entries l)
                else p_entries_weighted g l (_m_entries l) in
              let l := set_m_entries (set_p_entries pe) l in
              let vw := _vweight l !!! v in
              let dr := if (wr_at l r =? vw) && (0 <? vw) then -1 else 0 in
              let dnr := if (wr_at l nr =? 0) && (0 <? vw) then 1 else 0 in
              if negb (bool_decide (pe = [])) || negb (dr =? 0)
                 || negb (dnr =? 0)
              then
                let '(d, (h1, rest1), (pe1, _)) :=
                  propagate_entries_dS (bg_of g l) r nr dr dnr pe
                    (_coupled_entropy_args l) LdBdx dL h rest in
                let l := set_m_entries (set_p_entries pe1) l in
                (Ok (dS + ea_beta_dl ea * (dS_dl + d))%float,
                 (l, h1 :: rest1))
              else (Ok (dS + ea_beta_dl ea * dS_dl)%float, (l, cs))
            else (Ok (dS + ea_beta_dl ea * dS_dl)%float, (l, cs))
        | [] => (Ok (dS + ea_beta_dl ea * dS_dl)%float, (l, cs))
        end
    end.

End Operations.

(* ===================================================================== *)
(** * Part IV. Collaborators modelled from the specification              *)
(* ===================================================================== *)

(** The definitions of this part stand for code of the repository that is
    not among the sources.  They follow the words of the specification and
    the checks of [check_edge_counts] and [check_node_counts].  The theorems
    about [graph_blockmodel.hh] proper hold for every implementation of
    these collaborators; the models serve the concrete states and the
    properties that are decided by the missing code (what [remove_vertex]
    and [add_vertex] do to the edge counters). *)

Section SpecModel.

(** ** Partition statistics *)

(** Modelled from the spec: the class [partition_stats] is missing.  This
    model keeps, for one constraint class, the total vertex weight of every
    block ("rolling counter"); [get_actual_B] is the number of non-empty
    blocks.  A vertex of weight zero changes nothing.  The description-length
    queries, whose formulas the specification does not give, are constant. *)
Record ps_model := {
  ps_total : gmap nat Z
}.

Definition ps_bump (r : nat) (d : Z) (ps : ps_model) : ps_model :=
  {| ps_total :=
       partial_alter
         (fun o => let t := default 0 o + d in
                   if decide (t = 0) then None else Some t) r (ps_total ps) |}.

Definition ps_model_add_vertex (v r : nat) (deg_corr : bool) (g : graph_t)
    (vweight : list Z) (degs : list (Z * Z)) (ps : ps_model) : ps_model :=
  if vweight !!! v =? 0 then ps else ps_bump r (vweight !!! v) ps.

Definition ps_model_remove_vertex (v r : nat) (deg_corr : bool) (g : graph_t)
    (vweight : list Z) (degs : list (Z * Z)) (ps : ps_model) : ps_model :=
  if vweight !!! v =? 0 then ps else ps_bump r (- (vweight !!! v)) ps.

Definition ps_model_make (g : graph_t) (b vs : list nat) (E : Z) (B : nat)
    (vweight : list Z) (degs : list (Z * Z)) : ps_model :=
  foldl (fun ps v => ps_model_add_vertex v (b !!! v) false g vweight degs ps)
        {| ps_total := ∅ |} vs.

Definition ps_model_stats : PartitionStats := {|
  PS := ps_model;
  ps_make := ps_model_make;
  ps_get_r := fun _ ps => ps;
  ps_add_vertex := ps_model_add_vertex;
  ps_remove_vertex := ps_model_remove_vertex;
  ps_add_block := fun ps => ps;
  ps_get_actual_B := fun ps => Z.of_nat (size (ps_total ps));
  ps_get_delta_partition_dl := fun _ _ _ _ _ => 0%float;
  ps_get_delta_deg_dl := fun _ _ _ _ _ _ _ _ => 0%float;
  ps_get_delta_edges_dl := fun _ _ _ _ _ _ _ => 0%float
|}.

(** ** Move entries *)

Context `{PartitionStats}.

(** The covariates [move_entries] passes along for the covariate kind
    [_rt]: none, [_rec] and [_drec], or [_rec] alone. *)
Definition edge_covariates (rt : weight_type) (e : edge_t)
    : list float * list float :=
  match rt with
  | NONE => ([], [])
  | REAL_NORMAL => (e_rec e, e_drec e)
  | OTHER_TYPE _ => (e_rec e, [])
  end.

(** Modelled from the spec: [move_entries] is missing.  By invariant I2 the
    count [m_rs] is the weight of the edges whose endpoints land in [(r, s)],
    so moving [v] from [r] to [nr] takes the weight of every edge at [v] off
    the pair it lands on with [v] in [r] and puts it on the pair it lands on
    with [v] in [nr]; a null [r] or [nr] leaves its half out. *)
Definition move_entries_m (v : nat) (r nr : option nat) (b : list nat)
    (g : graph_t) (B : nat) (m : MEntries) (efilt : edge_t -> bool)
    (rt : weight_type) : MEntries :=
  let blk := fun (x : nat) (at_v : nat) =>
    if decide (x = v) then at_v else b !!! x in
  foldl (fun m e =>
           if efilt e then m
           else
             let m :=
               if r is Some r0 then
                 insert_delta false (directed g)
                   (blk (source e) r0) (blk (target e) r0) (eweight e)
                   (edge_covariates rt e) m
               else m in
             if nr is Some n0 then
               insert_delta true (directed g)
                 (blk (source e) n0) (blk (target e) n0) (eweight e)
                 (edge_covariates rt e) m
             else m)
        (set_move r nr B m)
        (filter (fun e => source e = v \/ target e = v) (edges g)).

(** ** Applying the entries *)

Definition upd_vec (k : nat * nat) (d : list float)
    (m : gmap (nat * nat) (list float)) : gmap (nat * nat) (list float) :=
  <[ k := vec_add (default [] (m !! k)) d ]> m.

(** Modelled from the spec: the effect of one entry on the counters of one
    level: [m_rs], the block sums [mrp], [mrm] and the covariate sums move
    by the entry's deltas; with [Add] a missing block-graph edge is created
    first, with [Remove] an edge whose count reached zero is removed.  The
    result tells whether the edge was created and whether it was removed.
    Without [Add] a missing edge is the null edge, which the C++ would
    dereference; the entry is left out then. *)
Definition apply_entry (Add Remove : bool) (g : graph_t) (e : entry)
    (l : BlockState) : BlockState * (bool * bool) :=
  let k := (en_r e, en_s e) in
  let skip := (en_delta e =? 0) && bool_decide (_rec_types l = []) in
  if skip then (l, (false, false))
  else
    let created := Add && bool_decide (_mrs l !! k = None) in
    if negb Add && bool_decide (_mrs l !! k = None) then (l, (false, false))
    else
      let l :=
        if created then
          set_bdrec (fun m => <[ k := zero_recs l ]> m)
            (set_brec (fun m => <[ k := zero_recs l ]> m)
               (set_mrs (fun m => <[ k := 0 ]> m) l))
        else l in
      let l := set_mrs (fun m => <[ k := default 0 (m !! k) + en_delta e ]> m)
                 l in
      let l := set_mrp (fun m => <[ k.1 := m !!! k.1 + en_delta e ]> m) l in
      let l :=
        if directed g
        then set_mrm (fun m => <[ k.2 := m !!! k.2 + en_delta e ]> m) l
        else set_mrp (fun m => <[ k.2 := m !!! k.2 + en_delta e ]> m) l in
      let l := set_brec (upd_vec k (en_edelta e).1) l in
      let l := set_bdrec (upd_vec k (en_edelta e).2) l in
      let removed := Remove && bool_decide (_mrs l !! k = Some 0) in
      let l := if removed then set_mrs (delete k) l else l in
      (l, (created, removed)).

End SpecModel.

Section SpecModelApply.

Context `{PartitionStats} `{!Externals}.

(** Modelled from the spec: the loop of [apply_delta] over the entries.
    Creating or removing a block-graph edge is mirrored into the coupled
    state through [add_edge] and [remove_edge] (section 4.7). *)
Definition apply_entries (Add Remove : bool) (g : graph_t) (es : list entry)
    (l : BlockState) (cs : list BlockState) : BlockState * list BlockState :=
  foldl (fun (st : BlockState * list BlockState) e =>
           let '(l1, (created, removed)) := apply_entry Add Remove g e st.1 in
           let k := (en_r e, en_s e) in
           (l1,
            match st.2 with
            | [] => []
            | h :: rest =>
                let '(h1, rest1) :=
                  if created then add_edge (bg_of g l1) k h rest
                  else (h, rest) in
                let '(h2, rest2) :=
                  if removed then remove_edge_bg (bg_of g l1) k h1 rest1
                  else (h1, rest1) in
                h2 :: rest2
            end))
        (l, cs) es.

(** Modelled from the spec: [apply_delta<Add, Remove>] is missing.  It
    applies the entries of [_m_entries] to the counters and, when a coupled
    state is installed, hands the non-zero deltas to its [propagate_delta],
    which applies them one level up.  The recursion climbs one level per
    round, so [fuel] beyond the length of the chain is never used. *)
Fixpoint apply_delta_fuel (fuel : nat) (Add Remove : bool) (g : graph_t)
    (l : BlockState) (cs : list BlockState) : BlockState * list BlockState :=
  match fuel with
  | O => (l, cs)
  | S fuel' =>
      let '(l1, cs1) :=
        apply_entries Add Remove g (_entries (_m_entries l)) l cs in
      match cs1 with
      | [] => (l1, [])
      | h :: rest =>
          let pe :=
            if decide (_rt l1 = NONE)
            then p_entries_nonzero g l1 (_m_entries l1)
            else p_entries_weighted g l1 (_m_entries l1) in
          let l2 := set_m_entries (set_p_entries pe) l1 in
          if pe is [] then (l2, h :: rest)
          else
            let '(h1, rest1) :=
              propagate_delta_with (apply_delta_fuel fuel' true true)
                (bg_of g l2) (_rnr (_m_entries l2)).1 (_rnr (_m_entries l2)).2
                pe h rest in
            (l2, h1 :: rest1)
      end
  end.

Definition apply_delta_m (Add Remove : bool) (g : graph_t) (l : BlockState)
    (cs : list BlockState) : BlockState * list BlockState :=
  apply_delta_fuel (S (length cs)) Add Remove g l cs.

Definition apply_delta_model : ApplyDelta :=
  {| apply_delta := apply_delta_m |}.

End SpecModelApply.

(** Modelled from the spec: the collaborators of [Externals] with
    [move_entries_m]; the covariates of a propagated entry are inserted like
    its count, and the entropy terms, whose formulas the specification does
    not give, are constant. *)
Definition externals_model `{PartitionStats} : Externals := {|
  move_entries := move_entries_m;
  recs_propagate_insert := fun g l r s me d ed m =>
    insert_delta true (directed g) r s d (ed, []) m;
  rec_entries_dS := fun g l m ea dBdx dL => ((0%float, 0%float), (dBdx, dL));
  entries_dS := fun _ _ _ _ => 0%float;
  vterm := fun _ _ _ _ _ => 0%float;
  vterm_exact := fun _ _ _ _ _ => 0%float;
  eterm_dense := fun _ _ _ _ _ _ _ => 0%float;
  get_edges_dl := fun _ _ _ => 0%float
|}.

(** ** Concrete states *)

Section Examples.

#[local] Existing Instance ps_model_stats.
#[local] Existing Instance externals_model.
#[local] Existing Instance apply_delta_model.

Definition mk_edge (u v : nat) (w : Z) : edge_t :=
  {| source := u; target := v; eweight := w; e_rec := []; e_drec := [] |}.

(** Entropy arguments with every term switched off. *)
Definition ea_off : entropy_args_t :=
  {| ea_adjacency := false; ea_dense := false; ea_multigraph := false;
     ea_exact := false; ea_deg_entropy := false; ea_partition_dl := false;
     ea_degree_dl := false; ea_degree_dl_kind := 0; ea_edges_dl := false;
     ea_recs := false; ea_Bfield := false; ea_beta_dl := 1%float |}.

Definition ea_dense_adjacency : entropy_args_t :=
  {| ea_adjacency := true; ea_dense := true; ea_multigraph := false;
     ea_exact := false; ea_deg_entropy := false; ea_partition_dl := false;
     ea_degree_dl := false; ea_degree_dl_kind := 0; ea_edges_dl := false;
     ea_recs := false; ea_Bfield := false; ea_beta_dl := 1%float |}.

Definition ea_partition : entropy_args_t :=
  {| ea_adjacency := false; ea_dense := false; ea_multigraph := false;
     ea_exact := false; ea_deg_entropy := false; ea_partition_dl := true;
     ea_degree_dl := false; ea_degree_dl_kind := 0; ea_edges_dl := false;
     ea_recs := false; ea_Bfield := false; ea_beta_dl := 1%float |}.

(** A state with no vertex, no block and no counter. *)
Definition blank_state : BlockState :=
  {| _deg_corr := false; _rec_types := []; _rt := NONE; _bclabel := [];
     _pclabel := []; _bfield := []; _Bfield := []; _degs := []; _E := 0;
     _coupled_entropy_args := ea_off; _b := []; _vweight := []; _wr := [];
     _N := 0; _candidate_groups := ∅; _empty_groups := ∅;
     _partition_stats := []; _B := 0; _mrs := ∅; _mrp := []; _mrm := [];
     _brec := ∅; _bdrec := ∅; _brecsum := [];
     _m_entries := {| _rnr := (None, None); _entries := [];
                      _p_entries := [] |} |}.

(** The triangle of scenario E1: undirected, unit weights. *)
Definition triangle : graph_t :=
  {| directed := false; num_vertices := 3;
     edges := [mk_edge 0 1 1; mk_edge 1 2 1; mk_edge 2 0 1] |}.

(** The state of scenario E1 on the triangle: [b = [0, 0, 1]], with the
    counters [check_edge_counts] and [check_node_counts] accept. *)
Definition triangle_state : BlockState :=
  init_partition_stats triangle
    {| _deg_corr := false; _rec_types := []; _rt := NONE; _bclabel := [0; 0];
       _pclabel := [0; 0; 0]%nat; _bfield := [[]; []; []]; _Bfield := [];
       _degs := [(0, 2); (0, 2); (0, 2)]; _E := 3;
       _coupled_entropy_args := ea_off; _b := [0; 0; 1]%nat;
       _vweight := [1; 1; 1]; _wr := [2; 1]; _N := 3;
       _candidate_groups := {[ 0%nat; 1%nat ]}; _empty_groups := ∅;
       _partition_stats := []; _B := 2;
       _mrs := {[ (0, 0)%nat := 1; (0, 1)%nat := 2 ]};
       _mrp := [4; 2]; _mrm := [4; 2];
       _brec := ∅; _bdrec := ∅; _brecsum := [0%float; 0%float];
       _m_entries := {| _rnr := (None, None); _entries := [];
                        _p_entries := [] |} |}.

(** Scenario E3: the two blocks carry different constraint labels. *)
Definition barrier_state : BlockState :=
  set_bclabel (fun _ => [0; 1]) triangle_state.

(** The triangle state of a degree-corrected model. *)
Definition deg_corr_state : BlockState :=
  {| _deg_corr := true; _rec_types := _rec_types triangle_state;
     _rt := _rt triangle_state; _bclabel := _bclabel triangle_state;
     _pclabel := _pclabel triangle_state; _bfield := _bfield triangle_state;
     _Bfield := _Bfield triangle_state; _degs := _degs triangle_state;
     _E := _E triangle_state;
     _coupled_entropy_args := _coupled_entropy_args triangle_state;
     _b := _b triangle_state; _vweight := _vweight triangle_state;
     _wr := _wr triangle_state; _N := _N triangle_state;
     _candidate_groups := _candidate_groups triangle_state;
     _empty_groups := _empty_groups triangle_state;
     _partition_stats := _partition_stats triangle_state;
     _B := _B triangle_state; _mrs := _mrs triangle_state;
     _mrp := _mrp triangle_state; _mrm := _mrm triangle_state;
     _brec := _brec triangle_state; _bdrec := _bdrec triangle_state;
     _brecsum := _brecsum triangle_state;
     _m_entries := _m_entries triangle_state |}.

(** The barrier state with a weightless vertex 0. *)
Definition weightless_barrier_state : BlockState :=
  init_partition_stats triangle
    (set_N (fun _ => 2)
       (set_vweight (fun _ => [0; 1; 1])
          (set_wr (fun _ => [1; 1]) barrier_state))).

(** A coupled state on the two blocks of the triangle state: both blocks
    are vertices of weight 1 in the one block of the level above. *)
Definition upper_state : BlockState :=
  init_partition_stats (bg_of triangle triangle_state)
    {| _deg_corr := false; _rec_types := []; _rt := NONE; _bclabel := [0];
       _pclabel := [0; 0]%nat; _bfield := [[]; []]; _Bfield := [];
       _degs := [(0, 4); (0, 2)]; _E := 3;
       _coupled_entropy_args := ea_off; _b := [0; 0]%nat;
       _vweight := [1; 1]; _wr := [2]; _N := 2;
       _candidate_groups := {[ 0%nat ]}; _empty_groups := ∅;
       _partition_stats := []; _B := 1;
       _mrs := {[ (0, 0)%nat := 3 ]};
       _mrp := [6]; _mrm := [6];
       _brec := ∅; _bdrec := ∅; _brecsum := [0%float];
       _m_entries := {| _rnr := (None, None); _entries := [];
                        _p_entries := [] |} |}.

(** The triangle state with a weightless vertex 0, which keeps its two
    edges. *)
Definition weightless_state : BlockState :=
  init_partition_stats triangle
    (set_N (fun _ => 2)
       (set_vweight (fun _ => [0; 1; 1])
          (set_wr (fun _ => [1; 1]) triangle_state))).

(** One edge and an isolated vertex 2. *)
Definition edge_and_point : graph_t :=
  {| directed := false; num_vertices := 3; edges := [mk_edge 0 1 1] |}.

(** A state on [edge_and_point] with [b = [0, 1, 1]], where the isolated
    vertex is weightless. *)
Definition edge_and_point_state : BlockState :=
  init_partition_stats edge_and_point
    {| _deg_corr := false; _rec_types := []; _rt := NONE; _bclabel := [0; 0];
       _pclabel := [0; 0; 0]%nat; _bfield := [[]; []; []]; _Bfield := [];
       _degs := [(0, 1); (0, 1); (0, 0)]; _E := 1;
       _coupled_entropy_args := ea_off; _b := [0; 1; 1]%nat;
       _vweight := [1; 1; 0]; _wr := [1; 1]; _N := 2;
       _candidate_groups := {[ 0%nat; 1%nat ]}; _empty_groups := ∅;
       _partition_stats := []; _B := 2;
       _mrs := {[ (0, 1)%nat := 1 ]};
       _mrp := [1; 1]; _mrm := [1; 1];
       _brec := ∅; _bdrec := ∅; _brecsum := [0%float; 0%float];
       _m_entries := {| _rnr := (None, None); _entries := [];
                        _p_entries := [] |} |}.



(** A state on [edge_and_point] with [b = [0, 0, 1]]: the isolated vertex 2
    has weight 1 and is alone in block 1. *)
Definition point_alone_state : BlockState :=
  init_partition_stats edge_and_point
    {| _deg_corr := false; _rec_types := []; _rt := NONE; _bclabel := [0; 0];
       _pclabel := [0; 0; 0]%nat; _bfield := [[]; []; []]; _Bfield := [];
       _degs := [(0, 1); (0, 1); (0, 0)]; _E := 1;
       _coupled_entropy_args := ea_off; _b := [0; 0; 1]%nat;
       _vweight := [1; 1; 1]; _wr := [2; 1]; _N := 3;
       _candidate_groups := {[ 0%nat; 1%nat ]}; _empty_groups := ∅;
       _partition_stats := []; _B := 2;
       _mrs := {[ (0, 0)%nat := 1 ]};
       _mrp := [2; 0]; _mrm := [2; 0];
       _brec := ∅; _bdrec := ∅; _brecsum := [0%float; 0%float];
       _m_entries := {| _rnr := (None, None); _entries := [];
                        _p_entries := [] |} |}.

(** The triangle with one more edge: a loop of weight zero at vertex 2. *)
Definition triangle_loop : graph_t :=
  {| directed := false; num_vertices := 3;
     edges := [mk_edge 0 1 1; mk_edge 1 2 1; mk_edge 2 0 1; mk_edge 2 2 0] |}.

(** The triangle state after [reset_partition_stats]. *)
Definition stale_stats_state : BlockState :=
  reset_partition_stats triangle_state.

End Examples.

(** ** Views of a state *)

Section Views.

Context `{PartitionStats}.

Definition blank_entries : MEntries :=
  {| _rnr := (None, None); _entries := []; _p_entries := [] |}.

(** The state without the contents of its scratch buffer [_m_entries]:
    every authoritative counter, set and property. *)
Definition counters (l : BlockState) : BlockState :=
  set_m_entries (fun _ => blank_entries) l.

(** The same without the partition statistics. *)
Definition counters_but_stats (l : BlockState) : BlockState :=
  set_partition_stats (fun _ => []) (counters l).

(** The partition statistics cover the constraint class of every vertex, so
    that [get_partition_stats] finds them initialised. *)
Definition stats_ready (l : BlockState) : Prop :=
  forall v : nat, (_pclabel l !!! v < length (_partition_stats l))%nat.

(** ** Invariants *)

(** Invariant I4 of a level: the two group sets cover the blocks of [_bg],
    they are disjoint, and a block is in [_empty_groups] iff its size is
    zero. *)
Definition I4 (l : BlockState) : Prop :=
  _empty_groups l ∪ _candidate_groups l = set_seq 0 (_B l)
  /\ _empty_groups l ∩ _candidate_groups l = ∅
  /\ Forall (fun r => r ∈ _empty_groups l <-> _wr l !!! r = 0)
            (seq 0 (_B l)).

(** A level is well formed: I4 holds, [_wr] has one entry per block, and no
    block size or vertex weight is negative. *)
Definition level_ok (l : BlockState) : Prop :=
  I4 l /\ length (_wr l) = _B l
  /\ Forall (fun w => 0 <= w) (_wr l)
  /\ Forall (fun w => 0 <= w) (_vweight l).

(** The total weight of the vertices labelled [s]: what [check_node_counts]
    compares [_wr[s]] with. *)
Fixpoint block_weight (b : list nat) (vw : list Z) (s : nat) : Z :=
  match b, vw with
  | bi :: b', wi :: vw' =>
      (if decide (bi = s) then wi else 0) + block_weight b' vw' s
  | _, _ => 0
  end.

(** A coupled state [h] sits consistently on the level [l] below it: its
    vertices are the blocks of [l], labelled with blocks of [h]; an empty
    block of [l] is a weightless vertex of [h]; and the sizes of [h] are the
    weights of its vertices (invariant I5). *)
Definition coupled_ok (l h : BlockState) : Prop :=
  length (_b h) = _B l /\ length (_vweight h) = _B l
  /\ (0 < _B h)%nat
  /\ Forall (fun s => (s < _B h)%nat) (_b h)
  /\ Forall (fun r => _wr l !!! r = 0 -> _vweight h !!! r = 0)
            (seq 0 (_B l))
  /\ Forall (fun s => _wr h !!! s = block_weight (_b h) (_vweight h) s)
            (seq 0 (_B h)).

(** The invariant of a state with its chain of coupled states. *)
Fixpoint hier_ok (l : BlockState) (cs : list BlockState) : Prop :=
  level_ok l
  /\ match cs with
     | [] => True
     | h :: rest => coupled_ok l h /\ hier_ok h rest
     end.


(** The invariant inside the loop of [add_block], with [k] rounds to go:
    [_wr] already has its final length. *)
Definition growing_ok (k : nat) (l : BlockState) (cs : list BlockState)
    : Prop :=
  I4 l /\ length (_wr l) = (_B l + k)%nat
  /\ Forall (fun w => 0 <= w) (_wr l)
  /\ Forall (fun w => 0 <= w) (_vweight l)
  /\ match cs with
     | [] => True
     | h :: rest => coupled_ok l h /\ hier_ok h rest
     end.

(** What the invariants read of a level. *)
Definition node_view (l : BlockState)
    : list nat * list Z * list Z * nat * gset nat * gset nat :=
  (_b l, _vweight l, _wr l, _B l, _candidate_groups l, _empty_groups l).

End Views.

(** ** The edge counters under a list of entries *)

Section EdgeViews.

Context `{PartitionStats}.









(** The entries of [_m_entries] applied to one level, without the coupled
    chain. *)
Definition apply_entries_level (Add Remove : bool) (g : graph_t)
    (es : list entry) (l : BlockState) : BlockState :=
  foldl (fun l e => (apply_entry Add Remove g e l).1) l es.


End EdgeViews.

(** ** What the invariants need of [apply_delta] *)

Section Frame.

Context `{PartitionStats} `{!Externals} `{!ApplyDelta}.

(** What the invariants on the node counters need of the missing
    [apply_delta]: it leaves [b], the vertex weights, the block sizes, the
    number of blocks and the group sets of every level alone (it updates the
    edge counts and covariate sums). *)
Definition apply_delta_frame : Prop :=
  forall (Add Remove : bool) (g : graph_t) (l : BlockState)
         (cs : list BlockState),
    node_view <$> ((apply_delta Add Remove g l cs).1
                   :: (apply_delta Add Remove g l cs).2)
    = node_view <$> (l :: cs).

End Frame.

(* ===================================================================== *)
(** * Part V. Further operations of [graph_blockmodel.hh]                 *)
(* ===================================================================== *)

Section Construction.

Context `{PartitionStats}.

(** The loop of the constructor that sets [_rt]: every covariate kind
    overwrites it, and the loop stops at the first [REAL_NORMAL]. *)
Fixpoint select_rt_from (rt : weight_type) (rec_types : list weight_type)
    : weight_type :=
  match rec_types with
  | [] => rt
  | t :: ts =>
      if decide (t = REAL_NORMAL) then t else select_rt_from t ts
  end.

Definition select_rt (rec_types : list weight_type) : weight_type :=
  select_rt_from NONE rec_types.

(** The loop of the constructor that sets [_N]: the total weight of the
    vertices of [_g]. *)
Definition count_N (g : graph_t) (vweight : list Z) : Z :=
  foldl (fun n v => n + vweight !!! v) 0 (seq 0 (num_vertices g)).

(** [is_last(v)]. *)
Definition is_last (v : nat) (l : BlockState) : bool :=
  (0 <? _vweight l !!! v) && (_wr l !!! (_b l !!! v) =? _vweight l !!! v).

(** [check_node_counts()]: whether every assertion of its body holds.  The
    block sizes are recounted from [_b] and [_vweight] over the vertices of
    [_g] and compared with [_wr] block by block. *)
Definition recount_wr (g : graph_t) (l : BlockState) : list Z :=
  foldl (fun wr v =>
           <[ _b l !!! v := wr !!! (_b l !!! v) + _vweight l !!! v ]> wr)
        (replicate (_B l) 0) (seq 0 (num_vertices g)).

Definition check_node_counts (g : graph_t) (l : BlockState) : bool :=
  forallb (fun r => _wr l !!! r =? recount_wr g l !!! r) (seq 0 (_B l)).

(** No block-graph edge is kept with a zero count (invariant I3). *)
Definition no_zero_counts (l : BlockState) : Prop :=
  forall k : nat * nat, _mrs l !! k <> Some 0.

End Construction.

Section Batches.

Context `{PartitionStats} `{!Externals} `{!ApplyDelta}.

(** The element [*(_empty_groups.end() - 1)] of a non-empty [idx_set]; the
    class [idx_set], which fixes the order, is not among the sources. *)
Variable idx_back : gset nat -> nat.

(** [get_empty_block(v, force_add)]: the block, and the state left behind.
    [add_block()] adds one block and returns it (it returns [null_group]
    only for [n = 0]). *)
Definition get_empty_block (v : nat) (force_add : bool) (g : graph_t)
    (l : BlockState) (cs : list BlockState)
    : nat * (BlockState * list BlockState) :=
  if bool_decide (_empty_groups l = ∅) || force_add then
    let '(ret, (l1, cs1)) := add_block 1 g l cs in
    match ret with
    | None => (0%nat, (l1, cs1))
    | Some s =>
        let r := _b l1 !!! v in
        let l2 := set_bclabel (fun bc => <[ s := bc !!! r ]> bc) l1 in
        let cs2 :=
          match cs1 with
          | [] => []
          | h :: rest =>
              let h1 := set_b (fun hb => <[ s := hb !!! r ]> hb) h in
              set_pclabel (fun pc => <[ s := _pclabel l2 !!! v ]> pc) h1
              :: rest
          end in
        (s, (l2, cs2))
    end
  else (idx_back (_empty_groups l), (l, cs)).

(** [move_vertices(v, nr)]: the pairs are moved in order up to the end of
    the shorter list; an exception of [move_vertex] ends the loop. *)
Fixpoint move_vertices (vs nrs : list nat) (g : graph_t) (l : BlockState)
    (cs : list BlockState) {struct vs}
    : result unit * (BlockState * list BlockState) :=
  match vs, nrs with
  | v :: vs', nr :: nrs' =>
      match move_vertex v nr g l cs with
      | (Ok _, (l1, cs1)) => move_vertices vs' nrs' g l1 cs1
      | (Raise e, st) => (Raise e, st)
      end
  | _, _ => (Ok tt, (l, cs))
  end.

Definition size_msg : string :=
  "vertex and group lists do not have the same size".

(** [move_vertices(ovs, ors)], the overload on two arrays. *)
Definition move_vertices_arrays (vs nrs : list nat) (g : graph_t)
    (l : BlockState) (cs : list BlockState)
    : result unit * (BlockState * list BlockState) :=
  if decide (length vs = length nrs) then move_vertices vs nrs g l cs
  else (Raise (ValueException size_msg), (l, cs)).

(** One round of the loop of [set_partition(b)], for the vertex [v]: blocks
    are added until the target exists, an empty target inherits the labels
    of the block [v] is in, and [v] is moved. *)
Definition set_partition_step (b : list nat) (g : graph_t) (v : nat)
    (l : BlockState) (cs : list BlockState)
    : result unit * (BlockState * list BlockState) :=
  let r := b !!! v in
  let '(l1, cs1) :=
    Nat.iter (S r - _B l)
      (fun st => (add_block 1 g st.1 st.2).2) (l, cs) in
  let '(l2, cs2) :=
    if _wr l1 !!! r =? 0 then
      (set_bclabel (fun bc => <[ r := bc !!! (_b l1 !!! v) ]> bc) l1,
       match cs1 with
       | [] => []
       | h :: rest =>
           set_b (fun hb => <[ r := hb !!! (_b l1 !!! v) ]> hb) h :: rest
       end)
    else (l1, cs1) in
  move_vertex v r g l2 cs2.

(** The loop of [set_partition(b)] over a list of vertices. *)
Fixpoint set_partition_loop (b : list nat) (g : graph_t) (vs : list nat)
    (l : BlockState) (cs : list BlockState) {struct vs}
    : result unit * (BlockState * list BlockState) :=
  match vs with
  | [] => (Ok tt, (l, cs))
  | v :: vs' =>
      match set_partition_step b g v l cs with
      | (Ok _, (l1, cs1)) => set_partition_loop b g vs' l1 cs1
      | (Raise e, st) => (Raise e, st)
      end
  end.

(** [set_partition(b)]. *)
Definition set_partition (b : list nat) (g : graph_t) (l : BlockState)
    (cs : list BlockState) : result unit * (BlockState * list BlockState) :=
  set_partition_loop b g (seq 0 (num_vertices g)) l cs.

(** A state [check_node_counts] accepts, on a well-formed hierarchy, with
    one label and one weight per vertex of [_g] and every label a block. *)
Definition well_formed (g : graph_t) (l : BlockState)
    (cs : list BlockState) : Prop :=
  hier_ok l cs
  /\ length (_b l) = num_vertices g
  /\ length (_vweight l) = num_vertices g
  /\ Forall (fun r => (r < _B l)%nat) (_b l)
  /\ check_node_counts g l = true.

End Batches.

Section EdgeCounts.

Context `{PartitionStats} `{!Externals} `{!ApplyDelta}.

(** The block pair an edge of [_g] falls on; on an undirected graph the
    smaller block comes first. *)
Definition block_pair (g : graph_t) (l : BlockState) (e : edge_t)
    : nat * nat :=
  canon (directed g) (_b l !!! source e, _b l !!! target e).

(** The first loop of [check_edge_counts]: the edge weights of [_g], summed
    by block pair. *)
Definition recount_mrs (g : graph_t) (l : BlockState) : gmap (nat * nat) Z :=
  foldl (fun mrs e =>
           partial_alter (fun o => Some (default 0 o + eweight e))
                         (block_pair g l e) mrs)
        ∅ (edges g).

(** [check_edge_counts(emat)]: every recounted pair has its count in
    [_mrs] (zero without a block-graph edge), every block-graph edge has
    its count in the recount, and the coupled state passes the same check
    on the block graph.  The block graph and its edge index are one map
    here, so that both values of [emat] look the pair up in it. *)
Fixpoint check_edge_counts (g : graph_t) (l : BlockState)
    (cs : list BlockState) {struct cs} : bool :=
  let mrs := recount_mrs g l in
  forallb (fun rs_m : nat * nat * Z =>
             default 0 (_mrs l !! rs_m.1) =? rs_m.2)
          (map_to_list mrs)
  && forallb (fun me : nat * nat * Z =>
                default 0 (mrs !! canon (directed g) me.1) =? me.2)
             (map_to_list (_mrs l))
  && match cs with
     | [] => true
     | h :: rest => check_edge_counts (bg_of g l) h rest
     end.

(** The total weight of the edges of [g] between the blocks of a pair. *)
Definition pair_weight (g : graph_t) (l : BlockState) (k : nat * nat) : Z :=
  foldr (fun e acc =>
           (if decide (block_pair g l e = k) then eweight e else 0) + acc)
        0 (edges g).

(** The block-graph edges of an undirected state are keyed by the pair
    with the smaller block first. *)
Definition keys_canonical (dir : bool) (l : BlockState) : Prop :=
  forall k : nat * nat, is_Some (_mrs l !! k) -> canon dir k = k.

(** Invariant I2 at every level: the count of a block pair is the total
    weight of the edges between its blocks, and zero without a block-graph
    edge. *)
Fixpoint edge_counts_ok (g : graph_t) (l : BlockState)
    (cs : list BlockState) {struct cs} : Prop :=
  (forall k : nat * nat, default 0 (_mrs l !! k) = pair_weight g l k)
  /\ match cs with
     | [] => True
     | h :: rest => edge_counts_ok (bg_of g l) h rest
     end.

End EdgeCounts.


(** ** Views for the round trip of a vertex *)

Section RoundTripViews.

Context `{PartitionStats}.

(** The state without its edge counters [_mrs], [_mrp], [_mrm], without
    the covariate sums [_brec], [_bdrec] and without the contents of the
    scratch buffer: every other field, as it is. *)
Definition without_edges (l : BlockState) : BlockState :=
  set_mrs (fun _ => ∅)
    (set_mrp (fun _ => [])
       (set_mrm (fun _ => [])
          (set_brec (fun _ => ∅) (set_bdrec (fun _ => ∅) (counters l))))).

(** The count [m_rs] of a block pair: that of its block-graph edge, and 0
    without one. *)
Definition count_of (l : BlockState) (k : nat * nat) : Z :=
  default 0 (_mrs l !! k).

(** Two levels with the same edge counters: the count of every block pair
    and the block sums [_mrp], [_mrm]; and with the same fields that the
    propagation of entries reads. *)
Definition same_counts (a b : BlockState) : Prop :=
  (forall k : nat * nat, count_of a k = count_of b k)
  /\ _mrp a = _mrp b /\ _mrm a = _mrm b
  /\ _rec_types a = _rec_types b /\ _rt a = _rt b /\ _b a = _b b.

(** The entries [propagate_delta] accumulates on the coupled state [h] from
    the entries [es] of the level below, whose covariate kind is [rt]: the
    elements of [_p_entries] are the entries with a count change, or every
    entry with its first covariate delta. *)
Definition up_entries (dir : bool) (rt : weight_type) (es : list entry)
    (h : BlockState) : list entry :=
  let pe :=
    if decide (rt = NONE)
    then (fun e => (en_r e, en_s e, en_delta e, @nil float))
           <$> filter (fun e => en_delta e <> 0) es
    else (fun e => (en_r e, en_s e, en_delta e, (en_edelta e).1)) <$> es in
  foldl (fun (acc : list entry) (p : nat * nat * Z * list float) =>
           insert_entry (canon dir (_b h !!! p.1.1.1, _b h !!! p.1.1.2))
             p.1.2
             (if decide (_rt h = NONE) then ([], []) else (p.2, [])) acc)
        [] pe.

(** The coupled levels after the propagated entries were applied to each
    of them, without the mirrored block-graph edges. *)
Fixpoint propagated_levels (g : graph_t) (rt : weight_type)
    (es : list entry) (cs : list BlockState) : list BlockState :=
  match cs with
  | [] => []
  | h :: rest =>
      let es' := up_entries (directed g) rt es h in
      apply_entries_level true true g es' h
      :: propagated_levels g (_rt h) es' rest
  end.

End RoundTripViews.

(** The modelled partition statistics keep no block with the total 0. *)
Definition stats_clean (l : @BlockState ps_model_stats) : Prop :=
  Forall (fun ps : ps_model => map_Forall (fun _ t => t <> 0) (ps_total ps))
         (@_partition_stats ps_model_stats l).

(* ===================================================================== *)
(** ** The entropy of a state *)

(** What [entropy] sums and is not among the sources: the terms of
    [graph_blockmodel_entropy.hh], the description lengths of
    [partition_stats], [rec_entropy] of [graph_blockmodel_weights.hh],
    [lgamma_fast] of [cache.hh] and [std::log]; and the order in which
    [edges_range(_bg)] and the iterator of a [gt_hash_map] hand out their
    elements, which the finite maps of the state do not record. *)
Class EntropyTerms `{PartitionStats} := {
  (** [eterm(r, s, mrs, bg)] and [eterm_exact] *)
  eterm : nat -> nat -> Z -> bool -> float;
  eterm_exact : nat -> nat -> Z -> bool -> float;
  lgamma_fast : Z -> float;
  log : float -> float;
  (** [partition_stats::get_partition_dl()] *)
  ps_get_partition_dl : PS -> float;
  (** [partition_stats::get_deg_dl(kind)] *)
  ps_get_deg_dl : Z -> PS -> float;
  (** [rec_entropy(state, ea)] *)
  rec_entropy : graph_t -> BlockState -> entropy_args_t -> float * float;
  (** [edges_range(_bg)]: the edges of the block graph in its own order *)
  bg_edges_range : gmap (nat * nat) Z -> list (nat * nat);
  (** the entries of a [gt_hash_map<size_t, size_t>] in the order of its
      iterator *)
  hash_range : gmap nat Z -> list (nat * Z)
}.

Section Entropy.

Context `{PartitionStats} `{!Externals} `{!EntropyTerms}.

(** [get_deg_entropy(v, degs)] on the degree map [_degs], with the default
    [delta = {0, 0}]. *)
Definition get_deg_entropy (v : nat) (l : BlockState) : float :=
  let ks := _degs l !!! v in
  let kin := ks.1 + 0 in
  let kout := ks.2 + 0 in
  let S := (- lgamma_fast (kin + 1) - lgamma_fast (kout + 1))%float in
  (S * Numeric.Z_to_double (_vweight l !!! v))%float.

(** [get_parallel_entropy()]: over every vertex, with the default
    [delta = 0]; on an undirected graph a neighbour above [v] is skipped. *)
Definition get_parallel_entropy (g : graph_t) : float :=
  foldl (fun (S : float) (v : nat) =>
           let us :=
             foldl (fun (us : gmap nat Z) (e : edge_t) =>
                      let u := target e in
                      if (v <? u)%nat && negb (directed g) then us
                      else <[ u := (default 0 (us !! u) + eweight e)
                                   mod 2 ^ 64 ]> us)
                   ∅ (out_edges_range v g) in
           foldl (fun (S : float) (uc : nat * Z) =>
                    let u := uc.1 in
                    let m := uc.2 in
                    let m :=
                      if bool_decide (u = v) && negb (directed g)
                      then (m + 2 * 0) mod 2 ^ 64
                      else (m + 0) mod 2 ^ 64 in
                    if 1 <? m then
                      if bool_decide (u = v) && negb (directed g) then
                        (S + (lgamma_fast (m / 2 + 1)
                              + Numeric.Z_to_double m * log 2 / 2))%float
                      else (S + lgamma_fast (m + 1))%float
                    else S)
                 S (hash_range us))
        0%float (seq 0 (num_vertices g)).

(** [sparse_entropy(multigraph, deg_entropy, exact)]. *)
Definition sparse_entropy (multigraph deg_entropy exact : bool)
    (g : graph_t) (l : BlockState) : float :=
  let S := 0%float in
  let mrs := fun rs : nat * nat => default 0 (_mrs l !! rs) in
  let S :=
    if exact then
      let S :=
        foldl (fun (S : float) (rs : nat * nat) =>
                 (S + eterm_exact rs.1 rs.2 (mrs rs) (directed g))%float)
              S (bg_edges_range (_mrs l)) in
      foldl (fun (S : float) (r : nat) =>
               (S + vterm_exact (_mrp l !!! r) (mrm_of g l !!! r)
                      (_wr l !!! r) (_deg_corr l) (directed g))%float)
            S (seq 0 (_B l))
    else
      let S :=
        foldl (fun (S : float) (rs : nat * nat) =>
                 (S + eterm rs.1 rs.2 (mrs rs) (directed g))%float)
              S (bg_edges_range (_mrs l)) in
      foldl (fun (S : float) (r : nat) =>
               (S + vterm (_mrp l !!! r) (mrm_of g l !!! r)
                      (_wr l !!! r) (_deg_corr l) (directed g))%float)
            S (seq 0 (_B l)) in
  let S :=
    if _deg_corr l && deg_entropy then
      foldl (fun (S : float) (v : nat) => (S + get_deg_entropy v l)%float)
            S (seq 0 (num_vertices g))
    else S in
  if multigraph then (S + get_parallel_entropy g)%float else S.

(** [dense_entropy(multigraph)]. *)
Definition dense_entropy (multigraph : bool) (g : graph_t) (l : BlockState)
    : result float :=
  if _deg_corr l then Raise (GraphException dense_msg)
  else
    Ok (foldl (fun (S : float) (rs : nat * nat) =>
                 (S + eterm_dense rs.1 rs.2 (default 0%Z (_mrs l !! rs))
                        (_wr l !!! rs.1) (_wr l !!! rs.2) multigraph
                        (directed g))%float)
              0%float (bg_edges_range (_mrs l))).

(** [get_partition_dl()]. *)
Definition get_partition_dl (l : BlockState) : float :=
  foldl (fun (S : float) ps => (S + ps_get_partition_dl ps)%float)
        0%float (_partition_stats l).

(** [get_deg_dl(kind)]. *)
Definition get_deg_dl (kind : Z) (l : BlockState) : float :=
  foldl (fun (S : float) ps => (S + ps_get_deg_dl kind ps)%float)
        0%float (_partition_stats l).

(** The adjacency part of [entropy]: [S] after the first conditional. *)
Definition entropy_adjacency (ea : entropy_args_t) (g : graph_t)
    (l : BlockState) : result float :=
  let S := 0%float in
  if ea_adjacency ea then
    match (if negb (ea_dense ea)
           then Ok (sparse_entropy (ea_multigraph ea) (ea_deg_entropy ea)
                      (ea_exact ea) g l)
           else dense_entropy (ea_multigraph ea) g l) with
    | Raise e => Raise e
    | Ok S0 =>
        let S := S0 in
        if negb (ea_dense ea) && negb (ea_exact ea) then
          let E := foldl (fun (E : Z) (e : edge_t) =>
                            (E + eweight e) mod 2 ^ 64) 0 (edges g) in
          if ea_multigraph ea then Ok (S - Numeric.Z_to_double E)%float
          else Ok (S + Numeric.Z_to_double E)%float
        else Ok S
    end
  else Ok S.

(** The loop of [entropy] over the vertices of [_g]: the field of every
    vertex at its block is taken off [S_dl], in the order of the vertices. *)
Definition entropy_bfield (g : graph_t) (l : BlockState) (S_dl : float)
    : float :=
  foldl (fun (S_dl : float) (v : nat) =>
           let f := _bfield l !!! v in
           if f is [] then S_dl
           else
             let r := _b l !!! v in
             (S_dl - field_at f r)%float)
        S_dl (seq 0 (num_vertices g)).

(** [entropy(ea, propagate)]. *)
Fixpoint entropy (ea : entropy_args_t) (propagate : bool) (g : graph_t)
    (l : BlockState) (cs : list BlockState) {struct cs} : result float :=
  let S_dl := 0%float in
  match entropy_adjacency ea g l with
  | Raise e => Raise e
  | Ok S0 =>
      let S := S0 in
      let S_dl :=
        if ea_partition_dl ea then (S_dl + get_partition_dl l)%float
        else S_dl in
      let S_dl :=
        if _deg_corr l && ea_degree_dl ea
        then (S_dl + get_deg_dl (ea_degree_dl_kind ea) l)%float
        else S_dl in
      let S_dl :=
        if ea_edges_dl ea
        then (S_dl + get_edges_dl (actual_B l) (_E l) g)%float
        else S_dl in
      let S_dl := entropy_bfield g l S_dl in
      let SS :=
        if ea_recs ea then
          let rdS := rec_entropy g l ea in
          ((S + rdS.1)%float, (S_dl + rdS.2)%float)
        else (S, S_dl) in
      let S := SS.1 in
      let S_dl := SS.2 in
      let S_dl :=
        if negb (bool_decide (_Bfield l = [])) && ea_Bfield ea
        then (S_dl - field_at_Z (_Bfield l) (actual_B l))%float
        else S_dl in
      match cs with
      | h :: rest =>
          if propagate then
            match entropy (_coupled_entropy_args l) true (bg_of g l) h rest
            with
            | Raise e => Raise e
            | Ok c => Ok (S + (S_dl + c) * ea_beta_dl ea)%float
            end
          else Ok (S + S_dl * ea_beta_dl ea)%float
      | [] => Ok (S + S_dl * ea_beta_dl ea)%float
      end
  end.

End Entropy.

(** The field of [apply_delta] the entropy reads besides the counters:
    [apply_delta] does not write [_bfield]. *)
Definition apply_delta_keeps_bfield `{PartitionStats} `{!Externals}
    `{!ApplyDelta} : Prop :=
  forall (Add Remove : bool) (g : graph_t) (l : BlockState)
         (cs : list BlockState),
    _bfield (apply_delta Add Remove g l cs).1 = _bfield l.

(** Modelled from the spec: the collaborators of [EntropyTerms]; the
    entropy terms, whose formulas the specification does not give, are
    constant, and the containers hand out their elements in the order of
    the keys. *)
Definition entropy_terms_model `{PartitionStats} : EntropyTerms := {|
  eterm := fun _ _ _ _ => 0%float;
  eterm_exact := fun _ _ _ _ => 0%float;
  lgamma_fast := fun _ => 0%float;
  log := fun _ => 0%float;
  ps_get_partition_dl := fun _ => 0%float;
  ps_get_deg_dl := fun _ _ => 0%float;
  rec_entropy := fun _ _ _ => (0%float, 0%float);
  bg_edges_range := fun m => (map_to_list m).*1;
  hash_range := map_to_list
|}.

(** The tolerance in the words of the specification: [dS] is within
    [1e-8 * max(1, |entropy|)] of [S1 - S0]; of the two entropies the
    larger is taken, which allows more. *)
Definition within_tolerance (dS S0 S1 : float) : bool :=
  let m := if PrimFloat.ltb (abs S0) (abs S1) then abs S1 else abs S0 in
  let m := if PrimFloat.ltb m 1 then 1%float else m in
  PrimFloat.leb (abs (S1 - S0 - dS)) (0x1.5798ee2308c3ap-27 * m).

Section EntropyExamples.

#[local] Existing Instance ps_model_stats.
#[local] Existing Instance externals_model.
#[local] Existing Instance apply_delta_model.

(** A state on [edge_and_point] with every vertex in block 0 and block 1
    empty; the isolated vertex 2 has the field [[1, 2]] and the weight
    [w]. *)
Definition field_state (w : Z) : BlockState :=
  init_partition_stats edge_and_point
    {| _deg_corr := false; _rec_types := []; _rt := NONE; _bclabel := [0; 0];
       _pclabel := [0; 0; 0]%nat;
       _bfield := [[]; []; [1%float; 2%float]]; _Bfield := [];
       _degs := [(0, 1); (0, 1); (0, 0)]; _E := 1;
       _coupled_entropy_args := ea_off; _b := [0; 0; 0]%nat;
       _vweight := [1; 1; w]; _wr := [2 + w; 0]; _N := 2 + w;
       _candidate_groups := {[ 0%nat ]}; _empty_groups := {[ 1%nat ]};
       _partition_stats := []; _B := 2;
       _mrs := {[ (0, 0)%nat := 1 ]};
       _mrp := [2; 0]; _mrm := [2; 0];
       _brec := ∅; _bdrec := ∅; _brecsum := [0%float; 0%float];
       _m_entries := {| _rnr := (None, None); _entries := [];
                        _p_entries := [] |} |}.

(** Three vertices without an edge. *)
Definition three_points : graph_t :=
  {| directed := false; num_vertices := 3; edges := [] |}.

(** A state on [three_points] with every vertex in block 0 and block 1
    empty; the fields are [[2^100]], [[0, 1]] and [[-2^100]]. *)
Definition cancelling_state : BlockState :=
  init_partition_stats three_points
    {| _deg_corr := false; _rec_types := []; _rt := NONE; _bclabel := [0; 0];
       _pclabel := [0; 0; 0]%nat;
       _bfield := [[0x1p+100%float]; [0%float; 1%float];
                   [(-0x1p+100)%float]];
       _Bfield := []; _degs := [(0, 0); (0, 0); (0, 0)]; _E := 0;
       _coupled_entropy_args := ea_off; _b := [0; 0; 0]%nat;
       _vweight := [1; 1; 1]; _wr := [3; 0]; _N := 3;
       _candidate_groups := {[ 0%nat ]}; _empty_groups := {[ 1%nat ]};
       _partition_stats := []; _B := 2;
       _mrs := ∅; _mrp := [0; 0]; _mrm := [0; 0];
       _brec := ∅; _bdrec := ∅; _brecsum := [0%float; 0%float];
       _m_entries := {| _rnr := (None, None); _entries := [];
                        _p_entries := [] |} |}.

End EntropyExamples.

(** ** The public operations as a transition relation *)

Section Steps.

Context `{PartitionStats} `{!Externals} `{!ApplyDelta}.

(** One public operation on a state and its graph.  A vertex that is
    removed or moved is counted in its block (its weight is part of the
    block's size), block arguments are blocks, a weight is not negative,
    and the operations on several vertices start from a state
    [check_node_counts] accepts.  [remove_vertices], [add_vertices] and
    [modify_edge], which walk hash sets or rewrite the graph in place, have
    no counterpart here. *)
Inductive step
    : graph_t * (BlockState * list BlockState) ->
      graph_t * (BlockState * list BlockState) -> Prop :=
| step_remove_vertex (v : nat) (g : graph_t) (l : BlockState)
    (cs : list BlockState) :
    (_b l !!! v < _B l)%nat ->
    _vweight l !!! v <= _wr l !!! (_b l !!! v) ->
    step (g, (l, cs)) (g, remove_vertex v g l cs)
| step_add_vertex (v r : nat) (g : graph_t) (l : BlockState)
    (cs : list BlockState) :
    (r < _B l)%nat ->
    step (g, (l, cs)) (g, add_vertex v r g l cs)
| step_move_vertex (v nr : nat) (g : graph_t) (l : BlockState)
    (cs : list BlockState) :
    (_b l !!! v < _B l)%nat -> (nr < _B l)%nat ->
    _vweight l !!! v <= _wr l !!! (_b l !!! v) ->
    step (g, (l, cs)) (g, (move_vertex v nr g l cs).2)
| step_add_block (n : nat) (g : graph_t) (l : BlockState)
    (cs : list BlockState) :
    step (g, (l, cs)) (g, (add_block n g l cs).2)
| step_set_vertex_weight (v : nat) (w : Z) (g : graph_t) (l : BlockState)
    (cs : list BlockState) :
    0 <= w ->
    step (g, (l, cs)) (g, (set_vertex_weight v w l, cs))
| step_move_vertices (vs nrs : list nat) (g : graph_t) (l : BlockState)
    (cs : list BlockState) :
    well_formed g l cs ->
    Forall (fun v => (v < num_vertices g)%nat) vs ->
    Forall (fun nr => (nr < _B l)%nat) nrs ->
    step (g, (l, cs)) (g, (move_vertices vs nrs g l cs).2)
| step_set_partition (b : list nat) (g : graph_t) (l : BlockState)
    (cs : list BlockState) :
    well_formed g l cs -> length b = num_vertices g ->
    step (g, (l, cs)) (g, (set_partition b g l cs).2)
| step_get_empty_block (idx_back : gset nat -> nat) (v : nat)
    (force_add : bool) (g : graph_t) (l : BlockState)
    (cs : list BlockState) :
    well_formed g l cs -> (v < num_vertices g)%nat ->
    step (g, (l, cs)) (g, (get_empty_block idx_back v force_add g l cs).2)
| step_add_edge (e : nat * nat) (g : graph_t) (l : BlockState)
    (cs : list BlockState) :
    step (g, (l, cs)) (g, add_edge g e l cs)
| step_remove_edge (i : nat) (g : graph_t) (l : BlockState)
    (cs : list BlockState) :
    step (g, (l, cs)) (remove_edge i g l cs)
| step_init_partition_stats (g : graph_t) (l : BlockState)
    (cs : list BlockState) :
    step (g, (l, cs)) (g, (init_partition_stats g l, cs))
| step_reset_partition_stats (g : graph_t) (l : BlockState)
    (cs : list BlockState) :
    step (g, (l, cs)) (g, (reset_partition_stats l, cs)).

End Steps.

End SBM.

(* ===================================================================== *)
(** * Part VI. Properties of the numeric primitives                        *)
(* ===================================================================== *)

Module NumericFacts.

Import Numeric.

Section LogBinomialFacts.

Context {T : Type} `{Arith T}.
Variables lgamma log log1p : float -> float.
Variable lgamma_fast : bool -> T -> float.

(** C10. Whenever the guard [N == 0 || k == 0 || k >= N] holds, the three
    log-binomial helpers return exactly [0]; in particular for [k > N],
    where the binomial coefficient is zero, the result is [0] and not minus
    infinity. *)
Theorem lbinom_guard_zero (Init : bool) (N k : T) :
  is_zero N || is_zero k || geb k N = true ->
  lbinom lgamma N k = 0%float
  /\ lbinom_fast lgamma_fast Init N k = 0%float
  /\ lbinom_careful lgamma log log1p N k = 0%float.
Proof.
  intros Hguard.
  unfold lbinom, lbinom_fast, lbinom_careful.
  rewrite Hguard. repeat split; reflexivity.
Qed.

End LogBinomialFacts.

(** The guard at [N = 3], [k = 5] over the integers: [k > N]. *)
Lemma lbinom_guard_zero_witness :
  lbinom PrimFloat.sqrt 3 5 = 0%float
  /\ lbinom_fast (fun _ z => Z_to_double z) true 3 5 = 0%float
  /\ lbinom_careful PrimFloat.sqrt PrimFloat.sqrt PrimFloat.sqrt 3 5
     = 0%float.
Proof.
  apply (lbinom_guard_zero PrimFloat.sqrt PrimFloat.sqrt PrimFloat.sqrt
           (fun _ z => Z_to_double z) true 3 5).
  reflexivity.
Defined.

(** C9, refuted as stated: below the cache bound [log_q(n, k)] is not always
    the entry [__q_cache[n][k]]: [log_q(1, 2)] is [__q_cache[1][1]], because
    the column is clamped to [n]. *)
Lemma log_q_not_cached_entry :
  (Z.to_nat 1 < q_cache_bound small_q_cache)%nat
  /\ (log_q (fun _ _ => 0%float) 1 2 small_q_cache).1
     = q_cache_at small_q_cache 1 1
  /\ (log_q (fun _ _ => 0%float) 1 2 small_q_cache).1
     <> q_cache_at small_q_cache (Z.to_nat 1) (Z.to_nat 2).
Proof.
  split; [vm_compute; lia|]. split; [reflexivity|].
  vm_compute. discriminate.
Qed.

(** C9, amended: [log_q] never writes the cache; it returns [0] when
    [n <= 0] or [k < 1]; otherwise, with the column clamped to [min k n], it
    returns the cached entry when [n] is below the cache bound and the
    closed form [log_q_approx] otherwise. *)
Theorem log_q_cases (log_q_approx : Z -> Z -> float) (n k : Z)
    (G : Globals) :
  (log_q log_q_approx n k G).2 = G
  /\ (n <= 0 \/ k < 1 -> (log_q log_q_approx n k G).1 = 0%float)
  /\ (0 < n -> 1 <= k -> (Z.to_nat n < q_cache_bound G)%nat ->
      (log_q log_q_approx n k G).1
      = q_cache_at G (Z.to_nat n) (Z.to_nat (Z.min k n)))
  /\ (0 < n -> 1 <= k -> (q_cache_bound G <= Z.to_nat n)%nat ->
      (log_q log_q_approx n k G).1 = log_q_approx n (Z.min k n)).
Proof.
  unfold log_q.
  assert (Hclamp : (if k >? n then n else k) = Z.min k n).
  { destruct (Z.gtb_spec k n); lia. }
  rewrite Hclamp.
  repeat split.
  - destruct ((n <=? 0) || (k <? 1)); [reflexivity|].
    destruct (Z.to_nat n <? q_cache_bound G)%nat; reflexivity.
  - intros Hnk.
    assert (Hg : (n <=? 0) || (k <? 1) = true).
    { apply orb_true_iff. destruct Hnk; [left; lia | right; lia]. }
    rewrite Hg. reflexivity.
  - intros Hn Hk Hlt.
    assert (Hg : (n <=? 0) || (k <? 1) = false).
    { apply orb_false_iff. split; lia. }
    rewrite Hg.
    apply Nat.ltb_lt in Hlt. rewrite Hlt. reflexivity.
  - intros Hn Hk Hge.
    assert (Hg : (n <=? 0) || (k <? 1) = false).
    { apply orb_false_iff. split; lia. }
    rewrite Hg.
    apply Nat.ltb_ge in Hge. rewrite Hge. reflexivity.
Qed.

Section LogSumExpFacts.

Variables log log1p exp : float -> float.

Lemma SFcompare_antisym (x y : SpecFloat.spec_float) :
  SpecFloat.SFcompare y x = option_map CompOpp (SpecFloat.SFcompare x y).
Proof.
  assert (Hm : forall p q : positive,
             Pos.compare_cont Eq q p = CompOpp (Pos.compare_cont Eq p q)).
  { intros p q. by rewrite Pos.compare_cont_antisym. }
  destruct x as [sx|sx| |sx mx ex], y as [sy|sy| |sy my ey]; cbn;
    try destruct sx; try destruct sy; try reflexivity;
    rewrite (Z.compare_antisym ex ey), (Hm mx my);
    destruct (ex ?= ey)%Z; cbn; try reflexivity;
    by rewrite CompOpp_involutive.
Qed.

(** A strict comparison decides the three tests of [log_sum_exp]. *)
Lemma ltb_tests (a b : float) :
  PrimFloat.ltb b a = true ->
  PrimFloat.eqb a b = false /\ PrimFloat.eqb b a = false
  /\ PrimFloat.ltb a b = false.
Proof.
  rewrite !FloatAxioms.ltb_spec, !FloatAxioms.eqb_spec.
  unfold SpecFloat.SFltb, SpecFloat.SFeqb.
  rewrite (SFcompare_antisym (Prim2SF b) (Prim2SF a)).
  by destruct (SpecFloat.SFcompare (Prim2SF b) (Prim2SF a)) as [[| |]|].
Qed.

(** X1. [log_sum_exp] of two ordered, different arguments adds the
    correction to the larger one, in whichever order they are given:
    [exp] is only applied to the negative difference, and the result does
    not depend on the order. *)
Theorem log_sum_exp_larger_first (a b : float) :
  PrimFloat.ltb b a = true ->
  log_sum_exp log log1p exp a b = (a + log1p (exp (b - a)))%float
  /\ log_sum_exp log log1p exp b a = (a + log1p (exp (b - a)))%float.
Proof.
  intros Hlt. destruct (ltb_tests a b Hlt) as (Hab & Hba & Hnlt).
  unfold log_sum_exp. by rewrite Hab, Hba, Hlt, Hnlt.
Qed.

End LogSumExpFacts.

(** The arguments 2 and 1, in both orders. *)
Lemma log_sum_exp_larger_first_witness :
  log_sum_exp PrimFloat.sqrt PrimFloat.sqrt PrimFloat.abs 2 1
  = (2 + PrimFloat.sqrt (PrimFloat.abs (1 - 2)))%float
  /\ log_sum_exp PrimFloat.sqrt PrimFloat.sqrt PrimFloat.abs 1 2
     = (2 + PrimFloat.sqrt (PrimFloat.abs (1 - 2)))%float.
Proof.
  apply (log_sum_exp_larger_first PrimFloat.sqrt PrimFloat.sqrt
           PrimFloat.abs 2 1).
  reflexivity.
Defined.

End NumericFacts.

(* ===================================================================== *)
(** * Part VII. Properties of the block state                             *)
(* ===================================================================== *)

Module SBMFacts.

Import SBM.

Section ConstraintBarrier.

Context `{PartitionStats} `{!Externals} `{!ApplyDelta}.

(** [allow_move] is the conjunction of the label test of this level and,
    with a coupled state, the test one level up. *)
Lemma allow_move_unfold (r nr : nat) (l : BlockState) (cs : list BlockState) :
  allow_move r nr l cs
  = match cs with
    | [] => true
    | h :: rest =>
        (_b h !!! r =? _b h !!! nr)%nat
        || allow_move (_b h !!! r) (_b h !!! nr) h rest
    end && (_bclabel l !!! r =? _bclabel l !!! nr).
Proof.
  destruct cs as [|h rest]; simpl; [reflexivity|].
  destruct (_b h !!! r =? _b h !!! nr)%nat; simpl; [reflexivity|].
  destruct (allow_move (_b h !!! r) (_b h !!! nr) h rest); reflexivity.
Qed.

(** C2. [allow_move(r, nr)] succeeds iff the block labels agree and, with a
    coupled state, the coupled labels of [r] and [nr] are equal or the
    coupled state allows the move between them; and [move_vertex(v, nr)]
    with [b[v] <> nr] raises the barrier error exactly when
    [allow_move(b[v], nr)] fails, in which case the state is unchanged. *)
Theorem allow_move_guards_move_vertex (g : graph_t) (v r nr : nat)
    (l : BlockState) (cs : list BlockState) :
  (allow_move r nr l cs = true <->
     _bclabel l !!! r = _bclabel l !!! nr
     /\ match cs with
        | [] => True
        | h :: rest =>
            _b h !!! r = _b h !!! nr
            \/ allow_move (_b h !!! r) (_b h !!! nr) h rest = true
        end)
  /\ (_b l !!! v <> nr ->
      ((move_vertex v nr g l cs).1 = Raise (ValueException barrier_msg)
       <-> allow_move (_b l !!! v) nr l cs = false)
      /\ ((move_vertex v nr g l cs).1 = Ok tt
          <-> allow_move (_b l !!! v) nr l cs = true)
      /\ (allow_move (_b l !!! v) nr l cs = false ->
          (move_vertex v nr g l cs).2 = (l, cs))).
Proof.
  split.
  - rewrite allow_move_unfold, andb_true_iff, Z.eqb_eq.
    destruct cs as [|h rest].
    + tauto.
    + rewrite orb_true_iff, Nat.eqb_eq. tauto.
  - intros Hne. unfold move_vertex, move_vertex_from.
    destruct (decide (_b l !!! v = nr)) as [Heq|_]; [contradiction|].
    destruct (allow_move (_b l !!! v) nr l cs); simpl.
    + repeat split; intros; try reflexivity; discriminate.
    + repeat split; intros; try reflexivity; discriminate.
Qed.

End ConstraintBarrier.

Section VirtualMoveOutcome.

Context `{PartitionStats} `{!Externals} `{!ApplyDelta}.

Lemma get_move_entries_deg_corr (v : nat) (r nr : option nat)
    (efilt : edge_t -> bool) (g : graph_t) (l : BlockState) :
  _deg_corr (get_move_entries v r nr efilt g l) = _deg_corr l.
Proof. reflexivity. Qed.

(** The adjacency part fails only through the dense variant of a
    degree-corrected model. *)
Lemma virtual_move_adjacency_raise (v : nat) (r nr : option nat)
    (ea : entropy_args_t) (g : graph_t) (l : BlockState) (e : exn) :
  virtual_move_adjacency v r nr ea g l = Raise e <->
  e = GraphException dense_msg /\ ea_adjacency ea = true
  /\ ea_dense ea = true /\ _deg_corr l = true.
Proof.
  unfold virtual_move_adjacency, virtual_move_dense.
  destruct (ea_adjacency ea), (ea_dense ea), (_deg_corr l);
    try (split; [discriminate | intros (_ & ? & ? & ?); discriminate]).
  - split; [intros [= <-]; auto | intros (-> & _); reflexivity].
  - split; [|intros (_ & _ & _ & ?); discriminate].
    destruct (decide (r = nr)); [discriminate|].
    destruct (dense_deltas v g l) as [[dp dm] dl].
    repeat case_match; discriminate.
Qed.

(** Once the adjacency part has returned, [virtual_move] returns. *)
Lemma virtual_move_tail_ok (v : nat) (r nr : option nat)
    (ea : entropy_args_t) (g : graph_t) (l : BlockState)
    (cs : list BlockState) (e : exn) :
  (virtual_move v r nr ea g l cs).1 = Raise e ->
  virtual_move_adjacency v r nr ea g (get_move_entries v r nr no_efilt g l)
  = Raise e.
Proof.
  unfold virtual_move.
  repeat case_match; simpl; try discriminate; intros; simplify_eq; done.
Qed.

(** C3, amended. [virtual_move] returns [0] when [r == nr] or
    [vweight[v] == 0]; it returns plus infinity when [r] and [nr] are
    distinct non-null blocks, [vweight[v]] is not zero and [allow_move]
    fails; it never raises the barrier error, and the one failure it has is
    the "dense entropy" error of a degree-corrected model, raised exactly
    when a move that passed these tests asks for the dense adjacency term.
    None of these outcomes changes the state. *)
Theorem virtual_move_outcome (v : nat) (r nr : option nat)
    (ea : entropy_args_t) (g : graph_t) (l : BlockState)
    (cs : list BlockState) :
  (r = nr \/ _vweight l !!! v = 0 ->
   virtual_move v r nr ea g l cs = (Ok 0%float, (l, cs)))
  /\ (forall r0 n0 : nat,
        r = Some r0 -> nr = Some n0 -> r0 <> n0 -> _vweight l !!! v <> 0 ->
        allow_move r0 n0 l cs = false ->
        virtual_move v r nr ea g l cs = (Ok infinity, (l, cs)))
  /\ (forall e : exn,
        (virtual_move v r nr ea g l cs).1 = Raise e ->
        e = GraphException dense_msg /\ ea_adjacency ea = true
        /\ ea_dense ea = true /\ _deg_corr l = true)
  /\ (r <> nr -> _vweight l !!! v <> 0 ->
      (forall r0 n0 : nat,
         r = Some r0 -> nr = Some n0 -> allow_move r0 n0 l cs = true) ->
      ea_adjacency ea = true -> ea_dense ea = true -> _deg_corr l = true ->
      (virtual_move v r nr ea g l cs).1 = Raise (GraphException dense_msg)).
Proof.
  repeat split.
  - intros Hzero. unfold virtual_move.
    assert (Hg : bool_decide (r = nr) || (_vweight l !!! v =? 0) = true).
    { apply orb_true_iff. destruct Hzero as [->|Hw].
      - left. by apply bool_decide_eq_true.
      - right. by apply Z.eqb_eq. }
    by rewrite Hg.
  - intros r0 n0 -> -> Hne Hw Hallow. unfold virtual_move.
    assert (Hg : bool_decide (Some r0 = Some n0)
                 || (_vweight l !!! v =? 0) = false).
    { apply orb_false_iff. split.
      - apply bool_decide_eq_false. congruence.
      - by apply Z.eqb_neq. }
    by rewrite Hg, Hallow.
  - apply virtual_move_tail_ok in H2.
    apply virtual_move_adjacency_raise in H2. tauto.
  - apply virtual_move_tail_ok in H2.
    apply virtual_move_adjacency_raise in H2. tauto.
  - apply virtual_move_tail_ok in H2.
    apply virtual_move_adjacency_raise in H2. tauto.
  - apply virtual_move_tail_ok in H2.
    apply virtual_move_adjacency_raise in H2.
    rewrite get_move_entries_deg_corr in H2. tauto.
  - intros Hne Hw Hallow Hadj Hdense Hdc. unfold virtual_move.
    assert (Hg : bool_decide (r = nr) || (_vweight l !!! v =? 0) = false).
    { apply orb_false_iff. split.
      - by apply bool_decide_eq_false.
      - by apply Z.eqb_neq. }
    rewrite Hg.
    assert (Hb : match r, nr with
                 | Some r0, Some n0 => negb (allow_move r0 n0 l cs)
                 | _, _ => false
                 end = false).
    { destruct r as [r0|], nr as [n0|]; try reflexivity.
      by rewrite (Hallow r0 n0). }
    rewrite Hb.
    unfold virtual_move_adjacency, virtual_move_dense.
    rewrite Hadj, Hdense, get_move_entries_deg_corr, Hdc. reflexivity.
Qed.

End VirtualMoveOutcome.

(** C3, refuted as stated: on a degree-corrected state the dense adjacency
    term makes [virtual_move] raise; and for a weightless vertex across a
    label barrier ([allow_move] fails) it returns [0], not plus infinity. *)
Lemma virtual_move_raises_and_zero :
  (@virtual_move ps_model_stats externals_model 0 (Some 0%nat) (Some 1%nat)
     ea_dense_adjacency triangle deg_corr_state []).1
  = Raise (GraphException dense_msg)
  /\ @allow_move ps_model_stats 0 1 weightless_barrier_state [] = false
  /\ (@virtual_move ps_model_stats externals_model 0 (Some 0%nat)
        (Some 1%nat) ea_off triangle weightless_barrier_state []).1
     = Ok 0%float.
Proof. repeat split; vm_compute; reflexivity. Qed.

Section VirtualMovePurity.

Context `{PartitionStats} `{!Externals} `{!ApplyDelta}.

#[local] Arguments get_partition_stats : simpl never.

Lemma get_partition_stats_counters (g : graph_t) (v : nat) (l : BlockState) :
  counters_but_stats (get_partition_stats g v l).2 = counters_but_stats l.
Proof.
  unfold get_partition_stats. simpl.
  destruct (length (_partition_stats l) <=? _pclabel l !!! v)%nat;
    reflexivity.
Qed.

Lemma get_partition_stats_ready (g : graph_t) (v : nat) (l : BlockState) :
  stats_ready l -> (get_partition_stats g v l).2 = l.
Proof.
  intros Hready. unfold get_partition_stats. simpl.
  specialize (Hready v). apply Nat.leb_gt in Hready. by rewrite Hready.
Qed.

Lemma partition_dl_own_counters (g : graph_t) (v : nat) (r nr : option nat)
    (ea : entropy_args_t) (l : BlockState) :
  counters_but_stats (partition_dl_own g v r nr ea l).2
  = counters_but_stats l.
Proof.
  unfold partition_dl_own.
  destruct (ea_partition_dl ea); [|reflexivity].
  pose proof (get_partition_stats_counters g v l) as Hc.
  destruct (get_partition_stats g v l) as [c l1]. exact Hc.
Qed.

Lemma partition_dl_own_ready (g : graph_t) (v : nat) (r nr : option nat)
    (ea : entropy_args_t) (l : BlockState) :
  stats_ready l -> (partition_dl_own g v r nr ea l).2 = l.
Proof.
  intros Hready. unfold partition_dl_own.
  destruct (ea_partition_dl ea); [|reflexivity].
  pose proof (get_partition_stats_ready g v l Hready) as Hc.
  destruct (get_partition_stats g v l) as [c l1]. exact Hc.
Qed.

#[local] Opaque partition_dl_own.

Lemma get_delta_partition_dl_counters (cs : list BlockState) :
  forall g v r nr ea l,
    counters_but_stats
      <$> ((get_delta_partition_dl g v r nr ea l cs).2.1
           :: (get_delta_partition_dl g v r nr ea l cs).2.2)
    = counters_but_stats <$> (l :: cs).
Proof.
  induction cs as [|h rest IH]; intros g v r nr ea l; simpl;
    (destruct (decide (r = nr)); [reflexivity|]);
    pose proof (partition_dl_own_counters g v r nr ea l) as Hc;
    destruct (partition_dl_own g v r nr ea l) as [d1 l1]; simpl in Hc.
  - simpl. by rewrite Hc.
  - repeat case_match; simpl; rewrite ?Hc; try reflexivity;
      match goal with
      | E : get_delta_partition_dl ?g' ?v' ?r' ?nr' ?ea' h rest = _ |- _ =>
          specialize (IH g' v' r' nr' ea' h); rewrite E in IH; simpl in IH;
          by rewrite IH
      end.
Qed.

Lemma get_delta_partition_dl_ready (cs : list BlockState) :
  forall g v r nr ea l,
    Forall stats_ready (l :: cs) ->
    (get_delta_partition_dl g v r nr ea l cs).2 = (l, cs).
Proof.
  induction cs as [|h rest IH]; intros g v r nr ea l Hready; simpl;
    (destruct (decide (r = nr)); [reflexivity|]);
    inversion Hready as [|? ? Hl Hcs]; subst;
    pose proof (partition_dl_own_ready g v r nr ea l Hl) as Hc;
    destruct (partition_dl_own g v r nr ea l) as [d1 l1]; simpl in Hc;
    subst l1.
  - reflexivity.
  - repeat case_match; simpl; try reflexivity;
      match goal with
      | E : get_delta_partition_dl ?g' ?v' ?r' ?nr' ?ea' h rest = _ |- _ =>
          specialize (IH g' v' r' nr' ea' h Hcs); rewrite E in IH;
          simpl in IH; by simplify_eq
      end.
Qed.

#[local] Transparent partition_dl_own.

Lemma propagate_entries_dS_counters (cs : list BlockState) :
  forall g u v du dv entries ea dBdx dL l,
    counters
      <$> ((propagate_entries_dS g u v du dv entries ea dBdx dL l cs).1.2.1
           :: (propagate_entries_dS g u v du dv entries ea dBdx dL l cs).1.2.2)
    = counters <$> (l :: cs).
Proof.
  induction cs as [|h rest IH]; intros g u v du dv entries ea dBdx dL l;
    simpl.
  - repeat case_match; reflexivity.
  - repeat case_match; simpl; try reflexivity;
      match goal with
      | E : propagate_entries_dS ?g' ?u' ?v' ?du' ?dv' ?en' ?ea' ?dB' ?dL'
              h rest = _ |- _ =>
          specialize (IH g' u' v' du' dv' en' ea' dB' dL' h);
          rewrite E in IH; simpl in IH; by rewrite <- IH
      end.
Qed.

Lemma virtual_move_deg_edges_dl_counters (v : nat) (r nr : option nat)
    (ea : entropy_args_t) (g : graph_t) (d : float) (l : BlockState) :
  counters_but_stats (virtual_move_deg_edges_dl v r nr ea g d l).2
  = counters_but_stats l.
Proof.
  unfold virtual_move_deg_edges_dl.
  destruct (ea_degree_dl ea || ea_edges_dl ea); [|reflexivity].
  pose proof (get_partition_stats_counters g v l) as Hc.
  destruct (get_partition_stats g v l) as [c l1]. exact Hc.
Qed.

Lemma virtual_move_deg_edges_dl_ready (v : nat) (r nr : option nat)
    (ea : entropy_args_t) (g : graph_t) (d : float) (l : BlockState) :
  stats_ready l -> (virtual_move_deg_edges_dl v r nr ea g d l).2 = l.
Proof.
  intros Hready. unfold virtual_move_deg_edges_dl.
  destruct (ea_degree_dl ea || ea_edges_dl ea); [|reflexivity].
  pose proof (get_partition_stats_ready g v l Hready) as Hc.
  destruct (get_partition_stats g v l) as [c l1]. exact Hc.
Qed.

Lemma counters_but_stats_of_counters (l l' : BlockState) :
  counters l' = counters l -> counters_but_stats l' = counters_but_stats l.
Proof. unfold counters_but_stats. by intros ->. Qed.

Lemma counters_but_stats_map (st st' : list BlockState) :
  counters <$> st' = counters <$> st ->
  counters_but_stats <$> st' = counters_but_stats <$> st.
Proof.
  intros Heq.
  change (@counters_but_stats H)
    with (set_partition_stats (fun _ => []) ∘ counters).
  rewrite !list_fmap_compose. by rewrite Heq.
Qed.

Lemma stats_ready_set_m_entries (f : MEntries -> MEntries) (l : BlockState) :
  stats_ready l -> stats_ready (set_m_entries f l).
Proof. intros Hready v. exact (Hready v). Qed.

#[local] Opaque get_delta_partition_dl virtual_move_deg_edges_dl
  propagate_entries_dS virtual_move_adjacency.

(** C4, amended. [virtual_move] writes nothing but the scratch buffers
    [_m_entries] and, through the lazy [get_partition_stats], the partition
    statistics: at every level every other counter, set and property is the
    same before and after the call; and when the partition statistics of
    every level already cover the constraint classes (they are initialised),
    they are the same as well. *)
Theorem virtual_move_pure (v : nat) (r nr : option nat)
    (ea : entropy_args_t) (g : graph_t) (l : BlockState)
    (cs : list BlockState) :
  counters_but_stats
    <$> ((virtual_move v r nr ea g l cs).2.1
         :: (virtual_move v r nr ea g l cs).2.2)
  = counters_but_stats <$> (l :: cs)
  /\ (Forall stats_ready (l :: cs) ->
      counters
        <$> ((virtual_move v r nr ea g l cs).2.1
             :: (virtual_move v r nr ea g l cs).2.2)
      = counters <$> (l :: cs)).
Proof.
  unfold virtual_move.
  destruct (bool_decide (r = nr) || (_vweight l !!! v =? 0));
    [by split|].
  destruct (match r, nr with
            | Some r0, Some n0 => negb (allow_move r0 n0 l cs)
            | _, _ => false
            end); [by split|].
  set (l0 := get_move_entries v r nr no_efilt g l).
  assert (Hl0 : counters l0 = counters l) by reflexivity.
  destruct (virtual_move_adjacency v r nr ea g l0) as [dS|e];
    [|split; [|intros _]; simpl; by rewrite ?Hl0,
        ?(counters_but_stats_of_counters _ _ Hl0)].
  pose proof (get_delta_partition_dl_counters cs g v r nr ea l0) as Hp.
  pose proof (get_delta_partition_dl_ready cs g v r nr ea l0) as Hpr.
  destruct (get_delta_partition_dl g v r nr ea l0 cs) as [d [l1 cs1]].
  simpl in Hp, Hpr.
  pose proof (virtual_move_deg_edges_dl_counters v r nr ea g
                (0 + d)%float l1) as Hd.
  pose proof (virtual_move_deg_edges_dl_ready v r nr ea g
                (0 + d)%float l1) as Hdr.
  destruct (virtual_move_deg_edges_dl v r nr ea g (0 + d)%float l1)
    as [dS_dl l2].
  simpl in Hd, Hdr.
  assert (Hbase : counters_but_stats <$> (l2 :: cs1)
                  = counters_but_stats <$> (l :: cs)).
  { simpl. rewrite Hd. simpl in Hp. rewrite Hp.
    by rewrite (counters_but_stats_of_counters _ _ Hl0). }
  assert (Hbase_ready : Forall stats_ready (l :: cs) ->
                        counters <$> (l2 :: cs1) = counters <$> (l :: cs)).
  { intros Hready.
    assert (Hready0 : Forall stats_ready (l0 :: cs)).
    { inversion Hready; subst. constructor; [|done].
      by apply stats_ready_set_m_entries. }
    specialize (Hpr Hready0). simplify_eq.
    rewrite Hdr; [|by inversion Hready0]. simpl. by rewrite Hl0. }
  clear Hp Hpr Hd Hdr.
  set (tail := virtual_move_Bfield v nr ea dS_dl l2).
  destruct (if ea_recs ea && negb (bool_decide (_rt l2 = NONE))
            then _ else _) as [[dS' dS_dl'] [LdBdx dL]].
  destruct cs1 as [|h rest]; [by split|].
  destruct (0 <? _vweight l2 !!! v); [|by split].
  set (pe := if decide (_rt l2 = NONE) then _ else _).
  set (l3 := set_m_entries (set_p_entries pe) l2).
  assert (Hl3 : counters l3 = counters l2) by reflexivity.
  destruct (negb (bool_decide (pe = [])) || _ || _).
  - pose proof (propagate_entries_dS_counters rest (bg_of g l3) r nr
                  (if (wr_at l3 r =? _vweight l3 !!! v)
                      && (0 <? _vweight l3 !!! v) then -1 else 0)
                  (if (wr_at l3 nr =? 0) && (0 <? _vweight l3 !!! v)
                   then 1 else 0)
                  pe (_coupled_entropy_args l3) LdBdx dL h) as Hq.
    destruct (propagate_entries_dS _ _ _ _ _ _ _ _ _ h rest)
      as [[d' [h1 rest1]] [pe1 dB1]].
    cbn [fst snd] in Hq |- *.
    split.
    + rewrite <- Hbase, !fmap_cons. f_equal.
      rewrite <- !fmap_cons. apply counters_but_stats_map. exact Hq.
    + intros Hready. rewrite <- (Hbase_ready Hready), !fmap_cons. f_equal.
      rewrite <- !fmap_cons. exact Hq.
  - split; [exact Hbase|]. intros Hready. exact (Hbase_ready Hready).
Qed.

#[local] Transparent get_delta_partition_dl virtual_move_deg_edges_dl
  propagate_entries_dS virtual_move_adjacency.

End VirtualMovePurity.

(** C4, refuted as stated: after [reset_partition_stats] the state holds no
    partition statistics, and a [virtual_move] that asks for the partition
    description length builds them: the partition statistics are not the
    same before and after the call. *)
Lemma virtual_move_rebuilds_stats :
  _partition_stats stale_stats_state = []
  /\ _partition_stats
       (@virtual_move ps_model_stats externals_model 0 (Some 0%nat)
          (Some 1%nat) ea_partition triangle stale_stats_state []).2.1
     <> _partition_stats stale_stats_state.
Proof. split; vm_compute; [reflexivity | discriminate]. Qed.

Section BlockWeight.

(** Changing the weight of vertex [i] moves the weight of its block by the
    difference. *)
Lemma block_weight_insert (b : list nat) :
  forall (vw : list Z) (i : nat) (w : Z) (s : nat),
    (i < length b)%nat -> (i < length vw)%nat ->
    block_weight b (<[ i := w ]> vw) s
    = block_weight b vw s
      + (if decide (b !!! i = s) then w - vw !!! i else 0).
Proof.
  induction b as [|bi b IH]; intros [|wi vw] i w s Hb Hv; simpl in *;
    try lia.
  destruct i as [|i]; simpl.
  - destruct (decide (bi = s)); lia.
  - rewrite IH by lia. destruct (decide (bi = s)); lia.
Qed.

Lemma block_weight_nonneg (b : list nat) :
  forall (vw : list Z) (s : nat),
    Forall (fun w => 0 <= w) vw -> 0 <= block_weight b vw s.
Proof.
  induction b as [|bi b IH]; intros [|wi vw] s Hvw; simpl; try lia.
  inversion Hvw as [|? ? Hw Hrest]; subst. specialize (IH vw s Hrest).
  destruct (decide (bi = s)); lia.
Qed.

(** The weight of a vertex is part of the weight of its block. *)
Lemma block_weight_ge (b : list nat) :
  forall (vw : list Z) (i : nat),
    Forall (fun w => 0 <= w) vw ->
    (i < length b)%nat -> (i < length vw)%nat ->
    vw !!! i <= block_weight b vw (b !!! i).
Proof.
  induction b as [|bi b IH]; intros [|wi vw] i Hvw Hb Hv; simpl in *;
    try lia.
  inversion Hvw as [|? ? Hw Hrest]; subst.
  destruct i as [|i]; simpl.
  - rewrite decide_True by done.
    pose proof (block_weight_nonneg b vw bi Hrest). lia.
  - specialize (IH vw i Hrest). destruct (decide (bi = b !!! i)); lia.
Qed.

(** A new weightless vertex at the end changes no block weight. *)
Lemma block_weight_snoc (b : list nat) :
  forall (vw : list Z) (x s : nat),
    length b = length vw ->
    block_weight (b ++ [x]) (vw ++ [0]) s = block_weight b vw s.
Proof.
  induction b as [|bi b IH]; intros [|wi vw] x s Hlen; simpl in *;
    try discriminate.
  - destruct (decide (x = s)); lia.
  - rewrite IH by lia. reflexivity.
Qed.

End BlockWeight.

Section Invariants.

Context `{PartitionStats} `{!Externals} `{!ApplyDelta}.

(** I4, block by block. *)
Lemma I4_pointwise (l : BlockState) :
  I4 l <->
  (forall r, r ∈ _empty_groups l \/ r ∈ _candidate_groups l
             <-> (r < _B l)%nat)
  /\ (forall r, r ∈ _empty_groups l -> r ∈ _candidate_groups l -> False)
  /\ (forall r, (r < _B l)%nat ->
                (r ∈ _empty_groups l <-> _wr l !!! r = 0)).
Proof.
  unfold I4. rewrite Forall_forall.
  split.
  - intros (Hcover & Hdisj & Hzero). split; [|split].
    + intros r. rewrite <- elem_of_union, Hcover, elem_of_set_seq. lia.
    + intros r He Hc.
      assert (Hin : r ∈ _empty_groups l ∩ _candidate_groups l)
        by (apply elem_of_intersection; done).
      rewrite Hdisj in Hin. by apply not_elem_of_empty in Hin.
    + intros r Hr. apply Hzero, elem_of_seq. lia.
  - intros (Hcover & Hdisj & Hzero). split; [|split].
    + apply set_eq. intros r.
      rewrite elem_of_union, elem_of_set_seq, Hcover. lia.
    + apply set_eq. intros r. rewrite elem_of_intersection.
      split; [intros [He Hc]; destruct (Hdisj r He Hc) | set_solver].
    + intros r Hr. apply Hzero. apply elem_of_seq in Hr. lia.
Qed.

(** The level an operation runs on does not depend on its coupled chain. *)
Lemma remove_partition_node_view (g : graph_t) (v r : nat) (l : BlockState)
    (cs : list BlockState) :
  let l' := (remove_partition_node g v r l cs).1 in
  let vw := _vweight l !!! v in
  let emptied := (0 <? vw) && (_wr l !!! r =? vw) in
  _b l' = _b l /\ _vweight l' = _vweight l /\ _B l' = _B l
  /\ _wr l' = <[ r := _wr l !!! r - vw ]> (_wr l)
  /\ _empty_groups l'
     = (if emptied then {[ r ]} ∪ _empty_groups l else _empty_groups l)
  /\ _candidate_groups l'
     = (if emptied then _candidate_groups l ∖ {[ r ]}
        else _candidate_groups l).
Proof.
  destruct cs as [|h rest]; simpl; unfold get_partition_stats; simpl;
    repeat case_match; simpl; repeat split; reflexivity.
Qed.

Lemma add_partition_node_view (g : graph_t) (v r : nat) (l : BlockState)
    (cs : list BlockState) :
  let l' := (add_partition_node g v r l cs).1 in
  let vw := _vweight l !!! v in
  let wr' := <[ r := _wr l !!! r + vw ]> (_wr l) in
  let occupied := (0 <? vw) && (wr' !!! r =? vw) in
  _b l' = <[ v := r ]> (_b l) /\ _vweight l' = _vweight l /\ _B l' = _B l
  /\ _wr l' = wr'
  /\ _empty_groups l'
     = (if occupied then _empty_groups l ∖ {[ r ]} else _empty_groups l)
  /\ _candidate_groups l'
     = (if occupied then {[ r ]} ∪ _candidate_groups l
        else _candidate_groups l).
Proof.
  destruct cs as [|h rest]; simpl; unfold get_partition_stats; simpl;
    repeat case_match; simpl in *; simplify_eq; repeat split;
    try reflexivity; congruence.
Qed.

Lemma nonneg_total (l : list Z) (i : nat) :
  Forall (fun w => 0 <= w) l -> 0 <= l !!! i.
Proof.
  intros Hl. destruct (decide (i < length l)%nat) as [Hi|Hi].
  - by apply (Forall_lookup_total_1 _ l i Hl).
  - rewrite list_lookup_total_alt, lookup_ge_None_2 by lia. done.
Qed.

Lemma level_ok_pointwise (l : BlockState) :
  level_ok l <->
  (forall r, r ∈ _empty_groups l \/ r ∈ _candidate_groups l
             <-> (r < _B l)%nat)
  /\ (forall r, r ∈ _empty_groups l -> r ∈ _candidate_groups l -> False)
  /\ (forall r, (r < _B l)%nat ->
                (r ∈ _empty_groups l <-> _wr l !!! r = 0))
  /\ length (_wr l) = _B l
  /\ Forall (fun w => 0 <= w) (_wr l)
  /\ Forall (fun w => 0 <= w) (_vweight l).
Proof. unfold level_ok. rewrite I4_pointwise. tauto. Qed.

Lemma coupled_ok_pointwise (l h : BlockState) :
  coupled_ok l h <->
  length (_b h) = _B l /\ length (_vweight h) = _B l /\ (0 < _B h)%nat
  /\ (forall r, (r < _B l)%nat -> (_b h !!! r < _B h)%nat)
  /\ (forall r, (r < _B l)%nat -> _wr l !!! r = 0 -> _vweight h !!! r = 0)
  /\ (forall s, (s < _B h)%nat ->
                _wr h !!! s = block_weight (_b h) (_vweight h) s).
Proof.
  unfold coupled_ok. rewrite !Forall_seq, Forall_lookup_total.
  split.
  - intros (Hb & Hv & HB & Hlab & Hz & Hs). rewrite Hb in Hlab.
    repeat split; auto with lia.
  - intros (Hb & Hv & HB & Hlab & Hz & Hs). rewrite Hb.
    repeat split; auto with lia.
Qed.

(** The invariants read a level through [node_view] only. *)
Lemma level_ok_view (l l' : BlockState) :
  node_view l = node_view l' -> level_ok l -> level_ok l'.
Proof.
  unfold node_view, level_ok, I4. intros [= Hb Hv Hw HB Hc He].
  by rewrite Hv, Hw, HB, Hc, He.
Qed.

Lemma coupled_ok_view (l l' h h' : BlockState) :
  node_view l = node_view l' -> node_view h = node_view h' ->
  coupled_ok l h -> coupled_ok l' h'.
Proof.
  unfold node_view, coupled_ok.
  intros [= Hb Hv Hw HB Hc He] [= Hb' Hv' Hw' HB' Hc' He'].
  by rewrite Hw, HB, Hb', Hv', Hw', HB'.
Qed.

Lemma hier_ok_view (cs : list BlockState) :
  forall (cs' : list BlockState) (l l' : BlockState),
    node_view <$> (l :: cs) = node_view <$> (l' :: cs') ->
    hier_ok l cs -> hier_ok l' cs'.
Proof.
  induction cs as [|h rest IH]; intros [|h' rest'] l l' Hview;
    try discriminate Hview; rewrite !fmap_cons in Hview.
  - remember (node_view l) as a eqn:Ea. remember (node_view l') as a' eqn:Ea'.
    injection Hview as ->. subst.
    intros [Hl _]. split; [by eapply level_ok_view|done].
  - remember (node_view l) as a eqn:Ea. remember (node_view l') as a' eqn:Ea'.
    remember (node_view h) as c eqn:Ec. remember (node_view h') as c' eqn:Ec'.
    injection Hview as -> -> Hrest. subst.
    intros (Hl & Hc & Hh). split; [by eapply level_ok_view|].
    split; [by eapply coupled_ok_view|].
    eapply IH; [|exact Hh]. rewrite !fmap_cons. by f_equal.
Qed.

(** Removing a counted vertex keeps a level well formed. *)
Lemma remove_level_ok (g : graph_t) (v r : nat) (l : BlockState)
    (cs : list BlockState) :
  level_ok l -> (r < _B l)%nat -> _vweight l !!! v <= _wr l !!! r ->
  level_ok (remove_partition_node g v r l cs).1.
Proof.
  rewrite !level_ok_pointwise.
  intros (Hcover & Hdisj & Hzero & Hlen & Hwr & Hvw) Hr Hle.
  destruct (remove_partition_node_view g v r l cs)
    as (Eb & Ev & EB & Ew & Ee & Ec).
  rewrite Ev, EB, Ew, Ee, Ec. clear Eb Ev EB Ew Ee Ec.
  pose proof (nonneg_total _ v Hvw) as Hv0.
  pose proof (nonneg_total _ r Hwr) as Hw0.
  assert (Hcase :
    ((0 <? _vweight l !!! v) && (_wr l !!! r =? _vweight l !!! v) = true
     /\ 0 < _vweight l !!! v /\ _wr l !!! r = _vweight l !!! v)
    \/ ((0 <? _vweight l !!! v) && (_wr l !!! r =? _vweight l !!! v) = false
        /\ (_vweight l !!! v = 0 \/ _wr l !!! r <> _vweight l !!! v))).
  { destruct (Z.ltb_spec 0 (_vweight l !!! v)),
      (Z.eqb_spec (_wr l !!! r) (_vweight l !!! v)); simpl; auto with lia. }
  rewrite length_insert.
  split; [|split; [|split; [|split; [done|split; [|done]]]]].
  - intros r0. destruct Hcase as [(-> & _ & _)|(-> & _)]; [|apply Hcover].
    rewrite elem_of_union, elem_of_singleton, elem_of_difference,
      elem_of_singleton.
    specialize (Hcover r0). destruct (decide (r0 = r)); subst; tauto.
  - intros r0. destruct Hcase as [(-> & _ & _)|(-> & _)]; [|apply Hdisj].
    rewrite elem_of_union, elem_of_singleton, elem_of_difference,
      elem_of_singleton.
    specialize (Hdisj r0). tauto.
  - intros r0 Hr0. specialize (Hzero r0 Hr0).
    destruct (decide (r0 = r)) as [->|Hne].
    + rewrite list_lookup_total_insert_eq by lia.
      destruct Hcase as [(-> & Hpos & Heq)|(-> & Hor)].
      * rewrite elem_of_union, elem_of_singleton. split; [lia|auto].
      * rewrite Hzero. lia.
    + rewrite list_lookup_total_insert_ne by done.
      destruct Hcase as [(-> & Hpos & Heq)|(-> & Hor)]; [|done].
      rewrite elem_of_union, elem_of_singleton. tauto.
  - apply Forall_insert; [done|lia].
Qed.

(** Adding a vertex keeps a level well formed. *)
Lemma add_level_ok (g : graph_t) (v r : nat) (l : BlockState)
    (cs : list BlockState) :
  level_ok l -> (r < _B l)%nat ->
  level_ok (add_partition_node g v r l cs).1.
Proof.
  rewrite !level_ok_pointwise.
  intros (Hcover & Hdisj & Hzero & Hlen & Hwr & Hvw) Hr.
  destruct (add_partition_node_view g v r l cs)
    as (Eb & Ev & EB & Ew & Ee & Ec).
  rewrite Ev, EB, Ew, Ee, Ec. clear Eb Ev EB Ew Ee Ec.
  pose proof (nonneg_total _ v Hvw) as Hv0.
  pose proof (nonneg_total _ r Hwr) as Hw0.
  rewrite list_lookup_total_insert_eq by lia.
  assert (Hcase :
    ((0 <? _vweight l !!! v)
     && (_wr l !!! r + _vweight l !!! v =? _vweight l !!! v) = true
     /\ 0 < _vweight l !!! v /\ _wr l !!! r = 0)
    \/ ((0 <? _vweight l !!! v)
        && (_wr l !!! r + _vweight l !!! v =? _vweight l !!! v) = false
        /\ (_vweight l !!! v = 0 \/ _wr l !!! r <> 0))).
  { destruct (Z.ltb_spec 0 (_vweight l !!! v)),
      (Z.eqb_spec (_wr l !!! r + _vweight l !!! v) (_vweight l !!! v));
      simpl; auto with lia. }
  rewrite length_insert.
  split; [|split; [|split; [|split; [done|split; [|done]]]]].
  - intros r0. destruct Hcase as [(-> & _ & _)|(-> & _)]; [|apply Hcover].
    rewrite elem_of_union, elem_of_singleton, elem_of_difference,
      elem_of_singleton.
    specialize (Hcover r0). destruct (decide (r0 = r)); subst; tauto.
  - intros r0. destruct Hcase as [(-> & _ & _)|(-> & _)]; [|apply Hdisj].
    rewrite elem_of_union, elem_of_singleton, elem_of_difference,
      elem_of_singleton.
    specialize (Hdisj r0). tauto.
  - intros r0 Hr0. specialize (Hzero r0 Hr0).
    destruct (decide (r0 = r)) as [->|Hne].
    + rewrite list_lookup_total_insert_eq by lia.
      destruct Hcase as [(-> & Hpos & Heq)|(-> & Hor)].
      * rewrite elem_of_difference, elem_of_singleton. split; [tauto|lia].
      * rewrite Hzero. lia.
    + rewrite list_lookup_total_insert_ne by done.
      destruct Hcase as [(-> & Hpos & Heq)|(-> & Hor)]; [|done].
      rewrite elem_of_difference, elem_of_singleton. tauto.
  - apply Forall_insert; [done|lia].
Qed.

Lemma hier_ok_set_vertex_weight (h : BlockState) (rest : list BlockState)
    (r : nat) (w : Z) :
  hier_ok h rest -> 0 <= w -> hier_ok (set_vertex_weight r w h) rest.
Proof.
  intros Hok Hw.
  assert (Hlevel : level_ok h -> level_ok (set_vertex_weight r w h)).
  { unfold level_ok, I4. simpl. intros (HI & Hlen & Hwr & Hvw).
    repeat split; try tauto. by apply Forall_insert. }
  destruct rest as [|h2 rest]; simpl in *.
  - split; [tauto|done].
  - destruct Hok as (Hl & Hc & Hh). split; [auto|]. split; [exact Hc|done].
Qed.

(** What [remove_partition_node] does to the coupled chain. *)
Lemma remove_partition_node_coupled (g : graph_t) (v r : nat)
    (l h : BlockState) (rest : list BlockState) :
  (remove_partition_node g v r l (h :: rest)).2
  = if (0 <? _vweight l !!! v) && (_wr l !!! r =? _vweight l !!! v)
    then set_vertex_weight r 0
           (remove_partition_node (bg_of g l) r (_b h !!! r) h rest).1
         :: (remove_partition_node (bg_of g l) r (_b h !!! r) h rest).2
    else h :: rest.
Proof.
  cbn [remove_partition_node].
  destruct ((0 <? _vweight l !!! v) && (_wr l !!! r =? _vweight l !!! v)).
  - change (bg_of g (set_empty_groups _ (set_candidate_groups _ l)))
      with (bg_of g l).
    fold remove_partition_node.
    destruct (remove_partition_node (bg_of g l) r (_b h !!! r) h rest)
      as [h1 rest1].
    by destruct (get_partition_stats g v _).
  - by destruct (get_partition_stats g v _).
Qed.

Lemma remove_partition_node_nil (g : graph_t) (v r : nat) (l : BlockState) :
  (remove_partition_node g v r l []).2 = [].
Proof.
  cbn [remove_partition_node].
  destruct ((0 <? _vweight l !!! v) && (_wr l !!! r =? _vweight l !!! v));
    by destruct (get_partition_stats g v _).
Qed.

(** [remove_partition_node] keeps a hierarchy well formed. *)
Lemma remove_partition_node_hier (cs : list BlockState) :
  forall (g : graph_t) (v r : nat) (l : BlockState),
    hier_ok l cs -> (r < _B l)%nat -> _vweight l !!! v <= _wr l !!! r ->
    hier_ok (remove_partition_node g v r l cs).1
            (remove_partition_node g v r l cs).2.
Proof.
  induction cs as [|h rest IH]; intros g v r l Hok Hr Hle.
  - destruct Hok as [Hl _]. rewrite remove_partition_node_nil.
    split; [by apply remove_level_ok|done].
  - destruct Hok as (Hl & Hc & Hh).
    pose proof (remove_level_ok g v r l (h :: rest) Hl Hr Hle) as Hl'.
    destruct (remove_partition_node_view g v r l (h :: rest))
      as (Eb & Ev & EB & Ew & Ee & Ec).
    rewrite remove_partition_node_coupled.
    remember (remove_partition_node g v r l (h :: rest)).1 as l' eqn:El'.
    clear El'.
    apply level_ok_pointwise in Hl
      as (_ & _ & _ & Hlen & Hwr & Hvw).
    pose proof (nonneg_total _ v Hvw) as Hv0.
    apply coupled_ok_pointwise in Hc
      as (Hhb & Hhv & HhB & Hlab & Hz & Hsum).
    assert (Hhl : level_ok h) by (destruct rest; simpl in Hh; tauto).
    apply level_ok_pointwise in Hhl
      as (_ & _ & _ & Hhlen & Hhwr & Hhvw).
    destruct (Z.ltb_spec 0 (_vweight l !!! v)) as [Hpos|Hnpos];
      [destruct (Z.eqb_spec (_wr l !!! r) (_vweight l !!! v)) as [Heq|Hne]|];
      simpl.
    + (* the block is emptied: the coupled state drops the vertex [r] *)
      assert (HR : (_b h !!! r < _B h)%nat) by auto.
      assert (Hpre : _vweight h !!! r <= _wr h !!! (_b h !!! r)).
      { rewrite Hsum by done. apply block_weight_ge; [done|lia|lia]. }
      specialize (IH (bg_of g l) r (_b h !!! r) h Hh HR Hpre).
      destruct (remove_partition_node_view (bg_of g l) r (_b h !!! r) h rest)
        as (Fb & Fv & FB & Fw & _ & _).
      remember (remove_partition_node (bg_of g l) r (_b h !!! r) h rest)
        as hr eqn:Ehr. clear Ehr.
      split; [exact Hl'|]. split.
      * apply coupled_ok_pointwise. simpl.
        rewrite Fb, Fv, FB, Fw, EB, Ew, length_insert.
        repeat split; try done.
        -- intros r0 Hr0. destruct (decide (r0 = r)) as [->|Hn].
           ++ intros _. by rewrite list_lookup_total_insert_eq by lia.
           ++ rewrite !list_lookup_total_insert_ne by done. auto.
        -- intros s Hs.
           rewrite block_weight_insert by lia.
           destruct (decide (_b h !!! r = s)) as [<-|Hn].
           ++ rewrite list_lookup_total_insert_eq by lia.
              rewrite Hsum by done. lia.
           ++ rewrite list_lookup_total_insert_ne by done.
              rewrite Hsum by done. lia.
      * by apply hier_ok_set_vertex_weight.
    + (* the block keeps some weight: the coupled state is untouched *)
      split; [exact Hl'|]. split; [|exact Hh].
      apply coupled_ok_pointwise. rewrite EB, Ew.
      repeat split; try done.
      intros r0 Hr0. destruct (decide (r0 = r)) as [->|Hn].
      * rewrite list_lookup_total_insert_eq by lia. lia.
      * rewrite list_lookup_total_insert_ne by done. auto.
    + split; [exact Hl'|]. split; [|exact Hh].
      apply coupled_ok_pointwise. rewrite EB, Ew.
      repeat split; try done.
      intros r0 Hr0. destruct (decide (r0 = r)) as [->|Hn].
      * rewrite list_lookup_total_insert_eq by lia.
        assert (_vweight l !!! v = 0) as -> by lia.
        rewrite Z.sub_0_r. auto.
      * rewrite list_lookup_total_insert_ne by done. auto.
Qed.

Lemma get_partition_stats_fields (g : graph_t) (v : nat) (l : BlockState) :
  let l' := (get_partition_stats g v l).2 in
  _b l' = _b l /\ _vweight l' = _vweight l /\ _wr l' = _wr l
  /\ _deg_corr l' = _deg_corr l /\ _degs l' = _degs l
  /\ (forall g', bg_of g' l' = bg_of g' l).
Proof.
  pose proof (get_partition_stats_counters g v l) as Hc.
  repeat split.
  - by apply (f_equal _b) in Hc.
  - by apply (f_equal _vweight) in Hc.
  - by apply (f_equal _wr) in Hc.
  - by apply (f_equal _deg_corr) in Hc.
  - by apply (f_equal _degs) in Hc.
  - intros g'. by apply (f_equal (bg_of g')) in Hc.
Qed.

(** What [add_partition_node] does to the coupled chain. *)
Lemma add_partition_node_coupled (g : graph_t) (v r : nat)
    (l h : BlockState) (rest : list BlockState) :
  (add_partition_node g v r l (h :: rest)).2
  = if (0 <? _vweight l !!! v)
       && ((<[ r := _wr l !!! r + _vweight l !!! v ]> (_wr l)) !!! r
           =? _vweight l !!! v)
    then (add_partition_node (bg_of g l) r (_b h !!! r)
            (set_vertex_weight r 1 h) rest).1
         :: (add_partition_node (bg_of g l) r (_b h !!! r)
               (set_vertex_weight r 1 h) rest).2
    else h :: rest.
Proof.
  cbn [add_partition_node].
  set (l2 := set_wr _ (set_b _ l)).
  destruct (get_partition_stats_fields g v l2)
    as (_ & _ & Hw & _ & _ & Hbg).
  destruct (get_partition_stats g v l2) as [c l3]. cbn [snd] in Hw, Hbg.
  change (_vweight (set_b (fun b => <[ v := r ]> b) l)) with (_vweight l).
  set (l4 := set_partition_stats _ l3).
  change (_wr l4) with (_wr l3). rewrite Hw.
  change (_wr l2) with (<[ r := _wr l !!! r + _vweight l !!! v ]> (_wr l)).
  destruct ((0 <? _vweight l !!! v) && _); [|reflexivity].
  set (l5 := set_candidate_groups _ (set_empty_groups _ l4)).
  change (bg_of g l5) with (bg_of g l3). rewrite Hbg.
  change (bg_of g l2) with (bg_of g l).
  fold add_partition_node.
  by destruct (add_partition_node (bg_of g l) r (_b h !!! r)
                 (set_vertex_weight r 1 h) rest).
Qed.

Lemma add_partition_node_nil (g : graph_t) (v r : nat) (l : BlockState) :
  (add_partition_node g v r l []).2 = [].
Proof.
  cbn [add_partition_node].
  destruct (get_partition_stats g v _).
  by destruct ((0 <? _) && _).
Qed.

(** [add_partition_node] keeps a hierarchy well formed. *)
Lemma add_partition_node_hier (cs : list BlockState) :
  forall (g : graph_t) (v r : nat) (l : BlockState),
    hier_ok l cs -> (r < _B l)%nat ->
    hier_ok (add_partition_node g v r l cs).1
            (add_partition_node g v r l cs).2.
Proof.
  induction cs as [|h rest IH]; intros g v r l Hok Hr.
  - destruct Hok as [Hl _]. rewrite add_partition_node_nil.
    split; [by apply add_level_ok|done].
  - destruct Hok as (Hl & Hc & Hh).
    pose proof (add_level_ok g v r l (h :: rest) Hl Hr) as Hl'.
    destruct (add_partition_node_view g v r l (h :: rest))
      as (Eb & Ev & EB & Ew & Ee & Ec).
    rewrite add_partition_node_coupled.
    remember (add_partition_node g v r l (h :: rest)).1 as l' eqn:El'.
    clear El'.
    apply level_ok_pointwise in Hl
      as (_ & _ & _ & Hlen & Hwr & Hvw).
    pose proof (nonneg_total _ v Hvw) as Hv0.
    pose proof (nonneg_total _ r Hwr) as Hw0.
    apply coupled_ok_pointwise in Hc
      as (Hhb & Hhv & HhB & Hlab & Hz & Hsum).
    assert (Hhl : level_ok h) by (destruct rest; simpl in Hh; tauto).
    apply level_ok_pointwise in Hhl
      as (_ & _ & _ & Hhlen & Hhwr & Hhvw).
    rewrite list_lookup_total_insert_eq by lia.
    destruct (Z.ltb_spec 0 (_vweight l !!! v)) as [Hpos|Hnpos];
      [destruct (Z.eqb_spec (_wr l !!! r + _vweight l !!! v)
                   (_vweight l !!! v)) as [Heq|Hne]|];
      simpl.
    + (* the block becomes occupied: the coupled state gains the vertex *)
      assert (HR : (_b h !!! r < _B h)%nat) by auto.
      assert (Hh1 : hier_ok (set_vertex_weight r 1 h) rest)
        by (by apply hier_ok_set_vertex_weight).
      specialize (IH (bg_of g l) r (_b h !!! r) (set_vertex_weight r 1 h)
                    Hh1 HR).
      destruct (add_partition_node_view (bg_of g l) r (_b h !!! r)
                  (set_vertex_weight r 1 h) rest)
        as (Fb & Fv & FB & Fw & _ & _).
      remember (add_partition_node (bg_of g l) r (_b h !!! r)
                  (set_vertex_weight r 1 h) rest) as ha eqn:Eha.
      clear Eha. simpl in Fb, Fv, FB, Fw.
      rewrite list_lookup_total_insert_eq in Fw by lia.
      rewrite list_insert_id in Fb
        by (rewrite list_lookup_lookup_total_lt by lia; done).
      split; [exact Hl'|]. split; [|exact IH].
      apply coupled_ok_pointwise.
      rewrite Fb, Fv, FB, Fw, EB, Ew, length_insert.
      repeat split; try done.
      * intros r0 Hr0. destruct (decide (r0 = r)) as [->|Hn].
        -- rewrite list_lookup_total_insert_eq by lia. lia.
        -- rewrite !list_lookup_total_insert_ne by done. auto.
      * intros s Hs.
        rewrite block_weight_insert by lia.
        assert (Hzero : _vweight h !!! r = 0) by (apply Hz; [done|lia]).
        destruct (decide (_b h !!! r = s)) as [<-|Hn].
        -- rewrite list_lookup_total_insert_eq by lia.
           rewrite Hsum by done. lia.
        -- rewrite list_lookup_total_insert_ne by done.
           rewrite Hsum by done. lia.
    + split; [exact Hl'|]. split; [|exact Hh].
      apply coupled_ok_pointwise. rewrite EB, Ew.
      repeat split; try done.
      intros r0 Hr0. destruct (decide (r0 = r)) as [->|Hn].
      * rewrite list_lookup_total_insert_eq by lia. lia.
      * rewrite list_lookup_total_insert_ne by done. auto.
    + split; [exact Hl'|]. split; [|exact Hh].
      apply coupled_ok_pointwise. rewrite EB, Ew.
      repeat split; try done.
      intros r0 Hr0. destruct (decide (r0 = r)) as [->|Hn].
      * rewrite list_lookup_total_insert_eq by lia.
        assert (_vweight l !!! v = 0) as -> by lia.
        rewrite Z.add_0_r. auto.
      * rewrite list_lookup_total_insert_ne by done. auto.
Qed.

Lemma growing_ok_0 (l : BlockState) (cs : list BlockState) :
  growing_ok 0 l cs <-> hier_ok l cs.
Proof.
  unfold growing_ok. destruct cs; simpl; unfold level_ok;
    rewrite Nat.add_0_r; tauto.
Qed.

Lemma resize_snoc {A : Type} (x : A) (l : list A) :
  resize (S (length l)) x l = l ++ [x].
Proof.
  rewrite resize_spec, firstn_all2 by lia.
  replace (S (length l) - length l)%nat with 1%nat by lia. reflexivity.
Qed.

Lemma add_block_step_ok (g : graph_t) (k : nat) (l : BlockState)
    (cs : list BlockState) :
  growing_ok (S k) l cs ->
  growing_ok k (add_block_step g l cs).1 (add_block_step g l cs).2.
Proof.
  intros (HI & Hlen & Hwr & Hvw & Hcs).
  apply I4_pointwise in HI as (Hcover & Hdisj & Hzero).
  unfold growing_ok, add_block_step. cbn [fst snd].
  assert (Hfields :
    forall l0 : BlockState,
      l0 = (if directed g
            then set_mrm (fun m => <[ _B l := 0 ]> m)
                   (set_wr (fun wr => <[ _B l := 0 ]> wr) (set_B S l))
            else set_wr (fun wr => <[ _B l := 0 ]> wr) (set_B S l)) ->
      _B l0 = S (_B l) /\ _wr l0 = <[ _B l := 0 ]> (_wr l)
      /\ _vweight l0 = _vweight l /\ _empty_groups l0 = _empty_groups l
      /\ _candidate_groups l0 = _candidate_groups l).
  { intros l0 ->. by destruct (directed g). }
  specialize (Hfields _ eq_refl) as (EB & Ew & Ev & Ee & Ec).
  set (l0 := if directed g then _ else _) in *. clearbody l0.
  split; [|split; [|split; [|split]]].
  - apply I4_pointwise. simpl. rewrite EB, Ew, Ee, Ec.
    split; [|split].
    + intros r. rewrite elem_of_union, elem_of_singleton.
      specialize (Hcover r). split.
      * intros [[->|He]|Hc]; [lia| |];
          (assert (r < _B l)%nat by (apply Hcover; auto); lia).
      * intros Hr. destruct (decide (r = _B l)) as [->|Hne]; [auto|].
        assert (Hr' : (r < _B l)%nat) by lia. apply Hcover in Hr'. tauto.
    + intros r. rewrite elem_of_union, elem_of_singleton.
      intros [->|He] Hc; [|by eapply Hdisj].
      assert (_B l < _B l)%nat; [|lia]. apply Hcover. by right.
    + intros r Hr. rewrite elem_of_union, elem_of_singleton.
      destruct (decide (r = _B l)) as [->|Hne].
      * rewrite list_lookup_total_insert_eq by lia. tauto.
      * rewrite list_lookup_total_insert_ne by done.
        assert (Hr' : (r < _B l)%nat) by lia.
        specialize (Hzero r Hr'). tauto.
  - simpl. rewrite EB, Ew, length_insert. lia.
  - simpl. rewrite Ew. by apply Forall_insert.
  - simpl. by rewrite Ev.
  - destruct cs as [|h rest]; [done|].
    destruct Hcs as (Hc & Hh).
    apply coupled_ok_pointwise in Hc
      as (Hhb & Hhv & HhB & Hlab & Hz & Hsum).
    assert (Hhl : level_ok h) by (destruct rest; simpl in Hh; tauto).
    set (l1 := set_partition_stats _ (set_empty_groups _ (set_mrp _ l0))).
    assert (Hn : num_vertices (bg_of g l1) = S (_B l)) by exact EB.
    assert (Eb' : _b (coupled_resize_vertex (bg_of g l1) (_B l) h)
                  = _b h ++ [0%nat]).
    { simpl. rewrite EB, <- Hhb. apply resize_snoc. }
    assert (Ev' : _vweight (coupled_resize_vertex (bg_of g l1) (_B l) h)
                  = _vweight h ++ [0]).
    { simpl. rewrite EB, <- Hhv, resize_snoc.
      rewrite insert_app_r_alt by lia.
      by replace (length (_vweight h) - length (_vweight h))%nat
        with 0%nat by lia. }
    split.
    + apply coupled_ok_pointwise. rewrite Eb', Ev', !length_app.
      simpl. rewrite EB, Ew.
      repeat split; try lia; try done.
      * intros r Hr. destruct (decide (r = _B l)) as [->|Hne].
        -- rewrite lookup_total_app_r by lia.
           by replace (_B l - length (_b h))%nat with 0%nat by lia.
        -- rewrite lookup_total_app_l by lia. apply Hlab. lia.
      * intros r Hr. destruct (decide (r = _B l)) as [->|Hne].
        -- intros _. rewrite lookup_total_app_r by lia.
           by replace (_B l - length (_vweight h))%nat with 0%nat by lia.
        -- rewrite list_lookup_total_insert_ne by done.
           rewrite lookup_total_app_l by lia. apply Hz. lia.
      * intros s Hs. rewrite block_weight_snoc by lia. by apply Hsum.
    + assert (Hlevel : level_ok
                (coupled_resize_vertex (bg_of g l1) (_B l) h)).
      { unfold level_ok, I4 in *. rewrite Ev'. simpl.
        destruct Hhl as (? & ? & ? & ?). repeat split; try tauto.
        apply Forall_app. split; [done|]. by repeat constructor. }
      destruct rest as [|h2 rest]; simpl in *; [tauto|].
      destruct Hh as (_ & Hc2 & Hh2). split; [done|]. split; [|done].
      exact Hc2.
Qed.

Lemma add_block_iter_ok (g : graph_t) (n k : nat) :
  forall (l : BlockState) (cs : list BlockState),
    growing_ok (n + k) l cs ->
    growing_ok k
      (Nat.iter n (fun st => add_block_step g st.1 st.2) (l, cs)).1
      (Nat.iter n (fun st => add_block_step g st.1 st.2) (l, cs)).2.
Proof.
  revert k. induction n as [|n IH]; intros k l cs Hok; [exact Hok|].
  simpl. apply add_block_step_ok. apply IH.
  by replace (n + S k)%nat with (S n + k)%nat by lia.
Qed.

(** [add_block] keeps a hierarchy well formed. *)
Lemma add_block_hier (n : nat) (g : graph_t) (l : BlockState)
    (cs : list BlockState) :
  hier_ok l cs ->
  hier_ok (add_block n g l cs).2.1 (add_block n g l cs).2.2.
Proof.
  intros Hok. unfold add_block. cbn [snd].
  apply growing_ok_0. apply add_block_iter_ok.
  apply growing_ok_0 in Hok.
  destruct Hok as (HI & Hlen & Hwr & Hvw & Hcs).
  rewrite Nat.add_0_r in Hlen.
  assert (Hfields :
    forall l0 : BlockState,
      l0 = (if directed g
            then set_mrm (resize (_B l + n) 0)
                   (set_wr (resize (_B l + n) 0) l)
            else set_wr (resize (_B l + n) 0) l) ->
      node_view l0
      = (_b l, _vweight l, resize (_B l + n) 0 (_wr l), _B l,
         _candidate_groups l, _empty_groups l)).
  { intros l0 ->. by destruct (directed g). }
  specialize (Hfields _ eq_refl).
  set (l0 := if directed g then _ else _) in *. clearbody l0.
  set (l1 := set_brecsum _ (set_bclabel _ (set_mrp _ l0))).
  assert (Hview : node_view l1
                  = (_b l, _vweight l, _wr l ++ replicate n 0, _B l,
                     _candidate_groups l, _empty_groups l)).
  { change (node_view l1) with (node_view l0). rewrite Hfields.
    by rewrite resize_ge, Hlen, Nat.add_sub' by lia. }
  clearbody l1. unfold node_view in Hview.
  injection Hview as Eb Ev Ew EB Ec Ee.
  unfold growing_ok. rewrite Nat.add_0_r.
  split; [|split; [|split; [|split]]].
  - unfold I4 in *. rewrite Ee, Ec, EB, Ew.
    destruct HI as (? & ? & Hz). repeat split; try done.
    apply Forall_seq. intros r Hr. rewrite Forall_seq in Hz.
    rewrite lookup_total_app_l by lia. apply Hz. lia.
  - rewrite Ew, EB, length_app, length_replicate. lia.
  - rewrite Ew. apply Forall_app. split; [done|].
    apply Forall_replicate. lia.
  - by rewrite Ev.
  - destruct cs as [|h rest]; [done|]. destruct Hcs as (Hc & Hh).
    split; [|done].
    apply coupled_ok_pointwise in Hc
      as (Hhb & Hhv & HhB & Hlab & Hz & Hsum).
    apply coupled_ok_pointwise. rewrite EB, Ew.
    repeat split; try done.
    intros r Hr. rewrite lookup_total_app_l by lia. by apply Hz.
Qed.

End Invariants.

Section ApplyDeltaModelFrame.

Context `{PartitionStats} `{!Externals}.

Lemma add_edge_view (cs : list BlockState) :
  forall (g : graph_t) (e : nat * nat) (l : BlockState),
    node_view <$> ((add_edge g e l cs).1 :: (add_edge g e l cs).2)
    = node_view <$> (l :: cs).
Proof.
  induction cs as [|h rest IH]; intros g e l; cbn [add_edge];
    destruct (_mrs l !! _) as [m|]; try reflexivity.
  set (l1 := set_bdrec _ _).
  specialize (IH (bg_of g l1) (canon (directed g) (_b l !!! e.1, _b l !!! e.2))
                h).
  destruct (add_edge _ _ h rest) as [h1 rest1]. cbn [fst snd] in *.
  rewrite !fmap_cons in *. by rewrite IH.
Qed.

Lemma remove_edge_bg_view (cs : list BlockState) :
  forall (g : graph_t) (e : nat * nat) (l : BlockState),
    node_view <$> ((remove_edge_bg g e l cs).1 :: (remove_edge_bg g e l cs).2)
    = node_view <$> (l :: cs).
Proof.
  induction cs as [|h rest IH]; intros g e l; cbn [remove_edge_bg];
    destruct (_mrs l !! _) as [[| |]|]; try reflexivity.
  set (l1 := set_mrs _ _).
  specialize (IH (bg_of g l1) (canon (directed g) (_b l !!! e.1, _b l !!! e.2))
                h).
  destruct (remove_edge_bg _ _ h rest) as [h1 rest1]. cbn [fst snd] in *.
  rewrite !fmap_cons in *. by rewrite IH.
Qed.

Lemma apply_entry_view (Add Remove : bool) (g : graph_t) (e : entry)
    (l : BlockState) :
  node_view (apply_entry Add Remove g e l).1 = node_view l.
Proof.
  unfold apply_entry. repeat case_match; reflexivity.
Qed.

Lemma apply_entries_view (Add Remove : bool) (g : graph_t)
    (es : list entry) :
  forall (l : BlockState) (cs : list BlockState),
    node_view <$> ((apply_entries Add Remove g es l cs).1
                   :: (apply_entries Add Remove g es l cs).2)
    = node_view <$> (l :: cs).
Proof.
  unfold apply_entries.
  induction es as [|e es IH]; intros l cs; [reflexivity|].
  cbn [foldl fst snd].
  pose proof (apply_entry_view Add Remove g e l) as He.
  destruct (apply_entry Add Remove g e l) as [l1 [created removed]].
  cbn [fst] in He.
  destruct cs as [|h rest].
  - rewrite IH. rewrite !fmap_cons. by rewrite He.
  - set (k := (en_r e, en_s e)).
    assert (Hc : exists h2 rest2,
               (let '(h1, rest1) :=
                  if created then add_edge (bg_of g l1) k h rest
                  else (h, rest) in
                let '(h2, rest2) :=
                  if removed then remove_edge_bg (bg_of g l1) k h1 rest1
                  else (h1, rest1) in
                h2 :: rest2) = h2 :: rest2
               /\ node_view <$> (h2 :: rest2) = node_view <$> (h :: rest)).
    { pose proof (add_edge_view rest (bg_of g l1) k h) as Ha.
      destruct (if created then add_edge (bg_of g l1) k h rest
                else (h, rest)) as [h1 rest1] eqn:E1.
      assert (Ha' : node_view <$> (h1 :: rest1) = node_view <$> (h :: rest)).
      { destruct created; [by rewrite E1 in Ha | by simplify_eq]. }
      pose proof (remove_edge_bg_view rest1 (bg_of g l1) k h1) as Hr.
      destruct (if removed then remove_edge_bg (bg_of g l1) k h1 rest1
                else (h1, rest1)) as [h2 rest2] eqn:E2.
      exists h2, rest2. split; [done|]. rewrite <- Ha'.
      destruct removed; [by rewrite E2 in Hr | by simplify_eq]. }
    destruct Hc as (h2 & rest2 & -> & Hview).
    rewrite IH. rewrite !fmap_cons in *. by rewrite He, Hview.
Qed.

Lemma apply_delta_fuel_view (fuel : nat) :
  forall (Add Remove : bool) (g : graph_t) (l : BlockState)
         (cs : list BlockState),
    node_view <$> ((apply_delta_fuel fuel Add Remove g l cs).1
                   :: (apply_delta_fuel fuel Add Remove g l cs).2)
    = node_view <$> (l :: cs).
Proof.
  induction fuel as [|fuel IH]; intros Add Remove g l cs; [reflexivity|].
  cbn [apply_delta_fuel].
  pose proof (apply_entries_view Add Remove g (_entries (_m_entries l)) l cs)
    as He.
  destruct (apply_entries Add Remove g (_entries (_m_entries l)) l cs)
    as [l1 cs1]. cbn [fst snd] in He.
  destruct cs1 as [|h rest]; [exact He|].
  destruct (if decide (_rt l1 = NONE) then _ else _) as [|p pe] eqn:Epe.
  - rewrite <- He. reflexivity.
  - unfold propagate_delta_with.
    match goal with
    | |- context [apply_delta_fuel fuel true true ?g' ?h' rest] =>
        specialize (IH true true g' h' rest);
        destruct (apply_delta_fuel fuel true true g' h' rest) as [h1 rest1]
    end.
    cbn [fst snd] in *. rewrite <- He.
    rewrite !fmap_cons in *. f_equal. exact IH.
Qed.

(** The modelled [apply_delta] leaves the node counters alone. *)
Lemma apply_delta_model_frame : @apply_delta_frame _ apply_delta_model.
Proof.
  intros Add Remove g l cs. apply apply_delta_fuel_view.
Qed.

End ApplyDeltaModelFrame.

Section PublicOperations.

Context `{PartitionStats} `{!Externals} `{!ApplyDelta}.
Hypothesis frame : apply_delta_frame.

Lemma node_view_fields (l l' : BlockState) :
  node_view l = node_view l' ->
  _b l = _b l' /\ _vweight l = _vweight l' /\ _wr l = _wr l'
  /\ _B l = _B l' /\ _candidate_groups l = _candidate_groups l'
  /\ _empty_groups l = _empty_groups l'.
Proof.
  unfold node_view. intros [= Hb Hv Hw HB Hc He]. tauto.
Qed.

(** [apply_delta] on a state whose head was only touched in its scratch
    buffer keeps the invariant and the node counters of the head. *)
Lemma apply_delta_hier (Add Remove : bool) (g : graph_t)
    (l l1 : BlockState) (cs : list BlockState) :
  node_view l1 = node_view l -> hier_ok l cs ->
  hier_ok (apply_delta Add Remove g l1 cs).1 (apply_delta Add Remove g l1 cs).2
  /\ node_view (apply_delta Add Remove g l1 cs).1 = node_view l.
Proof.
  intros Hview Hok. pose proof (frame Add Remove g l1 cs) as Hf.
  split.
  - eapply (hier_ok_view cs); [|exact Hok].
    rewrite Hf. rewrite !fmap_cons. by rewrite Hview.
  - rewrite !fmap_cons in Hf.
    remember (node_view (apply_delta Add Remove g l1 cs).1) as a.
    remember (node_view l1) as a1.
    injection Hf as -> _. subst. exact Hview.
Qed.

Lemma modify_vertex_hier (Add : bool) (v r : nat) (efilt : edge_t -> bool)
    (g : graph_t) (l : BlockState) (cs : list BlockState) :
  hier_ok l cs -> (r < _B l)%nat ->
  (Add = false -> _vweight l !!! v <= _wr l !!! r) ->
  hier_ok (modify_vertex Add v r efilt g l cs).1
          (modify_vertex Add v r efilt g l cs).2.
Proof.
  intros Hok Hr Hvw. unfold modify_vertex.
  set (l1 := if Add then _ else _).
  assert (Hl1 : node_view l1 = node_view l) by (subst l1; by destruct Add).
  destruct (apply_delta_hier Add (negb Add) g l l1 cs Hl1 Hok) as [Hok2 Hv2].
  destruct (apply_delta Add (negb Add) g l1 cs) as [l2 cs2].
  cbn [fst snd] in *.
  apply node_view_fields in Hv2 as (Hb & Hv & Hw & HB & _ & _).
  destruct Add.
  - apply add_partition_node_hier; [done|lia].
  - apply remove_partition_node_hier; [done|lia|].
    rewrite Hv, Hw. by apply Hvw.
Qed.

Lemma move_vertex_hier (v nr : nat) (g : graph_t) (l : BlockState)
    (cs : list BlockState) :
  hier_ok l cs -> (_b l !!! v < _B l)%nat -> (nr < _B l)%nat ->
  _vweight l !!! v <= _wr l !!! (_b l !!! v) ->
  hier_ok (move_vertex v nr g l cs).2.1 (move_vertex v nr g l cs).2.2.
Proof.
  intros Hok Hr Hnr Hvw. unfold move_vertex, move_vertex_from.
  set (r := _b l !!! v) in *.
  destruct (decide (r = nr)) as [_|Hne]; [exact Hok|].
  destruct (negb (allow_move r nr l cs)); [exact Hok|].
  cbn [snd]. unfold move_vertex_entries.
  destruct (decide (r = nr)) as [|_]; [done|].
  set (l1 := get_move_entries _ _ _ _ _ _).
  assert (Hl1 : node_view l1 = node_view l) by reflexivity.
  destruct (apply_delta_hier true true g l l1 cs Hl1 Hok) as [Hok2 Hv2].
  destruct (apply_delta true true g l1 cs) as [l2 cs2].
  cbn [fst snd] in *.
  apply node_view_fields in Hv2 as (Hb & Hv & Hw & HB & _ & _).
  assert (Hok3 : hier_ok (remove_partition_node g v r l2 cs2).1
                         (remove_partition_node g v r l2 cs2).2).
  { apply remove_partition_node_hier; [done|lia|]. by rewrite Hv, Hw. }
  pose proof (remove_partition_node_view g v r l2 cs2) as (_ & _ & HB3 & _).
  destruct (remove_partition_node g v r l2 cs2) as [l3 cs3].
  cbn [fst snd] in *.
  apply add_partition_node_hier; [done|lia].
Qed.


End PublicOperations.

Section CouplingPropagation.

Context `{PartitionStats} `{!Externals} `{!ApplyDelta}.

(** C6. Coupling propagation (I5), with a coupled state [h] installed:
    [remove_partition_node(v, r)] that empties block [r] (the vertex has
    positive weight and the block holds nothing else) runs
    [h.remove_partition_node(r, hb[r])] and then [h.set_vertex_weight(r, 0)]
    on the coupled state, and leaves the coupled chain alone otherwise;
    [add_partition_node(v, r)] that newly occupies block [r] (the vertex has
    positive weight and the block was empty) runs
    [h.set_vertex_weight(r, 1)] and then [h.add_partition_node(r, hb[r])],
    and leaves the coupled chain alone otherwise.  The coupled state works
    on the block graph of the level below. *)
Theorem coupling_propagation (g : graph_t) (v r : nat) (l h : BlockState)
    (rest : list BlockState) :
  let vw := _vweight l !!! v in
  let removed := remove_partition_node g v r l (h :: rest) in
  let added := add_partition_node g v r l (h :: rest) in
  (0 < vw /\ _wr l !!! r = vw ->
   removed.2
   = set_vertex_weight r 0
       (remove_partition_node (bg_of g l) r (_b h !!! r) h rest).1
     :: (remove_partition_node (bg_of g l) r (_b h !!! r) h rest).2)
  /\ (~ (0 < vw /\ _wr l !!! r = vw) -> removed.2 = h :: rest)
  /\ ((r < length (_wr l))%nat -> 0 < vw /\ _wr l !!! r = 0 ->
      added.2
      = (add_partition_node (bg_of g l) r (_b h !!! r)
           (set_vertex_weight r 1 h) rest).1
        :: (add_partition_node (bg_of g l) r (_b h !!! r)
              (set_vertex_weight r 1 h) rest).2)
  /\ ((r < length (_wr l))%nat -> ~ (0 < vw /\ _wr l !!! r = 0) ->
      added.2 = h :: rest).
Proof.
  intros vw removed added. subst removed added.
  rewrite remove_partition_node_coupled, add_partition_node_coupled.
  fold vw.
  assert (Hins : (r < length (_wr l))%nat ->
                 <[ r := _wr l !!! r + vw ]> (_wr l) !!! r = _wr l !!! r + vw).
  { intros Hr. by rewrite list_lookup_total_insert_eq. }
  split; [|split; [|split]].
  - intros [Hpos Heq].
    by rewrite (proj2 (Z.ltb_lt _ _) Hpos), (proj2 (Z.eqb_eq _ _) Heq).
  - intros Hno.
    destruct (Z.ltb_spec 0 vw) as [Hpos|Hpos]; [|reflexivity].
    destruct (Z.eqb_spec (_wr l !!! r) vw) as [Heq|Heq]; [|reflexivity].
    by destruct Hno.
  - intros Hr [Hpos Heq]. rewrite (Hins Hr), Heq, Z.add_0_l.
    by rewrite (proj2 (Z.ltb_lt _ _) Hpos), Z.eqb_refl.
  - intros Hr Hno. rewrite (Hins Hr).
    destruct (Z.ltb_spec 0 vw) as [Hpos|Hpos]; [|reflexivity].
    destruct (Z.eqb_spec (_wr l !!! r + vw) vw) as [Heq|Heq]; [|reflexivity].
    destruct Hno. split; [done|lia].
Qed.

End CouplingPropagation.

Section TwoLevelExample.

#[local] Existing Instance ps_model_stats.
#[local] Existing Instance externals_model.
#[local] Existing Instance apply_delta_model.

(** The triangle state under its coupled state is a well-formed
    hierarchy. *)
Lemma triangle_hier_ok : hier_ok triangle_state [upper_state].
Proof.
  assert (Hin : forall (P : nat -> Prop) (n : nat),
             (forall r, (r < n)%nat -> P r) -> Forall P (seq 0 n)).
  { intros P n HP. apply Forall_forall. intros r Hr%elem_of_seq.
    apply HP. lia. }
  split; [|split; [|split; [|done]]].
  - split; [|split; [reflexivity|split;
      repeat constructor; vm_compute; discriminate]].
    split; [vm_compute; reflexivity|]. split; [vm_compute; reflexivity|].
    apply Hin. intros [|[|r]] Hr; [| |vm_compute in Hr; lia];
      vm_compute; (split; intros ?; discriminate).
  - split; [reflexivity|]. split; [reflexivity|].
    split; [vm_compute; lia|].
    split; [repeat constructor|].
    split; apply Hin; intros [|[|r]] Hr; try (vm_compute in Hr; lia);
      vm_compute; try discriminate; reflexivity.
  - split; [|split; [reflexivity|split;
      repeat constructor; vm_compute; discriminate]].
    split; [vm_compute; reflexivity|]. split; [vm_compute; reflexivity|].
    apply Hin. intros [|r] Hr; [|vm_compute in Hr; lia].
    vm_compute. split; intros ?; discriminate.
Qed.

End TwoLevelExample.

Section CoupledCollapse.

#[local] Existing Instance ps_model_stats.
#[local] Existing Instance externals_model.
#[local] Existing Instance apply_delta_model.

(** Scenario E4 on the triangle: taking vertex 2 out of block 1 empties the
    block, so the coupled state takes its vertex 1 out of block 0 and makes
    it weightless. *)
Lemma coupling_propagation_witness :
  (remove_partition_node triangle 2 1 triangle_state [upper_state]).2
  = [set_vertex_weight 1 0
       (remove_partition_node (bg_of triangle triangle_state) 1 0
          upper_state []).1]
  /\ (_vweight <$> (remove_partition_node triangle 2 1 triangle_state
                      [upper_state]).2) = [[1; 0]]
  /\ (_wr <$> (remove_partition_node triangle 2 1 triangle_state
                 [upper_state]).2) = [[1]].
Proof.
  pose proof (coupling_propagation triangle 2 1 triangle_state upper_state [])
    as (Hrem & _).
  split; [|split; vm_compute; reflexivity].
  apply Hrem. vm_compute. split; reflexivity.
Defined.

End CoupledCollapse.

Section WeightlessRemoval.

Context `{PartitionStats} `{!Externals} `{!ApplyDelta}.

Lemma insert_same (wr : list Z) (r : nat) : <[ r := wr !!! r ]> wr = wr.
Proof.
  destruct (wr !! r) as [x|] eqn:E.
  - apply list_insert_id. by rewrite (list_lookup_total_correct _ _ _ E).
  - apply list_insert_ge. by apply lookup_ge_None.
Qed.

(** On a weightless vertex [remove_partition_node] leaves the node counters
    and the coupled chain alone. *)
Lemma remove_partition_node_weightless (g : graph_t) (v r : nat)
    (l : BlockState) (cs : list BlockState) :
  _vweight l !!! v = 0 ->
  node_view (remove_partition_node g v r l cs).1 = node_view l
  /\ (remove_partition_node g v r l cs).2 = cs.
Proof.
  intros Hvw. split.
  - pose proof (remove_partition_node_view g v r l cs)
      as (Hb & Hv & HB & Hw & He & Hc).
    rewrite Hvw in Hw, He, Hc. cbn in He, Hc.
    rewrite Z.sub_0_r, insert_same in Hw.
    unfold node_view. by rewrite Hb, Hv, HB, Hw, He, Hc.
  - destruct cs as [|h rest].
    + cbn [remove_partition_node]. by repeat case_match.
    + rewrite remove_partition_node_coupled, Hvw. reflexivity.
Qed.

(** The level [remove_partition_node] leaves behind, whatever the chain. *)
Lemma remove_partition_node_fst (g : graph_t) (v r : nat) (l : BlockState)
    (cs : list BlockState) :
  (remove_partition_node g v r l cs).1
  = let vw := _vweight l !!! v in
    let l1 :=
      if (0 <? vw) && (_wr l !!! r =? vw)
      then set_empty_groups (fun s => {[ r ]} ∪ s)
             (set_candidate_groups (fun s => s ∖ {[ r ]}) l)
      else l in
    let l2 := set_wr (fun wr => <[ r := wr !!! r - vw ]> wr) l1 in
    let l3 := (get_partition_stats g v l2).2 in
    set_partition_stats
      (alter (ps_remove_vertex v r (_deg_corr l3) g (_vweight l3) (_degs l3))
             (get_partition_stats g v l2).1) l3.
Proof.
  destruct cs as [|h rest]; cbn [remove_partition_node]; cbv zeta.
  - by destruct (get_partition_stats g v _).
  - destruct ((0 <? _vweight l !!! v) && (_wr l !!! r =? _vweight l !!! v)).
    + destruct (remove_partition_node _ r _ h rest).
      by destruct (get_partition_stats g v _).
    + by destruct (get_partition_stats g v _).
Qed.

Lemma set_wr_id (f : list Z -> list Z) (l : BlockState) :
  f (_wr l) = _wr l -> set_wr f l = l.
Proof. destruct l. unfold set_wr. cbn. by intros ->. Qed.

Lemma set_partition_stats_id (f : list PS -> list PS) (l : BlockState) :
  f (_partition_stats l) = _partition_stats l -> set_partition_stats f l = l.
Proof. destruct l. unfold set_partition_stats. cbn. by intros ->. Qed.

Lemma counters_set_m_entries (f : MEntries -> MEntries) (l : BlockState) :
  counters (set_m_entries f l) = counters l.
Proof. reflexivity. Qed.

Lemma remove_vertex_weightless_view (g : graph_t) (v : nat) (l : BlockState)
    (cs : list BlockState) :
  apply_delta_frame -> _vweight l !!! v = 0 ->
  node_view <$> ((remove_vertex v g l cs).1 :: (remove_vertex v g l cs).2)
  = node_view <$> (l :: cs).
Proof.
  intros frame Hvw. unfold remove_vertex, remove_vertex_from, modify_vertex.
  set (l1 := get_move_entries _ _ _ _ _ _).
  pose proof (frame false (negb false) g l1 cs) as Hf.
  destruct (apply_delta false (negb false) g l1 cs) as [l2 cs2].
  cbn [fst snd] in Hf.
  change (node_view <$> l1 :: cs) with (node_view <$> l :: cs) in Hf.
  rewrite <- Hf. rewrite !fmap_cons in *.
  assert (Hvw2 : _vweight l2 !!! v = 0).
  { remember (node_view l2) as a eqn:Ea.
    remember (node_view l) as a' eqn:Ea'.
    injection Hf as -> _. subst.
    apply node_view_fields in Ea' as (_ & -> & _). exact Hvw. }
  destruct (remove_partition_node_weightless g v (_b l !!! v) l2 cs2 Hvw2)
    as [-> ->].
  reflexivity.
Qed.

End WeightlessRemoval.

Section WeightlessRemovalModel.

#[local] Existing Instance ps_model_stats.
#[local] Existing Instance externals_model.
#[local] Existing Instance apply_delta_model.

Lemma move_entries_isolated (v : nat) (r nr : option nat) (b : list nat)
    (g : graph_t) (B : nat) (m : MEntries) (efilt : edge_t -> bool)
    (rt : weight_type) :
  Forall (fun e => source e <> v /\ target e <> v) (edges g) ->
  move_entries_m v r nr b g B m efilt rt = set_move r nr B m.
Proof.
  intros Hiso. unfold move_entries_m.
  replace (filter _ (edges g)) with (@nil edge_t); [reflexivity|].
  symmetry. induction Hiso as [|e es [Hs Ht] _ IH]; [reflexivity|].
  rewrite filter_cons_False; [exact IH|]. tauto.
Qed.

(** Without entries the modelled [apply_delta] only rewrites the scratch
    buffer. *)
Lemma apply_delta_m_no_entries (Add Remove : bool) (g : graph_t)
    (l : BlockState) (cs : list BlockState) :
  _entries (_m_entries l) = [] ->
  exists m' : MEntries,
    apply_delta_m Add Remove g l cs = (set_m_entries (fun _ => m') l, cs).
Proof.
  intros He. unfold apply_delta_m. cbn [apply_delta_fuel].
  rewrite He. cbn [apply_entries foldl].
  destruct cs as [|h rest].
  - exists (_m_entries l). by destruct l.
  - unfold p_entries_nonzero, p_entries_weighted. rewrite He.
    destruct (decide (_rt l = NONE)); cbn;
      by exists (set_p_entries [] (_m_entries l)).
Qed.

(** C8, refuted as stated: vertex 0 of [weightless_state] has weight zero
    and two edges; [remove_vertex(0)] takes them off the edge counts. *)
Lemma remove_weightless_vertex_moves_edges :
  _vweight weightless_state !!! 0%nat = 0
  /\ _mrs weightless_state = {[ (0, 0)%nat := 1; (0, 1)%nat := 2 ]}
  /\ _mrs (remove_vertex 0 triangle weightless_state []).1
     = {[ (0, 1)%nat := 1 ]}
  /\ _mrp weightless_state = [4; 2]
  /\ _mrp (remove_vertex 0 triangle weightless_state []).1 = [1; 1].
Proof. repeat split; vm_compute; reflexivity. Qed.

(** C8, amended: [remove_vertex(v)] on a weightless vertex leaves [b], the
    vertex weights, the block sizes, the number of blocks and the group sets
    of every level unchanged; when no edge of the graph touches [v] and the
    partition statistics of [v]'s constraint class are initialised, it
    leaves every counter, set and property of every level unchanged (only
    the scratch buffer [_m_entries] is rewritten). *)
Theorem remove_weightless_vertex (v : nat) (g : graph_t) (l : BlockState)
    (cs : list BlockState) :
  _vweight l !!! v = 0 ->
  node_view <$> ((remove_vertex v g l cs).1 :: (remove_vertex v g l cs).2)
  = node_view <$> (l :: cs)
  /\ (Forall (fun e => source e <> v /\ target e <> v) (edges g) ->
      (_pclabel l !!! v < length (_partition_stats l))%nat ->
      counters <$> ((remove_vertex v g l cs).1 :: (remove_vertex v g l cs).2)
      = counters <$> (l :: cs)).
Proof.
  intros Hvw. split.
  - apply remove_vertex_weightless_view; [|exact Hvw].
    apply apply_delta_model_frame.
  - intros Hiso Hready.
    unfold remove_vertex, remove_vertex_from, modify_vertex, get_move_entries.
    cbn [move_entries externals_model apply_delta apply_delta_model negb].
    assert (Hl1 :
      set_m_entries
        (fun m => move_entries_m v (Some (_b l !!! v)) None (_b l) g (_B l) m
                    no_efilt (_rt l)) l
      = set_m_entries
          (fun _ => set_move (Some (_b l !!! v)) None (_B l) (_m_entries l))
          l).
    { unfold set_m_entries. by rewrite move_entries_isolated. }
    rewrite Hl1. clear Hl1.
    set (l1 := set_m_entries _ l).
    destruct (apply_delta_m_no_entries false true g l1 cs eq_refl)
      as [m' ->].
    set (l2 := set_m_entries _ l1).
    assert (Hvw2 : _vweight l2 !!! v = 0) by exact Hvw.
    destruct (remove_partition_node_weightless g v (_b l !!! v) l2 cs Hvw2)
      as [_ Hcs].
    rewrite Hcs. rewrite !fmap_cons. f_equal.
    rewrite remove_partition_node_fst. cbv zeta.
    rewrite Hvw2. cbn [Z.ltb Z.compare andb].
    rewrite (set_wr_id _ l2)
      by (by rewrite Z.sub_0_r, insert_same).
    unfold get_partition_stats. cbn [fst snd].
    change (_pclabel l2) with (_pclabel l).
    change (_partition_stats l2) with (_partition_stats l).
    destruct (Nat.leb_spec (length (_partition_stats l)) (_pclabel l !!! v))
      as [Hle|_]; [lia|].
    rewrite set_partition_stats_id.
    + subst l2 l1. by rewrite !counters_set_m_entries.
    + apply list_alter_id. intros ps.
      change (ps_remove_vertex v (_b l !!! v) (_deg_corr l2) g (_vweight l2)
                (_degs l2) ps)
        with (ps_model_remove_vertex v (_b l !!! v) (_deg_corr l2) g
                (_vweight l2) (_degs l2) ps).
      unfold ps_model_remove_vertex. by rewrite Hvw2.
Qed.

(** The isolated weightless vertex 2 of [edge_and_point_state]. *)
Lemma remove_weightless_vertex_witness :
  counters <$> [(remove_vertex 2 edge_and_point edge_and_point_state []).1]
  = counters <$> [edge_and_point_state].
Proof.
  apply (remove_weightless_vertex 2 edge_and_point edge_and_point_state []).
  - reflexivity.
  - repeat constructor; vm_compute; discriminate.
  - vm_compute. lia.
Defined.

End WeightlessRemovalModel.

Section RoundTripNodes.

Context `{PartitionStats} `{!Externals} `{!ApplyDelta}.

Lemma node_view_cons (l l' : BlockState) (cs cs' : list BlockState) :
  node_view <$> (l :: cs) = node_view <$> (l' :: cs')
  <-> node_view l = node_view l' /\ node_view <$> cs = node_view <$> cs'.
Proof.
  rewrite !fmap_cons. split.
  - intros Hc. split.
    + by apply (f_equal (fun x => hd (node_view l) x)) in Hc.
    + by apply (f_equal (fun x => tl x)) in Hc.
  - by intros [-> ->].
Qed.

Lemma node_view_intro (l l' : BlockState) :
  _b l = _b l' -> _vweight l = _vweight l' -> _wr l = _wr l' ->
  _B l = _B l' -> _candidate_groups l = _candidate_groups l' ->
  _empty_groups l = _empty_groups l' ->
  node_view l = node_view l'.
Proof. unfold node_view. by intros -> -> -> -> -> ->. Qed.

Lemma set_vertex_weight_congr (r : nat) (w : Z) (h h' : BlockState) :
  node_view h = node_view h' ->
  node_view (set_vertex_weight r w h) = node_view (set_vertex_weight r w h').
Proof.
  intros (Hb & Hv & Hw & HB & Hc & He)%node_view_fields.
  apply node_view_intro; cbn; congruence.
Qed.

Lemma add_partition_node_head_congr (g g' : graph_t) (v r : nat)
    (l l' : BlockState) (cs cs' : list BlockState) :
  node_view l = node_view l' ->
  node_view (add_partition_node g v r l cs).1
  = node_view (add_partition_node g' v r l' cs').1.
Proof.
  intros (Hb & Hv & Hw & HB & Hc & He)%node_view_fields.
  pose proof (add_partition_node_view g v r l cs)
    as (b1 & v1 & B1 & w1 & e1 & c1).
  pose proof (add_partition_node_view g' v r l' cs')
    as (b2 & v2 & B2 & w2 & e2 & c2).
  apply node_view_intro;
    rewrite ?b1, ?v1, ?B1, ?w1, ?e1, ?c1, ?b2, ?v2, ?B2, ?w2, ?e2, ?c2;
    by rewrite ?Hb, ?Hv, ?Hw, ?HB, ?Hc, ?He.
Qed.

Lemma remove_partition_node_head_congr (g g' : graph_t) (v r : nat)
    (l l' : BlockState) (cs cs' : list BlockState) :
  node_view l = node_view l' ->
  node_view (remove_partition_node g v r l cs).1
  = node_view (remove_partition_node g' v r l' cs').1.
Proof.
  intros (Hb & Hv & Hw & HB & Hc & He)%node_view_fields.
  pose proof (remove_partition_node_view g v r l cs)
    as (b1 & v1 & B1 & w1 & e1 & c1).
  pose proof (remove_partition_node_view g' v r l' cs')
    as (b2 & v2 & B2 & w2 & e2 & c2).
  apply node_view_intro;
    rewrite ?b1, ?v1, ?B1, ?w1, ?e1, ?c1, ?b2, ?v2, ?B2, ?w2, ?e2, ?c2;
    by rewrite ?Hb, ?Hv, ?Hw, ?HB, ?Hc, ?He.
Qed.

(** The node counters [add_partition_node] leaves at every level depend
    only on the node counters it finds. *)
Lemma add_partition_node_congr (cs : list BlockState) :
  forall (cs' : list BlockState) (g g' : graph_t) (v r : nat)
         (l l' : BlockState),
    node_view <$> (l :: cs) = node_view <$> (l' :: cs') ->
    node_view <$> ((add_partition_node g v r l cs).1
                   :: (add_partition_node g v r l cs).2)
    = node_view <$> ((add_partition_node g' v r l' cs').1
                     :: (add_partition_node g' v r l' cs').2).
Proof.
  induction cs as [|h rest IH]; intros [|h' rest'] g g' v r l l' Hv;
    apply node_view_cons in Hv as [Hl Hcs]; try discriminate Hcs;
    apply node_view_cons; (split; [by apply add_partition_node_head_congr|]).
  - by rewrite !add_partition_node_nil.
  - rewrite !add_partition_node_coupled.
    pose proof (node_view_fields _ _ Hl) as (_ & Hvw & Hw & _).
    rewrite Hvw, Hw. destruct (_ && _); [|exact Hcs].
    change (h :: rest) with ([h] ++ rest) in Hcs.
    change (h' :: rest') with ([h'] ++ rest') in Hcs.
    apply node_view_cons in Hcs as [Hh Hrest].
    pose proof (node_view_fields _ _ Hh) as (Hhb & _).
    rewrite Hhb. apply IH. apply node_view_cons.
    split; [by apply set_vertex_weight_congr|exact Hrest].
Qed.

Lemma remove_partition_node_congr (cs : list BlockState) :
  forall (cs' : list BlockState) (g g' : graph_t) (v r : nat)
         (l l' : BlockState),
    node_view <$> (l :: cs) = node_view <$> (l' :: cs') ->
    node_view <$> ((remove_partition_node g v r l cs).1
                   :: (remove_partition_node g v r l cs).2)
    = node_view <$> ((remove_partition_node g' v r l' cs').1
                     :: (remove_partition_node g' v r l' cs').2).
Proof.
  induction cs as [|h rest IH]; intros [|h' rest'] g g' v r l l' Hv;
    apply node_view_cons in Hv as [Hl Hcs]; try discriminate Hcs;
    apply node_view_cons;
    (split; [by apply remove_partition_node_head_congr|]).
  - by rewrite !remove_partition_node_nil.
  - rewrite !remove_partition_node_coupled.
    pose proof (node_view_fields _ _ Hl) as (_ & Hvw & Hw & _).
    rewrite Hvw, Hw. destruct (_ && _); [|exact Hcs].
    change (h :: rest) with ([h] ++ rest) in Hcs.
    change (h' :: rest') with ([h'] ++ rest') in Hcs.
    apply node_view_cons in Hcs as [Hh Hrest].
    pose proof (node_view_fields _ _ Hh) as (Hhb & _).
    rewrite Hhb.
    specialize (IH rest' (bg_of g l) (bg_of g' l') r (_b h' !!! r) h h').
    rewrite !fmap_cons in IH.
    assert (Hhr : node_view h :: (node_view <$> rest)
                  = node_view h' :: (node_view <$> rest'))
      by (by rewrite Hh, Hrest).
    specialize (IH Hhr).
    apply node_view_cons in IH as [IHh IHrest].
    rewrite !fmap_cons. rewrite IHrest. f_equal.
    by apply set_vertex_weight_congr.
Qed.

End RoundTripNodes.

Section RoundTripPartitionNode.

Context `{PartitionStats} `{!Externals} `{!ApplyDelta}.






End RoundTripPartitionNode.

Section RoundTripVertex.

Context `{PartitionStats} `{!Externals} `{!ApplyDelta}.
Hypothesis frame : apply_delta_frame.

(** The node counters [modify_vertex<Add>] leaves are those its partition
    node operation leaves on the state it was called on. *)
Lemma modify_vertex_view (Add : bool) (v r : nat) (efilt : edge_t -> bool)
    (g : graph_t) (l : BlockState) (cs : list BlockState) :
  node_view <$> ((modify_vertex Add v r efilt g l cs).1
                 :: (modify_vertex Add v r efilt g l cs).2)
  = if Add
    then node_view <$> ((add_partition_node g v r l cs).1
                        :: (add_partition_node g v r l cs).2)
    else node_view <$> ((remove_partition_node g v r l cs).1
                        :: (remove_partition_node g v r l cs).2).
Proof.
  unfold modify_vertex.
  set (l1 := if Add then _ else _).
  assert (Hl1 : node_view l1 = node_view l) by (subst l1; by destruct Add).
  pose proof (frame Add (negb Add) g l1 cs) as Hf.
  destruct (apply_delta Add (negb Add) g l1 cs) as [l2 cs2].
  cbn [fst snd] in Hf.
  assert (Hv : node_view <$> (l2 :: cs2) = node_view <$> (l :: cs)).
  { rewrite Hf. apply node_view_cons. by split. }
  destruct Add.
  - by apply add_partition_node_congr.
  - by apply remove_partition_node_congr.
Qed.


End RoundTripVertex.

Section EntryEffects.

Context `{PartitionStats}.







(** *** A list of entries on one level *)








(** *** Entries that undo each other *)






(** *** The entries of a removal and of the matching addition *)





End EntryEffects.

Section RoundTripModel.

#[local] Existing Instance ps_model_stats.
#[local] Existing Instance externals_model.
#[local] Existing Instance apply_delta_model.










End RoundTripModel.

(* --------------------------------------------------------------------- *)
(** ** Construction *)

Section ConstructionFacts.

Context `{PartitionStats}.

Lemma init_groups_fold (l : BlockState) (n : nat) :
  let step := fun (l0 : BlockState) (r : nat) =>
    if _wr l0 !!! r =? 0
    then set_empty_groups (fun s => {[ r ]} ∪ s) l0
    else set_candidate_groups (fun s => {[ r ]} ∪ s) l0 in
  let l' :=
    foldl step
      (set_candidate_groups (fun _ => ∅) (set_empty_groups (fun _ => ∅) l))
      (seq 0 n) in
  _wr l' = _wr l /\ _B l' = _B l
  /\ (forall r, r ∈ _empty_groups l' <-> (r < n)%nat /\ _wr l !!! r = 0)
  /\ (forall r, r ∈ _candidate_groups l'
                <-> (r < n)%nat /\ _wr l !!! r <> 0).
Proof.
  intros step. induction n as [|n IH]; cbv zeta.
  - cbn. split; [done|]. split; [done|].
    split; intros r;
      (split; [intros Hin; by apply elem_of_empty in Hin
              |intros [Hlt _]; lia]).
  - rewrite seq_S, foldl_app. cbn [foldl Nat.add].
    cbv zeta in IH. destruct IH as (Hw & HB & He & Hc).
    set (l1 := foldl step _ (seq 0 n)) in *.
    replace (step l1 n)
      with (if _wr l !!! n =? 0
            then set_empty_groups (fun s => {[ n ]} ∪ s) l1
            else set_candidate_groups (fun s => {[ n ]} ∪ s) l1)
      by (unfold step; by rewrite Hw).
    destruct (Z.eqb_spec (_wr l !!! n) 0) as [Hz|Hz];
      cbn [_wr _B _empty_groups _candidate_groups set_empty_groups
             set_candidate_groups];
      (split; [exact Hw|]); (split; [exact HB|]); split; intros r;
      rewrite ?elem_of_union, ?elem_of_singleton, ?He, ?Hc;
      destruct (decide (r = n)) as [->|Hne];
      intuition (try lia; try congruence).
Qed.

(** X2. The constructor establishes invariant I4: after its loop over the
    blocks, whatever the sizes [_wr] are, every block is in exactly one of
    [_empty_groups] and [_candidate_groups], and it is in [_empty_groups]
    iff its size is zero; the sizes themselves are not touched. *)
Theorem init_groups_I4 (l : BlockState) :
  I4 (init_groups l)
  /\ _wr (init_groups l) = _wr l /\ _B (init_groups l) = _B l.
Proof.
  pose proof (init_groups_fold l (_B l)) as Hfold. cbv zeta in Hfold.
  fold (init_groups l) in Hfold. destruct Hfold as (Hw & HB & He & Hc).
  split; [|done]. apply I4_pointwise. rewrite HB. split; [|split].
  - intros r. rewrite He, Hc.
    destruct (decide (_wr l !!! r = 0)); intuition lia.
  - intros r [_ Hz]%He [_ Hnz]%Hc. done.
  - intros r Hr. rewrite He, Hw. intuition.
Qed.

Lemma last_cons_default {A : Type} (l : list A) :
  forall x d d' : A, List.last (x :: l) d = List.last (x :: l) d'.
Proof.
  induction l as [|y l IH]; intros x d d'; [reflexivity|].
  change (List.last (y :: l) d = List.last (y :: l) d'). apply IH.
Qed.

Lemma last_in_or_default {A : Type} (l : list A) (d : A) :
  l = [] /\ List.last l d = d \/ List.last l d ∈ l.
Proof.
  induction l as [|x l IH]; [by left|right].
  destruct IH as [[-> _]|Hin]; [by left|].
  destruct l as [|y l]; [by left|].
  change (List.last (y :: l) d ∈ x :: y :: l). by right.
Qed.

Lemma select_rt_from_spec (ts : list weight_type) :
  forall rt : weight_type,
    (REAL_NORMAL ∈ ts -> select_rt_from rt ts = REAL_NORMAL)
    /\ (REAL_NORMAL ∉ ts -> select_rt_from rt ts = List.last ts rt).
Proof.
  induction ts as [|t ts IH]; intros rt; cbn [select_rt_from].
  - split; [intros Hin; by apply elem_of_nil in Hin|done].
  - destruct (decide (t = REAL_NORMAL)) as [->|Hne].
    + split; [done|]. intros Hno. destruct Hno. by left.
    + destruct (IH t) as [Hin Hout]. split.
      * intros [Heq|Hts]%elem_of_cons; [done|by apply Hin].
      * intros Hno%not_elem_of_cons. rewrite Hout by tauto.
        destruct ts as [|w ts]; [reflexivity|].
        change (List.last (w :: ts) t = List.last (w :: ts) rt).
        apply last_cons_default.
Qed.

(** X3. The covariate kind [_rt] the constructor selects is [REAL_NORMAL]
    exactly when one of the covariate kinds is; otherwise it is the last
    kind of the list, and [NONE] when there is none. *)
Theorem select_rt_spec (ts : list weight_type) :
  (select_rt ts = REAL_NORMAL <-> REAL_NORMAL ∈ ts)
  /\ (REAL_NORMAL ∉ ts -> select_rt ts = List.last ts NONE).
Proof.
  destruct (select_rt_from_spec ts NONE) as [Hin Hout]. split; [|exact Hout].
  split; [|exact Hin]. intros Hsel.
  destruct (decide (REAL_NORMAL ∈ ts)) as [|Hno]; [done|].
  unfold select_rt in Hsel. rewrite (Hout Hno) in Hsel.
  destruct (last_in_or_default ts NONE) as [[_ Hd]|Hin'].
  - rewrite Hd in Hsel. discriminate Hsel.
  - rewrite Hsel in Hin'. done.
Qed.

(** X4. [allow_move] is an equivalence relation on the blocks, at every
    shape of the hierarchy: every block may move to itself, the test does
    not depend on the direction, and two allowed moves compose. *)
Theorem allow_move_equivalence (cs : list BlockState) :
  forall (l : BlockState) (r s t : nat),
    allow_move r r l cs = true
    /\ allow_move r s l cs = allow_move s r l cs
    /\ (allow_move r s l cs = true -> allow_move s t l cs = true ->
        allow_move r t l cs = true).
Proof.
  induction cs as [|h rest IH]; intros l r s t;
    rewrite (allow_move_unfold r r l), (allow_move_unfold r s l),
      (allow_move_unfold s r l), (allow_move_unfold s t l),
      (allow_move_unfold r t l).
  - cbn [andb]. split; [apply Z.eqb_refl|]. split; [apply Z.eqb_sym|].
    rewrite !Z.eqb_eq. congruence.
  - destruct (IH h (_b h !!! r) (_b h !!! s) (_b h !!! t))
      as (Hrefl & Hsym & Htrans).
    split; [|split].
    + by rewrite Nat.eqb_refl, Z.eqb_refl.
    + by rewrite Hsym, (Nat.eqb_sym (_b h !!! r)),
        (Z.eqb_sym (_bclabel l !!! r)).
    + rewrite !andb_true_iff, !orb_true_iff, !Z.eqb_eq, !Nat.eqb_eq.
      intros [Hrs Hl1] [Hst Hl2]. split; [|congruence].
      destruct Hrs as [Hrs|Hrs], Hst as [Hst|Hst].
      * left. congruence.
      * right. by rewrite Hrs.
      * right. by rewrite <- Hst.
      * right. by apply Htrans.
Qed.

End ConstructionFacts.

(** ** The node counters under the vertex operations *)

Section NodeCounters.

Context `{PartitionStats} `{!Externals} `{!ApplyDelta}.

Lemma sum_insert (vw : list Z) (v : nat) (w : Z) (n : nat) :
  foldl (fun a i => a + <[ v := w ]> vw !!! i) 0 (seq 0 n)
  = foldl (fun a i => a + vw !!! i) 0 (seq 0 n)
    + (if decide (v < n)%nat
       then <[ v := w ]> vw !!! v - vw !!! v else 0).
Proof.
  induction n as [|n IH].
  - rewrite decide_False by lia. reflexivity.
  - rewrite seq_S, !foldl_app. cbn [foldl Nat.add]. rewrite IH.
    destruct (decide (v = n)) as [->|Hne].
    + rewrite decide_False, decide_True by lia. lia.
    + rewrite (list_lookup_total_insert_ne vw v n) by done.
      repeat case_decide; lia.
Qed.

(** X5. [set_vertex_weight(v, w)] keeps [_N] the total weight of the
    vertices of the graph: if [_N] is what the constructor's loop counts
    before the call, it is what the loop counts after it. *)
Theorem set_vertex_weight_keeps_N (g : graph_t) (v : nat) (w : Z)
    (l : BlockState) :
  (v < num_vertices g)%nat ->
  (num_vertices g <= length (_vweight l))%nat ->
  _N l = count_N g (_vweight l) ->
  _N (set_vertex_weight v w l)
  = count_N g (_vweight (set_vertex_weight v w l)).
Proof.
  intros Hv Hlen HN.
  change (_N l - _vweight l !!! v + w
          = count_N g (<[ v := w ]> (_vweight l))).
  unfold count_N in *. rewrite sum_insert, decide_True by done.
  rewrite list_lookup_total_insert_eq by lia. lia.
Qed.

End NodeCounters.

Lemma set_vertex_weight_keeps_N_witness :
  _N triangle_state = count_N triangle (_vweight triangle_state)
  /\ _N (set_vertex_weight 0 5 triangle_state) = 7
  /\ count_N triangle (_vweight (set_vertex_weight 0 5 triangle_state)) = 7.
Proof.
  pose proof (set_vertex_weight_keeps_N triangle 0 5 triangle_state) as Hw.
  split; [reflexivity|]. split; [reflexivity|].
  rewrite <- Hw; [reflexivity|vm_compute; lia|vm_compute; lia|reflexivity].
Defined.
(** ** Removing and moving a vertex *)

Section VertexRemoval.

Context `{PartitionStats} `{!Externals} `{!ApplyDelta}.
Hypothesis frame : apply_delta_frame.

(** The node counters [remove_vertex(v)] leaves on the state itself are
    those of [remove_partition_node(v, b[v])]. *)
Lemma remove_vertex_head_view (v : nat) (g : graph_t) (l : BlockState)
    (cs : list BlockState) :
  node_view (remove_vertex v g l cs).1
  = node_view (remove_partition_node g v (_b l !!! v) l cs).1.
Proof.
  pose proof (modify_vertex_view frame false v (_b l !!! v) no_efilt g l cs)
    as Hv.
  cbv iota in Hv. apply node_view_cons in Hv as [Hv _]. exact Hv.
Qed.


(** X7. [is_last(v)] holds exactly when [remove_vertex(v)] empties the
    block of [v]: the block is not in [_empty_groups] before the call and
    is in it afterwards. *)
Theorem is_last_iff_removal_empties (v : nat) (g : graph_t)
    (l : BlockState) (cs : list BlockState) :
  I4 l -> (_b l !!! v < _B l)%nat ->
  is_last v l = true
  <-> (_b l !!! v ∉ _empty_groups l)
      /\ (_b l !!! v) ∈ _empty_groups (remove_vertex v g l cs).1.
Proof.
  intros HI Hr. apply I4_pointwise in HI as (_ & _ & Hzero).
  pose proof (Hzero _ Hr) as Hz.
  pose proof (remove_vertex_head_view v g l cs) as Hv.
  apply node_view_fields in Hv as (_ & _ & _ & _ & _ & He).
  pose proof (remove_partition_node_view g v (_b l !!! v) l cs)
    as (_ & _ & _ & _ & He' & _).
  rewrite He, He'. clear He He'. unfold is_last.
  destruct ((0 <? _vweight l !!! v)
            && (_wr l !!! (_b l !!! v) =? _vweight l !!! v)) eqn:E.
  - apply andb_true_iff in E as [E1 E2].
    apply Z.ltb_lt in E1. apply Z.eqb_eq in E2.
    split; [intros _|done]. split; [|apply elem_of_union_l, elem_of_singleton; reflexivity].
    rewrite Hz. lia.
  - split; [done|]. intros [Hn Hy]. done.
Qed.

(** X10. On the node counters of every level, [move_vertex(v, nr)] to
    another block is [remove_vertex(v)] followed by [add_vertex(v, nr)]. *)
Theorem move_vertex_is_remove_then_add (v nr : nat) (g : graph_t)
    (l : BlockState) (cs : list BlockState) :
  _b l !!! v <> nr -> allow_move (_b l !!! v) nr l cs = true ->
  (move_vertex v nr g l cs).1 = Ok tt
  /\ node_view <$> ((move_vertex v nr g l cs).2.1
                    :: (move_vertex v nr g l cs).2.2)
     = node_view <$> ((add_vertex v nr g (remove_vertex v g l cs).1
                         (remove_vertex v g l cs).2).1
                      :: (add_vertex v nr g (remove_vertex v g l cs).1
                            (remove_vertex v g l cs).2).2).
Proof.
  intros Hne Hallow. unfold move_vertex, move_vertex_from.
  rewrite decide_False, Hallow by done. cbn [negb fst snd].
  split; [reflexivity|].
  unfold move_vertex_entries. rewrite decide_False by done.
  unfold add_vertex. rewrite (modify_vertex_view frame true).
  pose proof (modify_vertex_view frame false v (_b l !!! v) no_efilt g l cs)
    as Hrem.
  cbv iota in Hrem. fold (remove_vertex_from v (_b l !!! v) g l cs) in Hrem.
  fold (remove_vertex v g l cs) in Hrem.
  rewrite (add_partition_node_congr _ _ g g v nr _ _ Hrem).
  set (l1 := get_move_entries _ _ _ _ _ _).
  pose proof (frame true true g l1 cs) as Hf.
  destruct (apply_delta true true g l1 cs) as [l2 cs2].
  cbn [fst snd] in Hf.
  assert (Hv : node_view <$> (l2 :: cs2) = node_view <$> (l :: cs)).
  { rewrite Hf. apply node_view_cons. by split. }
  pose proof (remove_partition_node_congr _ _ g g v (_b l !!! v) _ _ Hv)
    as Hr.
  destruct (remove_partition_node g v (_b l !!! v) l2 cs2) as [l3 cs3].
  cbn [fst snd] in Hr.
  by apply add_partition_node_congr.
Qed.

End VertexRemoval.

Section VertexRemovalExample.

#[local] Existing Instance ps_model_stats.
#[local] Existing Instance externals_model.
#[local] Existing Instance apply_delta_model.


Lemma is_last_iff_removal_empties_witness :
  is_last 2 triangle_state = true
  /\ (1%nat ∉ _empty_groups triangle_state)
  /\ 1%nat ∈ _empty_groups
       (remove_vertex 2 triangle triangle_state [upper_state]).1.
Proof.
  split; [reflexivity|].
  apply (is_last_iff_removal_empties apply_delta_model_frame 2 triangle
           triangle_state [upper_state]).
  - destruct triangle_hier_ok as [[HI _] _]. exact HI.
  - vm_compute. lia.
  - reflexivity.
Defined.

Lemma move_vertex_is_remove_then_add_witness :
  (move_vertex 2 0 triangle triangle_state [upper_state]).1 = Ok tt
  /\ node_view <$> ((move_vertex 2 0 triangle triangle_state
                       [upper_state]).2.1
                    :: (move_vertex 2 0 triangle triangle_state
                          [upper_state]).2.2)
     = node_view <$> ((add_vertex 2 0 triangle
                         (remove_vertex 2 triangle triangle_state
                            [upper_state]).1
                         (remove_vertex 2 triangle triangle_state
                            [upper_state]).2).1
                      :: (add_vertex 2 0 triangle
                            (remove_vertex 2 triangle triangle_state
                               [upper_state]).1
                            (remove_vertex 2 triangle triangle_state
                               [upper_state]).2).2).
Proof.
  apply (move_vertex_is_remove_then_add apply_delta_model_frame 2 0 triangle
           triangle_state [upper_state]).
  - vm_compute. lia.
  - vm_compute. reflexivity.
Defined.

End VertexRemovalExample.
(** ** Adding blocks *)

Section AddBlock.

Context `{PartitionStats} `{!Externals} `{!ApplyDelta}.

Lemma add_block_step_fields (g : graph_t) (l : BlockState)
    (cs : list BlockState) :
  let l' := (add_block_step g l cs).1 in
  _B l' = S (_B l) /\ _wr l' = <[ _B l := 0 ]> (_wr l)
  /\ _b l' = _b l /\ _vweight l' = _vweight l
  /\ _empty_groups l' = {[ _B l ]} ∪ _empty_groups l
  /\ _candidate_groups l' = _candidate_groups l
  /\ _bclabel l' = _bclabel l.
Proof. unfold add_block_step. cbn [fst]. by destruct (directed g). Qed.

(** The rounds of the loop of [add_block], on a [_wr] long enough. *)
Lemma add_block_iter_fields (g : graph_t) (k : nat) (l : BlockState)
    (cs : list BlockState) :
  (_B l + k <= length (_wr l))%nat ->
  let l' := (Nat.iter k (fun st => add_block_step g st.1 st.2) (l, cs)).1 in
  _B l' = (_B l + k)%nat /\ length (_wr l') = length (_wr l)
  /\ (forall r, (r < _B l)%nat -> _wr l' !!! r = _wr l !!! r)
  /\ (forall r, (_B l <= r < _B l + k)%nat -> _wr l' !!! r = 0)
  /\ _empty_groups l' = _empty_groups l ∪ set_seq (_B l) k
  /\ _candidate_groups l' = _candidate_groups l
  /\ _b l' = _b l /\ _vweight l' = _vweight l
  /\ _bclabel l' = _bclabel l.
Proof.
  induction k as [|k IH]; intros Hlen.
  - cbn [Nat.iter fst]. rewrite Nat.add_0_r.
    repeat split; try done; [intros r Hr; lia|].
    cbn [set_seq]. by rewrite (right_id_L ∅ (∪)).
  - cbn zeta in *. rewrite Nat.iter_succ.
    destruct IH as (EB & El & Eold & Enew & Ee & Ec & Eb & Ev & Ebc);
      [lia|].
    destruct (Nat.iter k _ (l, cs)) as [l1 cs1]. cbn [fst snd] in *.
    pose proof (add_block_step_fields g l1 cs1)
      as (EB' & Ew' & Eb' & Ev' & Ee' & Ec' & Ebc').
    cbn zeta in *.
    rewrite EB', Ew', Eb', Ev', Ee', Ec', Ebc', length_insert.
    rewrite EB, El, Ee, Ec, Eb, Ev, Ebc.
    repeat split; try done; try lia.
    + intros r Hr. rewrite list_lookup_total_insert_ne by lia. by apply Eold.
    + intros r Hr. destruct (decide (r = (_B l + k)%nat)) as [->|Hne].
      * rewrite list_lookup_total_insert_eq by lia. reflexivity.
      * rewrite list_lookup_total_insert_ne by lia. apply Enew. lia.
    + rewrite set_seq_S_end_union_L, !(assoc_L (∪)). f_equal.
      apply (comm_L (∪)).
Qed.

(** What [add_block(n)] leaves on the state itself. *)
Lemma add_block_fields (n : nat) (g : graph_t) (l : BlockState)
    (cs : list BlockState) :
  length (_wr l) = _B l ->
  _B (add_block n g l cs).2.1 = (_B l + n)%nat
  /\ (forall r, (r < _B l)%nat ->
        _wr (add_block n g l cs).2.1 !!! r = _wr l !!! r)
  /\ (forall r, (_B l <= r < _B l + n)%nat ->
        _wr (add_block n g l cs).2.1 !!! r = 0)
  /\ _empty_groups (add_block n g l cs).2.1
     = _empty_groups l ∪ set_seq (_B l) n
  /\ _candidate_groups (add_block n g l cs).2.1 = _candidate_groups l
  /\ _b (add_block n g l cs).2.1 = _b l
  /\ _vweight (add_block n g l cs).2.1 = _vweight l
  /\ length (_bclabel (add_block n g l cs).2.1) = (_B l + n)%nat.
Proof.
  intros Hlen. unfold add_block. cbn [fst snd].
  set (l0 := set_brecsum _ (set_bclabel _ (set_mrp _ _))).
  assert (Hfields : _B l0 = _B l
                    /\ _wr l0 = resize (_B l + n) 0 (_wr l)
                    /\ _empty_groups l0 = _empty_groups l
                    /\ _candidate_groups l0 = _candidate_groups l
                    /\ _b l0 = _b l /\ _vweight l0 = _vweight l
                    /\ _bclabel l0 = resize (_B l + n) 0 (_bclabel l)).
  { subst l0. by destruct (directed g). }
  destruct Hfields as (EB & Ew & Ee & Ec & Eb & Ev & Ebc).
  pose proof (add_block_iter_fields g n l0 cs) as Hit.
  cbn zeta in Hit.
  rewrite EB, Ew, length_resize, Ee, Ec, Eb, Ev, Ebc in Hit.
  destruct Hit as (EB' & _ & Eold & Enew & Ee' & Ec' & Eb' & Ev' & Ebc');
    [lia|].
  repeat split; try done.
  - intros r Hr. rewrite Eold by done. apply lookup_total_resize; lia.
  - by rewrite Ebc', length_resize.
Qed.

(** X8. [add_block(n)] on a state with one size per block: the number of
    blocks grows by [n], the block returned is the last one ([null_group]
    for [n = 0]), the new blocks have size zero and are exactly what joins
    [_empty_groups], and the sizes of the old blocks, the candidate groups,
    the labels and the weights of the vertices stay as they were. *)
Theorem add_block_postcondition (n : nat) (g : graph_t) (l : BlockState)
    (cs : list BlockState) :
  length (_wr l) = _B l ->
  (add_block n g l cs).1
  = (if n is O then None else Some (_B l + n - 1)%nat)
  /\ _B (add_block n g l cs).2.1 = (_B l + n)%nat
  /\ (forall r, (r < _B l)%nat ->
        _wr (add_block n g l cs).2.1 !!! r = _wr l !!! r)
  /\ (forall r, (_B l <= r < _B l + n)%nat ->
        _wr (add_block n g l cs).2.1 !!! r = 0)
  /\ _empty_groups (add_block n g l cs).2.1
     = _empty_groups l ∪ set_seq (_B l) n
  /\ _candidate_groups (add_block n g l cs).2.1 = _candidate_groups l
  /\ _b (add_block n g l cs).2.1 = _b l
  /\ _vweight (add_block n g l cs).2.1 = _vweight l.
Proof.
  intros Hlen.
  destruct (add_block_fields n g l cs Hlen)
    as (EB & Eold & Enew & Ee & Ec & Eb & Ev & _).
  split; [|done].
  change ((add_block n g l cs).1)
    with (if n is O then None
          else Some (pred (_B (add_block n g l cs).2.1))).
  destruct n; [done|]. rewrite EB. f_equal. lia.
Qed.

End AddBlock.

Section AddBlockExample.

#[local] Existing Instance ps_model_stats.
#[local] Existing Instance externals_model.
#[local] Existing Instance apply_delta_model.

Lemma add_block_postcondition_witness :
  (add_block 2 triangle triangle_state [upper_state]).1 = Some 3%nat
  /\ _B (add_block 2 triangle triangle_state [upper_state]).2.1 = 4%nat
  /\ _empty_groups (add_block 2 triangle triangle_state [upper_state]).2.1
     = _empty_groups triangle_state ∪ set_seq 2 2.
Proof.
  pose proof (add_block_postcondition 2 triangle triangle_state
                [upper_state] eq_refl)
    as (Hret & HB & _ & _ & He & _).
  split; [exact Hret|]. split; [exact HB|exact He].
Defined.

End AddBlockExample.
(** ** The node counts [check_node_counts] recounts *)

Section NodeCounts.

Context `{PartitionStats} `{!Externals} `{!ApplyDelta}.

Lemma block_weight_app_one (b : list nat) :
  forall (vw : list Z) (x : nat) (w : Z) (s : nat),
    length b = length vw ->
    block_weight (b ++ [x]) (vw ++ [w]) s
    = block_weight b vw s + (if decide (x = s) then w else 0).
Proof.
  induction b as [|bi b IH]; intros [|wi vw] x w s Hlen; simpl in *;
    try discriminate.
  - lia.
  - rewrite IH by lia. lia.
Qed.

(** Relabelling vertex [i] moves its weight from its old block to the new
    one. *)
Lemma block_weight_relabel (b : list nat) :
  forall (vw : list Z) (i s' s : nat),
    (i < length b)%nat -> (i < length vw)%nat ->
    block_weight (<[ i := s' ]> b) vw s
    = block_weight b vw s
      - (if decide (b !!! i = s) then vw !!! i else 0)
      + (if decide (s' = s) then vw !!! i else 0).
Proof.
  induction b as [|bi b IH]; intros [|wi vw] i s' s Hb Hv; simpl in *;
    try lia.
  destruct i as [|i]; simpl.
  - lia.
  - rewrite IH by lia. lia.
Qed.

(** No vertex is labelled [s]: its weight is zero. *)
Lemma block_weight_unused (b : list nat) :
  forall (vw : list Z) (s : nat),
    Forall (fun r => r <> s) b -> block_weight b vw s = 0.
Proof.
  induction b as [|bi b IH]; intros [|wi vw] s Hb; simpl; try lia.
  inversion Hb as [|? ? Hne Hrest]; subst.
  rewrite decide_False by done. rewrite IH by done. lia.
Qed.

(** The loop of [check_node_counts] after [k] vertices. *)
Lemma recount_prefix (b : list nat) (vw : list Z) (B k : nat) :
  (k <= length b)%nat -> (k <= length vw)%nat ->
  length (foldl (fun wr v => <[ b !!! v := wr !!! (b !!! v) + vw !!! v ]> wr)
                (replicate B 0) (seq 0 k)) = B
  /\ forall r, (r < B)%nat ->
       foldl (fun wr v => <[ b !!! v := wr !!! (b !!! v) + vw !!! v ]> wr)
             (replicate B 0) (seq 0 k) !!! r
       = block_weight (take k b) (take k vw) r.
Proof.
  induction k as [|k IH]; intros Hb Hv.
  - split; [apply length_replicate|].
    intros r Hr. cbn [seq foldl take]. rewrite lookup_total_replicate_2 by done.
    by destruct b.
  - destruct IH as [Hlen Hsum]; [lia|lia|].
    rewrite seq_S, foldl_app. cbn [foldl Nat.add].
    set (wr := foldl _ _ (seq 0 k)) in *.
    split; [by rewrite length_insert|].
    intros r Hr.
    rewrite (take_S_r b k (b !!! k))
      by (apply list_lookup_lookup_total_lt; lia).
    rewrite (take_S_r vw k (vw !!! k))
      by (apply list_lookup_lookup_total_lt; lia).
    rewrite block_weight_app_one by (rewrite !length_take; lia).
    destruct (decide (b !!! k = r)) as [->|Hne].
    + rewrite list_lookup_total_insert_eq by lia. by rewrite Hsum.
    + rewrite list_lookup_total_insert_ne by done. rewrite Hsum by done. lia.
Qed.

(** What [check_node_counts] recounts for a block is the total weight of
    the vertices labelled with it. *)
Lemma recount_wr_block_weight (g : graph_t) (l : BlockState) (r : nat) :
  length (_b l) = num_vertices g -> length (_vweight l) = num_vertices g ->
  (r < _B l)%nat ->
  recount_wr g l !!! r = block_weight (_b l) (_vweight l) r.
Proof.
  intros Hb Hv Hr. unfold recount_wr.
  destruct (recount_prefix (_b l) (_vweight l) (_B l) (num_vertices g))
    as [_ Hsum]; [lia|lia|].
  rewrite Hsum by done. by rewrite !take_ge by lia.
Qed.

(** X9. [check_node_counts] accepts a state with one label and one weight
    per vertex exactly when the size of every block is the total weight of
    the vertices labelled with it. *)
Theorem check_node_counts_spec (g : graph_t) (l : BlockState) :
  length (_b l) = num_vertices g -> length (_vweight l) = num_vertices g ->
  check_node_counts g l = true
  <-> forall r, (r < _B l)%nat ->
        _wr l !!! r = block_weight (_b l) (_vweight l) r.
Proof.
  intros Hb Hv. unfold check_node_counts. rewrite forallb_forall. split.
  - intros Hall r Hr. rewrite <- (recount_wr_block_weight g) by done.
    apply Z.eqb_eq, Hall, in_seq. lia.
  - intros Heq r Hr%in_seq. apply Z.eqb_eq.
    rewrite recount_wr_block_weight by (done || lia). apply Heq. lia.
Qed.

(** A well-formed state, with the block sizes spelled out. *)
Lemma well_formed_sizes (g : graph_t) (l : BlockState)
    (cs : list BlockState) :
  well_formed g l cs
  <-> hier_ok l cs
      /\ length (_b l) = num_vertices g
      /\ length (_vweight l) = num_vertices g
      /\ Forall (fun r => (r < _B l)%nat) (_b l)
      /\ forall r, (r < _B l)%nat ->
           _wr l !!! r = block_weight (_b l) (_vweight l) r.
Proof.
  unfold well_formed, check_node_counts. rewrite forallb_forall. split.
  - intros (Hok & Hb & Hv & Hlab & Hall). repeat split; try done.
    intros r Hr. rewrite <- (recount_wr_block_weight g) by done.
    apply Z.eqb_eq, Hall, in_seq. lia.
  - intros (Hok & Hb & Hv & Hlab & Heq). repeat split; try done.
    intros r Hr%in_seq. apply Z.eqb_eq.
    rewrite recount_wr_block_weight by (done || lia). apply Heq. lia.
Qed.

End NodeCounts.

Section NodeCountsExample.

#[local] Existing Instance ps_model_stats.

Lemma check_node_counts_spec_witness :
  check_node_counts triangle triangle_state = true
  /\ _wr triangle_state !!! 0%nat
     = block_weight (_b triangle_state) (_vweight triangle_state) 0.
Proof.
  split; [reflexivity|].
  apply (check_node_counts_spec triangle triangle_state eq_refl eq_refl);
    [reflexivity|vm_compute; lia].
Defined.

End NodeCountsExample.
(** ** Moves keep a state well formed *)

Section MovesWellFormed.

Context `{PartitionStats} `{!Externals} `{!ApplyDelta}.
Hypothesis frame : apply_delta_frame.

Lemma hier_ok_head (l : BlockState) (cs : list BlockState) :
  hier_ok l cs -> level_ok l.
Proof. destruct cs; simpl; tauto. Qed.

(** The node counters a move to another, allowed block leaves on the state
    itself. *)
Lemma move_vertex_head_fields (v nr : nat) (g : graph_t) (l : BlockState)
    (cs : list BlockState) :
  _b l !!! v <> nr -> allow_move (_b l !!! v) nr l cs = true ->
  let r := _b l !!! v in
  let vw := _vweight l !!! v in
  let wr1 := <[ r := _wr l !!! r - vw ]> (_wr l) in
  let l' := (move_vertex v nr g l cs).2.1 in
  (move_vertex v nr g l cs).1 = Ok tt
  /\ _b l' = <[ v := nr ]> (_b l) /\ _vweight l' = _vweight l
  /\ _B l' = _B l /\ _wr l' = <[ nr := wr1 !!! nr + vw ]> wr1.
Proof.
  intros Hne Hallow. cbn zeta. unfold move_vertex, move_vertex_from.
  rewrite decide_False, Hallow by done. cbn [negb fst snd].
  split; [reflexivity|].
  unfold move_vertex_entries. rewrite decide_False by done.
  set (l1 := get_move_entries _ _ _ _ _ _).
  pose proof (frame true true g l1 cs) as Hf.
  destruct (apply_delta true true g l1 cs) as [l2 cs2].
  cbn [fst snd] in Hf. apply node_view_cons in Hf as [Hf _].
  assert (Hl1 : node_view l1 = node_view l) by reflexivity.
  rewrite Hl1 in Hf.
  apply node_view_fields in Hf as (Hb & Hv & Hw & HB & _ & _).
  pose proof (remove_partition_node_view g v (_b l !!! v) l2 cs2)
    as (Hb3 & Hv3 & HB3 & Hw3 & _).
  destruct (remove_partition_node g v (_b l !!! v) l2 cs2) as [l3 cs3].
  cbn [fst snd] in *.
  pose proof (add_partition_node_view g v nr l3 cs3)
    as (Hb4 & Hv4 & HB4 & Hw4 & _).
  cbn zeta in Hw4.
  rewrite Hb4, Hv4, HB4, Hw4, Hb3, Hv3, HB3, Hw3, Hb, Hv, HB, Hw.
  done.
Qed.

(** A move keeps a state well formed and its blocks; when it returns, the
    vertex carries the label asked for, and when it throws, nothing has
    changed. *)
Lemma move_vertex_keeps (v nr : nat) (g : graph_t) (l : BlockState)
    (cs : list BlockState) :
  well_formed g l cs -> (v < num_vertices g)%nat -> (nr < _B l)%nat ->
  well_formed g (move_vertex v nr g l cs).2.1 (move_vertex v nr g l cs).2.2
  /\ _B (move_vertex v nr g l cs).2.1 = _B l
  /\ match (move_vertex v nr g l cs).1 with
     | Ok _ => _b (move_vertex v nr g l cs).2.1 = <[ v := nr ]> (_b l)
     | Raise _ => (move_vertex v nr g l cs).2 = (l, cs)
     end.
Proof.
  intros Hwf Hv Hnr.
  pose proof Hwf as (Hok & Hlb & Hlv & Hlab & Hsum)%well_formed_sizes.
  pose proof (hier_ok_head _ _ Hok) as (_ & Hlw & _ & Hvw).
  assert (Hr : (_b l !!! v < _B l)%nat).
  { apply (Forall_lookup_total_1 (fun r => (r < _B l)%nat)); [done|lia]. }
  assert (Hge : _vweight l !!! v <= _wr l !!! (_b l !!! v)).
  { rewrite Hsum by done. apply block_weight_ge; [done|lia|lia]. }
  pose proof (move_vertex_hier frame v nr g l cs Hok Hr Hnr Hge) as Hok'.
  destruct (decide (_b l !!! v = nr)) as [Heq|Hne];
    [|destruct (allow_move (_b l !!! v) nr l cs) eqn:Hallow].
  - unfold move_vertex, move_vertex_from in *.
    rewrite decide_True by done. cbn [fst snd].
    split; [exact Hwf|]. split; [reflexivity|].
    symmetry. apply list_insert_id. rewrite <- Heq.
    apply list_lookup_lookup_total_lt. lia.
  - pose proof (move_vertex_head_fields v nr g l cs Hne Hallow)
      as (Hret & Eb & Ev & EB & Ew).
    cbn zeta in *. rewrite Hret. split; [|done].
    apply well_formed_sizes. rewrite Eb, Ev, EB, Ew, length_insert.
    repeat split; try done.
    + by apply Forall_insert.
    + intros s Hs. rewrite block_weight_relabel by lia.
      rewrite <- Hsum by done.
      destruct (decide (nr = s)) as [->|Hns].
      * rewrite list_lookup_total_insert_eq by (rewrite length_insert; lia).
        rewrite list_lookup_total_insert_ne by done.
        rewrite decide_False by done. lia.
      * rewrite list_lookup_total_insert_ne by done.
        destruct (decide (_b l !!! v = s)) as [<-|Hrs].
        -- rewrite list_lookup_total_insert_eq by lia. lia.
        -- rewrite list_lookup_total_insert_ne by done. lia.
  - unfold move_vertex, move_vertex_from in *.
    rewrite decide_False, Hallow by done. cbn [negb fst snd]. done.
Qed.

(** X11. [move_vertex(v, nr)] to a block of the state keeps a well-formed
    state well formed, so that [check_node_counts] still accepts it; when
    it returns, [v] carries the label [nr] and no other label has changed,
    and when it throws, the state is as it was. *)
Theorem move_vertex_well_formed (v nr : nat) (g : graph_t) (l : BlockState)
    (cs : list BlockState) :
  well_formed g l cs -> (v < num_vertices g)%nat -> (nr < _B l)%nat ->
  well_formed g (move_vertex v nr g l cs).2.1 (move_vertex v nr g l cs).2.2
  /\ check_node_counts g (move_vertex v nr g l cs).2.1 = true
  /\ match (move_vertex v nr g l cs).1 with
     | Ok _ => _b (move_vertex v nr g l cs).2.1 = <[ v := nr ]> (_b l)
     | Raise _ => (move_vertex v nr g l cs).2 = (l, cs)
     end.
Proof.
  intros Hwf Hv Hnr.
  destruct (move_vertex_keeps v nr g l cs Hwf Hv Hnr) as (Hwf' & _ & Hb).
  split; [exact Hwf'|]. split; [|exact Hb].
  by destruct Hwf' as (_ & _ & _ & _ & Hchk).
Qed.

(** X12. [move_vertices(vs, nrs)] with targets among the blocks keeps a
    well-formed state well formed, and its blocks, wherever it ends.  It
    applies a prefix of the pairs, in order: the state it leaves is the
    state after the first [k] moves, which all returned, with the labels of
    those pairs written.  When it returns, [k] is the number of pairs;
    when it throws, the exception is that of the move of pair [k] on that
    state, which the move left unchanged: the moves before it stay
    applied. *)
Theorem move_vertices_well_formed (vs nrs : list nat) (g : graph_t)
    (l : BlockState) (cs : list BlockState) :
  well_formed g l cs ->
  Forall (fun v => (v < num_vertices g)%nat) vs ->
  Forall (fun nr => (nr < _B l)%nat) nrs ->
  well_formed g (move_vertices vs nrs g l cs).2.1
                (move_vertices vs nrs g l cs).2.2
  /\ _B (move_vertices vs nrs g l cs).2.1 = _B l
  /\ exists k : nat,
       (k <= length (zip vs nrs))%nat
       /\ move_vertices (take k vs) (take k nrs) g l cs
          = (Ok tt, (move_vertices vs nrs g l cs).2)
       /\ _b (move_vertices vs nrs g l cs).2.1
          = foldl (fun b p => <[ p.1 := p.2 ]> b) (_b l)
              (take k (zip vs nrs))
       /\ match (move_vertices vs nrs g l cs).1 with
          | Ok _ => k = length (zip vs nrs)
          | Raise e =>
              (k < length (zip vs nrs))%nat
              /\ move_vertex (vs !!! k) (nrs !!! k) g
                   (move_vertices vs nrs g l cs).2.1
                   (move_vertices vs nrs g l cs).2.2
                 = (Raise e, (move_vertices vs nrs g l cs).2)
          end.
Proof.
  revert nrs l cs.
  induction vs as [|v vs IH]; intros nrs l cs Hwf Hvs Hnrs.
  { split; [by destruct nrs|]. split; [by destruct nrs|].
    exists 0%nat. by destruct nrs. }
  destruct nrs as [|nr nrs].
  { split; [done|]. split; [done|]. by exists 0%nat. }
  inversion Hvs as [|? ? Hv Hvs']; subst.
  inversion Hnrs as [|? ? Hnr Hnrs']; subst.
  destruct (move_vertex_keeps v nr g l cs Hwf Hv Hnr) as (Hwf' & HB & Hb).
  cbn [move_vertices zip zip_with length].
  destruct (move_vertex v nr g l cs) as [[[]|e] [l1 cs1]] eqn:Hmv;
    cbn [fst snd] in *.
  - destruct (IH nrs l1 cs1 Hwf' Hvs') as (Hwf2 & HB2 & k & Hk & Hpre & Hb2 & Hend).
    { by rewrite HB. }
    split; [done|]. split; [congruence|].
    exists (S k). split; [cbn [zip_with]; lia|].
    split; [cbn [take move_vertices]; by rewrite Hmv|].
    split; [cbn [take foldl fst snd]; by rewrite Hb2, Hb|].
    destruct (move_vertices vs nrs g l1 cs1).1 as [[]|e].
    + by rewrite Hend.
    + destruct Hend as [Hlt Hthrow]. split; [lia|exact Hthrow].
  - injection Hb as -> ->. split; [done|]. split; [done|].
    exists 0%nat. split; [lia|]. split; [reflexivity|].
    split; [reflexivity|]. split; [lia|exact Hmv].
Qed.

End MovesWellFormed.
(** ** New blocks and whole partitions *)

Section NewBlocks.

Context `{PartitionStats} `{!Externals} `{!ApplyDelta}.

(** [add_block(n)] keeps a state well formed. *)
Lemma add_block_keeps (n : nat) (g : graph_t) (l : BlockState)
    (cs : list BlockState) :
  well_formed g l cs ->
  well_formed g (add_block n g l cs).2.1 (add_block n g l cs).2.2.
Proof.
  intros (Hok & Hlb & Hlv & Hlab & Hsum)%well_formed_sizes.
  pose proof (hier_ok_head _ _ Hok) as (_ & Hlw & _).
  destruct (add_block_fields n g l cs Hlw)
    as (EB & Eold & Enew & _ & _ & Eb & Ev & _).
  apply well_formed_sizes. rewrite Eb, Ev, EB.
  split; [by apply add_block_hier|]. repeat split; try done.
  - eapply Forall_impl; [exact Hlab|]. intros r Hr. simpl in *. lia.
  - intros r Hr. destruct (decide (r < _B l)%nat) as [Hold|Hnew].
    + rewrite Eold by done. by apply Hsum.
    + rewrite Enew by lia. symmetry. apply block_weight_unused.
      eapply Forall_impl; [exact Hlab|]. intros s Hs. simpl in *. lia.
Qed.

(** Giving an empty block the labels of another one: the coupled state may
    file the weightless vertex under any of its blocks. *)
Lemma relabel_empty_keeps (g : graph_t) (l l' : BlockState)
    (cs cs' : list BlockState) (r x : nat) :
  well_formed g l cs ->
  node_view l' = node_view l ->
  match cs, cs' with
  | [], [] => True
  | h :: rest, h' :: rest' =>
      rest' = rest
      /\ (x < _B h)%nat /\ _b h' = <[ r := x ]> (_b h)
      /\ _vweight h' = _vweight h /\ _wr h' = _wr h /\ _B h' = _B h
      /\ _candidate_groups h' = _candidate_groups h
      /\ _empty_groups h' = _empty_groups h
  | _, _ => False
  end ->
  (r < _B l)%nat -> _wr l !!! r = 0 ->
  well_formed g l' cs'.
Proof.
  intros (Hok & Hlb & Hlv & Hlab & Hsum)%well_formed_sizes Hview Hcs Hr Hz.
  apply node_view_fields in Hview as (Eb & Ev & Ew & EB & Ec & Ee).
  apply well_formed_sizes. rewrite Eb, Ev, EB, Ew.
  split; [|done].
  assert (Hlevel : level_ok l').
  { pose proof (hier_ok_head _ _ Hok) as Hl. unfold level_ok, I4 in *.
    by rewrite Ee, Ec, EB, Ew, Ev. }
  destruct cs as [|h rest], cs' as [|h' rest']; try done.
  destruct Hcs as (-> & Hx & Ebh & Evh & Ewh & EBh & Ech & Eeh).
  destruct Hok as (_ & Hc & Hh). split; [done|]. split.
  - apply coupled_ok_pointwise in Hc
      as (Hhb & Hhv & HhB & Hhlab & Hhz & Hhsum).
    apply coupled_ok_pointwise.
    rewrite Ebh, Evh, EBh, Ewh, length_insert, EB, Ew.
    repeat split; try done.
    + intros i Hi. destruct (decide (i = r)) as [->|Hne].
      * rewrite list_lookup_total_insert_eq by lia. done.
      * rewrite list_lookup_total_insert_ne by done. by apply Hhlab.
    + intros s Hs. rewrite block_weight_relabel by lia.
      rewrite (Hhz r Hr Hz), Hhsum by done.
      repeat case_decide; lia.
  - assert (Hl : level_ok h') .
    { pose proof (hier_ok_head _ _ Hh) as Hl. unfold level_ok, I4 in *.
      by rewrite Eeh, Ech, EBh, Ewh, Evh. }
    destruct rest as [|h2 rest]; [simpl; tauto|].
    destruct Hh as (_ & Hc2 & Hh2). split; [done|]. split; [|done].
    unfold coupled_ok in *. by rewrite EBh, Ewh.
Qed.

(** X13. When [get_empty_block(v)] adds a block (no block is empty, or
    [force_add] is set) on a well-formed state, it returns the new block
    [s], which is empty and filed under [_empty_groups]; the state stays
    well formed; and the labels it copies make [s] a block [v] can move to:
    [allow_move(b[v], s)] holds and [move_vertex(v, s)] does not throw. *)
Theorem get_empty_block_adds (idx_back : gset nat -> nat) (v : nat)
    (force_add : bool) (g : graph_t) (l : BlockState)
    (cs : list BlockState) :
  well_formed g l cs -> (v < num_vertices g)%nat ->
  bool_decide (_empty_groups l = ∅) || force_add = true ->
  let res := get_empty_block idx_back v force_add g l cs in
  res.1 = _B l /\ _B res.2.1 = S (_B l) /\ _b res.2.1 = _b l
  /\ well_formed g res.2.1 res.2.2
  /\ res.1 ∈ _empty_groups res.2.1 /\ _wr res.2.1 !!! res.1 = 0
  /\ allow_move (_b l !!! v) res.1 res.2.1 res.2.2 = true
  /\ (move_vertex v res.1 g res.2.1 res.2.2).1 = Ok tt.
Proof.
  intros Hwf Hv Hc. cbn zeta. unfold get_empty_block. rewrite Hc.
  pose proof Hwf as (Hok & Hlb & _ & Hlab & _)%well_formed_sizes.
  pose proof (hier_ok_head _ _ Hok) as (_ & Hlw & _).
  assert (Hr : (_b l !!! v < _B l)%nat).
  { apply (Forall_lookup_total_1 (fun r => (r < _B l)%nat)); [done|lia]. }
  pose proof (add_block_keeps 1 g l cs Hwf) as Hwf1.
  destruct (add_block_fields 1 g l cs Hlw)
    as (EB & _ & Enew & Ee & _ & Eb & _ & Elbc).
  assert (Hret : (add_block 1 g l cs).1 = Some (_B l)).
  { change ((add_block 1 g l cs).1)
      with (Some (pred (_B (add_block 1 g l cs).2.1))).
    rewrite EB. f_equal. lia. }
  destruct (add_block 1 g l cs) as [ret [l1 cs1]]. cbn [fst snd] in *.
  subst ret. rewrite Eb. cbn [fst snd].
  set (r := _b l !!! v) in *. set (s := _B l) in *.
  set (l2 := set_bclabel _ l1).
  set (cs2 := match cs1 with [] => [] | h :: rest => _ end).
  assert (Hwf2 : well_formed g l2 cs2).
  { apply (relabel_empty_keeps g l1 l2 cs1 cs2 s
             (match cs1 with [] => 0%nat | h :: _ => _b h !!! r end) Hwf1);
      [reflexivity| |lia|apply Enew; lia].
    subst cs2. destruct cs1 as [|h rest]; [done|].
    destruct Hwf1 as ((_ & Hc1 & _) & _).
    apply coupled_ok_pointwise in Hc1 as (_ & _ & _ & Hhlab & _).
    repeat split; try done. apply Hhlab. lia. }
  assert (Hallow : allow_move r s l2 cs2 = true).
  { rewrite allow_move_unfold. apply andb_true_iff. split.
    - subst cs2. destruct cs1 as [|h rest]; [done|].
      apply orb_true_iff. left. apply Nat.eqb_eq.
      destruct Hwf1 as ((_ & Hc1 & _) & _).
      apply coupled_ok_pointwise in Hc1 as (Hhb & _).
      change (<[ s := _b h !!! r ]> (_b h) !!! r
              = <[ s := _b h !!! r ]> (_b h) !!! s).
      rewrite list_lookup_total_insert_eq by lia.
      rewrite list_lookup_total_insert_ne by lia. reflexivity.
    - apply Z.eqb_eq.
      change (<[ s := _bclabel l1 !!! r ]> (_bclabel l1) !!! r
              = <[ s := _bclabel l1 !!! r ]> (_bclabel l1) !!! s).
      rewrite list_lookup_total_insert_eq by lia.
      rewrite list_lookup_total_insert_ne by lia. reflexivity. }
  split; [reflexivity|]. split; [change (_B l1 = S s); lia|].
  split; [exact Eb|]. split; [exact Hwf2|].
  split.
  { change (s ∈ _empty_groups l1). rewrite Ee.
    apply elem_of_union_r, elem_of_set_seq. lia. }
  split; [apply Enew; lia|]. split; [exact Hallow|].
  unfold move_vertex, move_vertex_from.
  change (_b l2) with (_b l1). rewrite Eb. fold r.
  rewrite decide_False by lia. by rewrite Hallow.
Qed.

End NewBlocks.
(** ** Setting a whole partition *)

Section SetPartition.

Context `{PartitionStats} `{!Externals} `{!ApplyDelta}.
Hypothesis frame : apply_delta_frame.

(** The [while] loop of [set_partition]: [add_block()] called [k] times. *)
Lemma add_blocks_keeps (g : graph_t) (k : nat) (l : BlockState)
    (cs : list BlockState) :
  well_formed g l cs ->
  well_formed g
    (Nat.iter k (fun st => (add_block 1 g st.1 st.2).2) (l, cs)).1
    (Nat.iter k (fun st => (add_block 1 g st.1 st.2).2) (l, cs)).2
  /\ _B (Nat.iter k (fun st => (add_block 1 g st.1 st.2).2) (l, cs)).1
     = (_B l + k)%nat
  /\ _b (Nat.iter k (fun st => (add_block 1 g st.1 st.2).2) (l, cs)).1
     = _b l.
Proof.
  intros Hwf. induction k as [|k (Hwf1 & EB & Eb)].
  - simpl. split; [done|]. split; [lia|done].
  - rewrite Nat.iter_succ.
    destruct (Nat.iter k _ (l, cs)) as [l1 cs1]. cbn [fst snd] in *.
    pose proof (add_block_keeps 1 g l1 cs1 Hwf1) as Hwf2.
    destruct Hwf1 as (Hok & _).
    pose proof (hier_ok_head _ _ Hok) as (_ & Hlw & _).
    destruct (add_block_fields 1 g l1 cs1 Hlw)
      as (EB' & _ & _ & _ & _ & Eb' & _).
    split; [done|]. split; [lia|congruence].
Qed.

Lemma set_partition_step_keeps (b : list nat) (g : graph_t) (v : nat)
    (l : BlockState) (cs : list BlockState) :
  well_formed g l cs -> (v < num_vertices g)%nat ->
  well_formed g (set_partition_step b g v l cs).2.1
                (set_partition_step b g v l cs).2.2
  /\ ((set_partition_step b g v l cs).1 = Ok tt ->
      _b (set_partition_step b g v l cs).2.1 = <[ v := b !!! v ]> (_b l)).
Proof.
  intros Hwf Hv. unfold set_partition_step.
  destruct (add_blocks_keeps g (S (b !!! v) - _B l) l cs Hwf)
    as (Hwf1 & EB & Eb).
  destruct (Nat.iter _ _ (l, cs)) as [l1 cs1]. cbn [fst snd] in *.
  set (r := b !!! v) in *.
  assert (Hr : (r < _B l1)%nat) by lia.
  assert (Hwf2 :
    exists l2 cs2,
      (if _wr l1 !!! r =? 0
       then (set_bclabel (fun bc => <[ r := bc !!! (_b l1 !!! v) ]> bc) l1,
             match cs1 with
             | [] => []
             | h :: rest =>
                 set_b (fun hb => <[ r := hb !!! (_b l1 !!! v) ]> hb) h
                 :: rest
             end)
       else (l1, cs1)) = (l2, cs2)
      /\ well_formed g l2 cs2 /\ _B l2 = _B l1 /\ _b l2 = _b l1).
  { destruct (_wr l1 !!! r =? 0) eqn:Hz; [|by exists l1, cs1].
    apply Z.eqb_eq in Hz. eexists _, _. split; [reflexivity|].
    split; [|done].
    apply (relabel_empty_keeps g l1 _ cs1 _ r
             (match cs1 with
              | [] => 0%nat
              | h :: _ => _b h !!! (_b l1 !!! v)
              end) Hwf1); [reflexivity| |done|done].
    destruct cs1 as [|h rest]; [done|].
    pose proof Hwf1 as ((_ & Hc1 & _) & Hlb1 & _ & Hlab1 & _).
    apply coupled_ok_pointwise in Hc1 as (_ & _ & _ & Hhlab & _).
    repeat split; try done. apply Hhlab.
    apply (Forall_lookup_total_1 (fun r => (r < _B l1)%nat)); [done|lia]. }
  destruct Hwf2 as (l2 & cs2 & -> & Hwf2 & EB2 & Eb2).
  destruct (move_vertex_keeps frame v r g l2 cs2 Hwf2 Hv) as (Hwf3 & _ & Hb);
    [lia|].
  split; [done|]. intros Hret. rewrite Hret in Hb. congruence.
Qed.

Lemma set_partition_loop_keeps (b : list nat) (g : graph_t)
    (vs : list nat) :
  forall (l : BlockState) (cs : list BlockState),
    well_formed g l cs ->
    Forall (fun v => (v < num_vertices g)%nat) vs ->
    well_formed g (set_partition_loop b g vs l cs).2.1
                  (set_partition_loop b g vs l cs).2.2
    /\ ((set_partition_loop b g vs l cs).1 = Ok tt ->
        _b (set_partition_loop b g vs l cs).2.1
        = foldl (fun cur v => <[ v := b !!! v ]> cur) (_b l) vs).
Proof.
  induction vs as [|v vs IH]; intros l cs Hwf Hvs; [done|].
  inversion Hvs as [|? ? Hv Hvs']; subst.
  destruct (set_partition_step_keeps b g v l cs Hwf Hv) as (Hwf1 & Hb).
  cbn [set_partition_loop foldl].
  destruct (set_partition_step b g v l cs) as [[[]|e] [l1 cs1]];
    cbn [fst snd] in *.
  - destruct (IH l1 cs1 Hwf1 Hvs') as (Hwf2 & Hb2).
    split; [done|]. intros Hret. rewrite Hb2 by done. by rewrite Hb.
  - split; [done|discriminate].
Qed.

(** Writing every position of a list gives the list written. *)
Lemma foldl_insert_all (b : list nat) (n k : nat) (cur : list nat) :
  length cur = n -> length b = n -> (k <= n)%nat ->
  length (foldl (fun cur v => <[ v := b !!! v ]> cur) cur (seq 0 k)) = n
  /\ forall i, (i < k)%nat ->
       foldl (fun cur v => <[ v := b !!! v ]> cur) cur (seq 0 k) !!! i
       = b !!! i.
Proof.
  intros Hc Hb. induction k as [|k IH]; intros Hk.
  - split; [done|]. intros i Hi. lia.
  - destruct IH as [Hlen Hi]; [lia|].
    rewrite seq_S, foldl_app. cbn [foldl Nat.add].
    split; [by rewrite length_insert|].
    intros i Hik. destruct (decide (i = k)) as [->|Hne].
    + by rewrite list_lookup_total_insert_eq by lia.
    + rewrite list_lookup_total_insert_ne by done. apply Hi. lia.
Qed.

(** X14. [set_partition(b)] with one label per vertex keeps a well-formed
    state well formed, adding the blocks the labels ask for; when it
    returns, the partition of the state is [b], and when a move throws
    half-way, [check_node_counts] still accepts the state it leaves. *)
Theorem set_partition_well_formed (b : list nat) (g : graph_t)
    (l : BlockState) (cs : list BlockState) :
  well_formed g l cs -> length b = num_vertices g ->
  well_formed g (set_partition b g l cs).2.1 (set_partition b g l cs).2.2
  /\ ((set_partition b g l cs).1 = Ok tt ->
      _b (set_partition b g l cs).2.1 = b).
Proof.
  intros Hwf Hlen. unfold set_partition.
  destruct (set_partition_loop_keeps b g (seq 0 (num_vertices g)) l cs Hwf)
    as (Hwf' & Hb).
  { apply Forall_seq. intros v Hv. lia. }
  split; [done|]. intros Hret. rewrite Hb by done.
  destruct Hwf as (_ & Hlb & _).
  destruct (foldl_insert_all b (num_vertices g) (num_vertices g) (_b l))
    as [Hl Hi]; [done|done|lia|].
  apply (list_eq_same_length _ _ (num_vertices g)); [done|done|].
  intros i x y Hin Hx Hy.
  apply list_lookup_total_correct in Hx, Hy. rewrite <- Hx, <- Hy.
  by apply Hi.
Qed.

End SetPartition.
(** ** The partition statistics are in range *)

Section StatsInRange.

Context `{PartitionStats}.

Lemma foldl_alter_length {A : Type} (f : nat -> A -> A) (idx : nat -> nat)
    (rs : list nat) :
  forall st : list A,
    length (foldl (fun st r => alter (f r) (idx r) st) st rs) = length st.
Proof.
  induction rs as [|r rs IH]; intros st; [done|].
  cbn [foldl]. by rewrite IH, length_alter.
Qed.

Lemma init_partition_stats_length (g : graph_t) (l : BlockState) :
  length (_partition_stats (init_partition_stats g l))
  = S (max_list ((fun v => _pclabel l !!! v) <$> seq 0 (num_vertices g))).
Proof.
  unfold init_partition_stats.
  change (_partition_stats (set_partition_stats ?f ?l0))
    with (f (_partition_stats l0)).
  cbv beta. rewrite foldl_alter_length, length_fmap, length_seq.
  reflexivity.
Qed.

(** X15. [get_partition_stats(v)] on a vertex of the graph returns an
    object of [_partition_stats]: the index it reads is in range, because
    [init_partition_stats] makes one object for every constraint class up
    to the largest one of a vertex. *)
Theorem get_partition_stats_in_range (g : graph_t) (v : nat)
    (l : BlockState) :
  (v < num_vertices g)%nat ->
  (_pclabel l !!! v
   < length (_partition_stats (init_partition_stats g l)))%nat
  /\ ((get_partition_stats g v l).1
      < length (_partition_stats (get_partition_stats g v l).2))%nat.
Proof.
  intros Hv.
  assert (Hinit : (_pclabel l !!! v
                   < length (_partition_stats (init_partition_stats g l)))%nat).
  { rewrite init_partition_stats_length. apply Nat.lt_succ_r.
    apply max_list_elem_of_le.
    apply (list_elem_of_fmap_2 (fun v => _pclabel l !!! v)).
    apply elem_of_seq. lia. }
  split; [exact Hinit|].
  unfold get_partition_stats. cbn [fst snd].
  destruct (length (_partition_stats l) <=? _pclabel l !!! v)%nat eqn:E;
    [exact Hinit|].
  by apply Nat.leb_gt in E.
Qed.

End StatsInRange.

Section StatsInRangeExample.

#[local] Existing Instance ps_model_stats.

Lemma get_partition_stats_in_range_witness :
  length (_partition_stats stale_stats_state) = 0%nat
  /\ ((get_partition_stats triangle 2 stale_stats_state).1
      < length (_partition_stats
                  (get_partition_stats triangle 2 stale_stats_state).2))%nat.
Proof.
  split; [reflexivity|].
  apply (get_partition_stats_in_range triangle 2 stale_stats_state).
  vm_compute. lia.
Defined.

End StatsInRangeExample.

(** ** Edges of the block graph *)

Section BlockGraphEdges.

Context `{PartitionStats} `{!Externals} `{!ApplyDelta}.

(** [add_edge] only adds zero counts. *)
Lemma add_edge_grows (cs : list BlockState) :
  forall (g : graph_t) (e : nat * nat) (l : BlockState),
    Forall2 (fun a a' => _mrs a ⊆ _mrs a' /\ _b a' = _b a)
            (l :: cs)
            ((add_edge g e l cs).1 :: (add_edge g e l cs).2).
Proof.
  induction cs as [|h rest IH]; intros g e l; cbn [add_edge];
    set (me := canon (directed g) (_b l !!! e.1, _b l !!! e.2));
    destruct (_mrs l !! me) as [m|] eqn:Hme; cbn [fst snd].
  - by repeat constructor.
  - repeat constructor. by apply insert_subseteq.
  - apply Forall_Forall2_diag, Forall_forall. done.
  - set (l1 := set_bdrec _ _).
    specialize (IH (bg_of g l1) me h).
    destruct (add_edge (bg_of g l1) me h rest) as [h1 rest1].
    cbn [fst snd] in *. constructor; [|exact IH].
    split; [by apply insert_subseteq|reflexivity].
Qed.

(** X17. [add_edge(e)] changes no count there is, at any level; afterwards
    the block pair of [e] is an edge of the block graph, and a second
    [add_edge(e)] changes nothing. *)
Theorem add_edge_postcondition (g : graph_t) (e : nat * nat)
    (l : BlockState) (cs : list BlockState) :
  Forall2 (fun a a' => _mrs a ⊆ _mrs a')
          (l :: cs) ((add_edge g e l cs).1 :: (add_edge g e l cs).2)
  /\ is_Some (_mrs (add_edge g e l cs).1
                !! canon (directed g) (_b l !!! e.1, _b l !!! e.2))
  /\ add_edge g e (add_edge g e l cs).1 (add_edge g e l cs).2
     = add_edge g e l cs.
Proof.
  split.
  { eapply Forall2_impl; [apply add_edge_grows|]. by intros a a' [? _]. }
  assert (Hin : is_Some (_mrs (add_edge g e l cs).1
                           !! canon (directed g) (_b l !!! e.1, _b l !!! e.2))
                /\ _b (add_edge g e l cs).1 = _b l).
  { destruct cs as [|h rest]; cbn [add_edge];
      set (me := canon (directed g) (_b l !!! e.1, _b l !!! e.2));
      destruct (_mrs l !! me) as [m|] eqn:Hme; cbn [fst];
      try (split; [by rewrite Hme|reflexivity]).
    - split; [|reflexivity]. cbn. by rewrite lookup_insert_eq.
    - destruct (add_edge _ me h rest) as [h1 rest1]. cbn [fst].
      split; [|reflexivity]. cbn. by rewrite lookup_insert_eq. }
  destruct Hin as [[m Hm] Hb]. split; [by exists m|].
  destruct (add_edge g e l cs) as [l' cs']. cbn [fst snd] in *.
  destruct cs' as [|h' rest']; cbn [add_edge]; by rewrite Hb, Hm.
Qed.

(** X16. On a hierarchy that keeps no block-graph edge with a zero count,
    [remove_edge(e)] undoes [add_edge(e)], whatever became of the graph
    in between (it is directed or not as before): the edges of the block
    graph and their counts are those from before, at every level, and the
    graph is left without [e].  The first part is for any pair of end
    points, the second for [e] the [i]-th edge of the graph. *)
Theorem remove_edge_undoes_add_edge (g g' : graph_t) (l : BlockState)
    (cs : list BlockState) :
  directed g' = directed g ->
  Forall no_zero_counts (l :: cs) ->
  (forall e : nat * nat,
     _mrs <$> ((remove_edge_bg g' e (add_edge g e l cs).1
                  (add_edge g e l cs).2).1
               :: (remove_edge_bg g' e (add_edge g e l cs).1
                     (add_edge g e l cs).2).2)
     = _mrs <$> (l :: cs))
  /\ (forall (i : nat) (e : edge_t),
        edges g' !! i = Some e ->
        (remove_edge i g' (add_edge g (source e, target e) l cs).1
           (add_edge g (source e, target e) l cs).2).1
        = remove_graph_edge i g'
        /\ _mrs <$> ((remove_edge i g'
                        (add_edge g (source e, target e) l cs).1
                        (add_edge g (source e, target e) l cs).2).2.1
                     :: (remove_edge i g'
                           (add_edge g (source e, target e) l cs).1
                           (add_edge g (source e, target e) l cs).2).2.2)
           = _mrs <$> (l :: cs)).
Proof.
  intros Hdir0 Hnz0.
  assert (Hbg : forall e : nat * nat,
             _mrs <$> ((remove_edge_bg g' e (add_edge g e l cs).1
                          (add_edge g e l cs).2).1
                       :: (remove_edge_bg g' e (add_edge g e l cs).1
                             (add_edge g e l cs).2).2)
             = _mrs <$> (l :: cs)).
  { revert g g' l Hdir0 Hnz0.
    induction cs as [|h rest IH]; intros g g' l Hdir Hnz e;
      inversion Hnz as [|? ? Hl Hrest]; subst; cbn [add_edge];
      set (me := canon (directed g) (_b l !!! e.1, _b l !!! e.2));
      destruct (_mrs l !! me) as [m|] eqn:Hme; cbn [fst snd].
    - cbn [remove_edge_bg]. rewrite Hdir. fold me. rewrite Hme.
      destruct m; [by destruct (Hl me)|done|done].
    - cbn [remove_edge_bg]. rewrite Hdir.
      change (_mrs (set_bdrec ?f (set_brec ?f' (set_mrs ?f'' l))))
        with (f'' (_mrs l)).
      change (_b (set_bdrec ?f (set_brec ?f' (set_mrs ?f'' l))))
        with (_b l).
      fold me. cbv beta. rewrite lookup_insert_eq.
      cbn [fst snd fmap list_fmap].
      f_equal. cbn. by apply delete_insert_id.
    - cbn [remove_edge_bg]. rewrite Hdir. fold me. rewrite Hme.
      destruct m; [by destruct (Hl me)|done|done].
    - set (l1 := set_bdrec _ _).
      assert (Hl1 : _mrs l1 = <[ me := 0 ]> (_mrs l) /\ _b l1 = _b l)
        by done.
      destruct Hl1 as [Hm1 Hb1].
      pose proof (fun g2 Hd => IH (bg_of g l1) g2 h Hd Hrest me) as IH'.
      destruct (add_edge (bg_of g l1) me h rest) as [h1 rest1].
      cbn [fst snd] in *.
      cbn [remove_edge_bg]. rewrite Hdir, Hb1. fold me.
      rewrite Hm1, lookup_insert_eq.
      set (l2 := set_mrs _ l1).
      specialize (IH' (bg_of g' l2) Hdir).
      destruct (remove_edge_bg (bg_of g' l2) me h1 rest1) as [h2 rest2].
      cbn [fst snd] in *. rewrite fmap_cons, IH'. rewrite !fmap_cons.
      f_equal. change (_mrs l2) with (delete me (_mrs l1)). rewrite Hm1.
      by apply delete_insert_id. }
  split; [exact Hbg|].
  intros i e Hi. unfold remove_edge. rewrite Hi. cbn [fst snd].
  split; [reflexivity|]. apply Hbg.
Qed.

End BlockGraphEdges.
(** ** The operations on the two-level triangle state *)

Section WellFormedExample.

#[local] Existing Instance ps_model_stats.
#[local] Existing Instance externals_model.
#[local] Existing Instance apply_delta_model.

Lemma triangle_well_formed : well_formed triangle triangle_state [upper_state].
Proof.
  split; [exact triangle_hier_ok|]. split; [reflexivity|].
  split; [reflexivity|]. split; [|reflexivity].
  repeat constructor.
Qed.

Lemma triangle_no_zero_counts :
  Forall no_zero_counts [triangle_state; upper_state].
Proof.
  repeat constructor; intros k Hk.
  - change (({[ (0, 0)%nat := 1; (0, 1)%nat := 2 ]} : gmap (nat * nat) Z)
            !! k = Some 0) in Hk.
    apply lookup_insert_Some in Hk as [[_ Hk]|[_ Hk]]; [discriminate|].
    apply lookup_singleton_Some in Hk as [_ Hk]. discriminate.
  - change (({[ (0, 0)%nat := 3 ]} : gmap (nat * nat) Z) !! k = Some 0)
      in Hk.
    apply lookup_singleton_Some in Hk as [_ Hk]. discriminate.
Qed.

Lemma move_vertex_well_formed_witness :
  (move_vertex 2 0 triangle triangle_state [upper_state]).1 = Ok tt
  /\ check_node_counts triangle
       (move_vertex 2 0 triangle triangle_state [upper_state]).2.1 = true
  /\ _b (move_vertex 2 0 triangle triangle_state [upper_state]).2.1
     = [0; 0; 0]%nat.
Proof.
  assert (Hret : (move_vertex 2 0 triangle triangle_state
                    [upper_state]).1 = Ok tt) by (vm_compute; reflexivity).
  assert (Hv : (2 < num_vertices triangle)%nat) by (vm_compute; lia).
  assert (Hnr : (0 < _B triangle_state)%nat) by (vm_compute; lia).
  pose proof (move_vertex_well_formed apply_delta_model_frame 2 0 triangle
                triangle_state [upper_state] triangle_well_formed Hv Hnr)
    as (_ & Hchk & Hb).
  split; [exact Hret|]. split; [exact Hchk|].
  rewrite Hret in Hb. exact Hb.
Defined.

Lemma barrier_well_formed : well_formed triangle barrier_state [upper_state].
Proof.
  destruct triangle_well_formed as (Hok & Hb & Hv & Hlab & Hchk).
  split; [|done].
  by apply (hier_ok_view [upper_state] [upper_state] triangle_state
              barrier_state).
Qed.

(** On the barrier state the first pair (a move of vertex 0 to its own
    block) returns and the second (vertex 2 across the barrier) throws:
    [k = 1]. *)
Lemma move_vertices_well_formed_witness :
  (move_vertices [0; 2]%nat [0; 0]%nat triangle barrier_state
     [upper_state]).1 = Raise (ValueException barrier_msg)
  /\ check_node_counts triangle
       (move_vertices [0; 2]%nat [0; 0]%nat triangle barrier_state
          [upper_state]).2.1 = true
  /\ _B (move_vertices [0; 2]%nat [0; 0]%nat triangle barrier_state
           [upper_state]).2.1 = 2%nat.
Proof.
  assert (Hvs : Forall (fun v => (v < num_vertices triangle)%nat)
                       [0; 2]%nat)
    by (repeat constructor; vm_compute; lia).
  assert (Hnrs : Forall (fun nr => (nr < _B barrier_state)%nat)
                        [0; 0]%nat)
    by (repeat constructor; vm_compute; lia).
  pose proof (move_vertices_well_formed apply_delta_model_frame
                [0; 2]%nat [0; 0]%nat triangle barrier_state [upper_state]
                barrier_well_formed Hvs Hnrs)
    as ((_ & _ & _ & _ & Hchk) & HB & _).
  split; [vm_compute; reflexivity|]. split; [exact Hchk|exact HB].
Defined.

Lemma get_empty_block_adds_witness :
  (get_empty_block (fun _ => 0%nat) 2 true triangle triangle_state
     [upper_state]).1 = 2%nat
  /\ allow_move 1 2
       (get_empty_block (fun _ => 0%nat) 2 true triangle triangle_state
          [upper_state]).2.1
       (get_empty_block (fun _ => 0%nat) 2 true triangle triangle_state
          [upper_state]).2.2 = true.
Proof.
  assert (Hv : (2 < num_vertices triangle)%nat) by (vm_compute; lia).
  pose proof (get_empty_block_adds (fun _ => 0%nat) 2 true triangle
                triangle_state [upper_state] triangle_well_formed Hv
                eq_refl)
    as (Hs & _ & _ & _ & _ & _ & Hallow & _).
  split; [exact Hs|]. rewrite Hs in Hallow. exact Hallow.
Defined.

Lemma set_partition_well_formed_witness :
  (set_partition [0; 1; 2]%nat triangle triangle_state [upper_state]).1
  = Ok tt
  /\ _b (set_partition [0; 1; 2]%nat triangle triangle_state
           [upper_state]).2.1 = [0; 1; 2]%nat.
Proof.
  assert (Hret : (set_partition [0; 1; 2]%nat triangle triangle_state
                    [upper_state]).1 = Ok tt) by (vm_compute; reflexivity).
  pose proof (set_partition_well_formed apply_delta_model_frame
                [0; 1; 2]%nat triangle triangle_state [upper_state]
                triangle_well_formed eq_refl)
    as (_ & Hb).
  split; [exact Hret|]. exact (Hb Hret).
Defined.

(** The loop of [triangle_loop] falls on the block pair (1, 1), which
    [add_edge] makes an edge of the block graph and [remove_edge] drops
    again, together with the loop itself. *)
Lemma remove_edge_undoes_add_edge_witness :
  _mrs (add_edge triangle_loop (2, 2)%nat triangle_state [upper_state]).1
    !! (1, 1)%nat = Some 0
  /\ (remove_edge 3 triangle_loop
        (add_edge triangle_loop (2, 2)%nat triangle_state [upper_state]).1
        (add_edge triangle_loop (2, 2)%nat triangle_state [upper_state]).2).1
     = triangle
  /\ _mrs <$> ((remove_edge 3 triangle_loop
                  (add_edge triangle_loop (2, 2)%nat triangle_state
                     [upper_state]).1
                  (add_edge triangle_loop (2, 2)%nat triangle_state
                     [upper_state]).2).2.1
               :: (remove_edge 3 triangle_loop
                     (add_edge triangle_loop (2, 2)%nat triangle_state
                        [upper_state]).1
                     (add_edge triangle_loop (2, 2)%nat triangle_state
                        [upper_state]).2).2.2)
     = _mrs <$> [triangle_state; upper_state].
Proof.
  destruct (remove_edge_undoes_add_edge triangle_loop triangle_loop
              triangle_state [upper_state] eq_refl triangle_no_zero_counts)
    as [_ Hi].
  destruct (Hi 3%nat (mk_edge 2 2 0) eq_refl) as [Hg Hm].
  split; [vm_compute; reflexivity|]. split; [exact Hg|exact Hm].
Defined.

End WellFormedExample.

(** ** The edge counts [check_edge_counts] recounts *)

Section EdgeCountsFacts.

Context `{PartitionStats} `{!Externals} `{!ApplyDelta}.

(** The recount of a list of edges, from any starting map. *)
Lemma recount_lookup (g : graph_t) (l : BlockState) (es : list edge_t) :
  forall (m0 : gmap (nat * nat) Z) (k : nat * nat),
    default 0
      (foldl (fun mrs e =>
                partial_alter (fun o => Some (default 0 o + eweight e))
                              (block_pair g l e) mrs) m0 es !! k)
    = default 0 (m0 !! k)
      + foldr (fun e acc =>
                 (if decide (block_pair g l e = k) then eweight e else 0)
                 + acc) 0 es.
Proof.
  induction es as [|e es IH]; intros m0 k; cbn [foldl foldr]; [lia|].
  rewrite IH, lookup_partial_alter.
  destruct (decide (block_pair g l e = k)) as [->|Hne]; simpl; lia.
Qed.

Lemma recount_mrs_lookup (g : graph_t) (l : BlockState) (k : nat * nat) :
  default 0 (recount_mrs g l !! k) = pair_weight g l k.
Proof.
  unfold recount_mrs, pair_weight. rewrite recount_lookup.
  by rewrite lookup_empty.
Qed.

(** One level of [check_edge_counts]. *)
Lemma check_edge_counts_level (g : graph_t) (l : BlockState) :
  keys_canonical (directed g) l ->
  forallb (fun rs_m : nat * nat * Z =>
             default 0 (_mrs l !! rs_m.1) =? rs_m.2)
          (map_to_list (recount_mrs g l))
  && forallb (fun me : nat * nat * Z =>
                default 0 (recount_mrs g l !! canon (directed g) me.1)
                =? me.2)
             (map_to_list (_mrs l)) = true
  <-> forall k, default 0 (_mrs l !! k) = pair_weight g l k.
Proof.
  intros Hcanon. rewrite andb_true_iff, !forallb_forall. split.
  - intros [Hrec Hbg] k.
    destruct (recount_mrs g l !! k) as [m|] eqn:Hk.
    + specialize (Hrec (k, m)). cbn [fst snd] in Hrec.
      rewrite <- recount_mrs_lookup, Hk. apply Z.eqb_eq, Hrec.
      by apply list_elem_of_In, elem_of_map_to_list.
    + rewrite <- recount_mrs_lookup, Hk.
      destruct (_mrs l !! k) as [m'|] eqn:Hm; [|done].
      specialize (Hbg (k, m')). cbn [fst snd] in Hbg.
      rewrite Hcanon, Hk in Hbg by (by rewrite Hm).
      symmetry. apply Z.eqb_eq, Hbg.
      by apply list_elem_of_In, elem_of_map_to_list.
  - intros Heq. split.
    + intros [k m] Hin%list_elem_of_In%elem_of_map_to_list.
      cbn [fst snd]. apply Z.eqb_eq.
      by rewrite Heq, <- recount_mrs_lookup, Hin.
    + intros [k m] Hin%list_elem_of_In%elem_of_map_to_list.
      cbn [fst snd]. apply Z.eqb_eq.
      rewrite Hcanon by (by rewrite Hin).
      by rewrite recount_mrs_lookup, <- Heq, Hin.
Qed.

(** The same through the hierarchy, for the proofs below. *)
Lemma edge_counts_ok_check (cs : list BlockState) :
  forall (g : graph_t) (l : BlockState),
    Forall (keys_canonical (directed g)) (l :: cs) ->
    (check_edge_counts g l cs = true -> edge_counts_ok g l cs)
    /\ (edge_counts_ok g l cs -> check_edge_counts g l cs = true).
Proof.
  induction cs as [|h rest IH]; intros g l Hcanon;
    inversion Hcanon as [|? ? Hl Hrest]; subst;
    cbn [check_edge_counts edge_counts_ok]; cbv zeta;
    rewrite andb_true_iff, (check_edge_counts_level g l Hl).
  - tauto.
  - destruct (IH (bg_of g l) h Hrest). tauto.
Qed.

(** X18. On a hierarchy whose block-graph edges are keyed canonically,
    [check_edge_counts] accepts exactly when, at every level, the count of
    every block pair is the total weight of the edges between its blocks
    (zero for a pair without block-graph edge), the graph of a coupled
    state being the block graph below it. *)
Theorem check_edge_counts_spec (g : graph_t) (l : BlockState)
    (cs : list BlockState) :
  Forall (keys_canonical (directed g)) (l :: cs) ->
  check_edge_counts g l cs = true <-> edge_counts_ok g l cs.
Proof.
  revert g l. induction cs as [|h rest IH]; intros g l Hcanon;
    inversion Hcanon as [|? ? Hl Hrest]; subst;
    cbn [check_edge_counts edge_counts_ok]; cbv zeta;
    rewrite andb_true_iff, (check_edge_counts_level g l Hl).
  - tauto.
  - rewrite (IH (bg_of g l) h) by exact Hrest. tauto.
Qed.

Lemma canon_idem (dir : bool) (k : nat * nat) :
  canon dir (canon dir k) = canon dir k.
Proof.
  unfold canon. destruct dir; [done|]. destruct k as [r s]. cbn [fst snd].
  destruct (s <? r)%nat eqn:E; cbn [fst snd].
  - apply Nat.ltb_lt in E.
    by replace (r <? s)%nat with false by (symmetry; apply Nat.ltb_ge; lia).
  - by rewrite E.
Qed.

Lemma foldr_add_perm {A : Type} (c : A -> Z) (L L' : list A) :
  L ≡ₚ L' ->
  foldr (fun x acc => c x + acc) 0 L = foldr (fun x acc => c x + acc) 0 L'.
Proof. induction 1; cbn [foldr]; lia. Qed.

(** The weight of a pair of the coupled state, summed over the block-graph
    edges below it. *)
Lemma pair_weight_bg (g : graph_t) (l h : BlockState) (k : nat * nat) :
  pair_weight (bg_of g l) h k
  = foldr (fun (km : nat * nat * Z) acc =>
             (if decide (canon (directed g)
                           (_b h !!! km.1.1, _b h !!! km.1.2) = k)
              then km.2 else 0) + acc)
          0 (map_to_list (_mrs l)).
Proof.
  unfold pair_weight, block_pair, bg_of. cbn [edges directed].
  induction (map_to_list (_mrs l)) as [|km L IH]; [done|].
  rewrite fmap_cons. cbn [foldr]. rewrite IH. reflexivity.
Qed.

(** A block-graph edge with a zero count carries no weight into the
    coupled state, so that the graph of the coupled state may gain or lose
    it. *)
Lemma pair_weight_bg_zero (g : graph_t) (l l1 h : BlockState)
    (me k : nat * nat) :
  _mrs l !! me = None -> _mrs l1 = <[ me := 0 ]> (_mrs l) ->
  pair_weight (bg_of g l1) h k = pair_weight (bg_of g l) h k.
Proof.
  intros Hme Hm1. rewrite !pair_weight_bg, Hm1.
  rewrite (foldr_add_perm _ _ _ (map_to_list_insert (_mrs l) me 0 Hme)).
  cbn [foldr snd]. case_decide; lia.
Qed.

Lemma bg_of_directed (g g' : graph_t) (l : BlockState) :
  directed g = directed g' -> bg_of g l = bg_of g' l.
Proof. intros Hdir. unfold bg_of. by rewrite Hdir. Qed.

(** The edge counts see the graph through its kind and the pair weights
    only. *)
Lemma edge_counts_ok_graph (g g' : graph_t) (l : BlockState)
    (cs : list BlockState) :
  directed g = directed g' ->
  (forall k, pair_weight g l k = pair_weight g' l k) ->
  edge_counts_ok g l cs -> edge_counts_ok g' l cs.
Proof.
  intros Hdir Hpw. destruct cs as [|h rest]; cbn [edge_counts_ok];
    rewrite <- ?(bg_of_directed g g' l Hdir);
    intros [Hl Hrest]; (split; [|done]); intros k; by rewrite <- Hpw.
Qed.

Lemma add_edge_keeps (cs : list BlockState) :
  forall (g : graph_t) (e : nat * nat) (l : BlockState),
    Forall (keys_canonical (directed g)) (l :: cs) ->
    edge_counts_ok g l cs ->
    edge_counts_ok g (add_edge g e l cs).1 (add_edge g e l cs).2
    /\ Forall (keys_canonical (directed g))
              ((add_edge g e l cs).1 :: (add_edge g e l cs).2).
Proof.
  induction cs as [|h rest IH]; intros g e l Hcanon Hok;
    inversion Hcanon as [|? ? Hl Hrest]; subst; cbn [add_edge];
    set (me := canon (directed g) (_b l !!! e.1, _b l !!! e.2));
    destruct (_mrs l !! me) as [m|] eqn:Hme; cbn [fst snd]; try done.
  - set (l1 := set_bdrec _ _).
    assert (Hm1 : _mrs l1 = <[ me := 0 ]> (_mrs l)) by done.
    split.
    + split; [|done]. intros k.
      change (pair_weight g l1 k) with (pair_weight g l k).
      destruct Hok as [Hl0 _]. rewrite <- Hl0, Hm1.
      destruct (decide (me = k)) as [<-|Hne].
      * by rewrite lookup_insert_eq, Hme.
      * by rewrite lookup_insert_ne.
    + constructor; [|done]. intros k. rewrite Hm1.
      destruct (decide (me = k)) as [<-|Hne].
      * intros _. apply canon_idem.
      * rewrite lookup_insert_ne by done. apply Hl.
  - set (l1 := set_bdrec _ _).
    assert (Hm1 : _mrs l1 = <[ me := 0 ]> (_mrs l)) by done.
    assert (Hl1 : keys_canonical (directed g) l1).
    { intros k. rewrite Hm1.
      destruct (decide (me = k)) as [<-|Hne].
      - intros _. apply canon_idem.
      - rewrite lookup_insert_ne by done. apply Hl. }
    destruct Hok as [Hl0 Hh].
    assert (Hh1 : edge_counts_ok (bg_of g l1) h rest).
    { apply (edge_counts_ok_graph (bg_of g l) _ h rest); [done| |done].
      intros k. symmetry. by apply (pair_weight_bg_zero g l l1 h me). }
    destruct (IH (bg_of g l1) me h Hrest Hh1) as [Hok' Hcanon'].
    destruct (add_edge (bg_of g l1) me h rest) as [h1 rest1].
    cbn [fst snd] in *. split.
    + split; [|done]. intros k.
      change (pair_weight g l1 k) with (pair_weight g l k).
      rewrite <- Hl0, Hm1.
      destruct (decide (me = k)) as [<-|Hne].
      * by rewrite lookup_insert_eq, Hme.
      * by rewrite lookup_insert_ne.
    + by constructor.
Qed.

(** X19. [add_edge(e)] keeps the edge counts consistent through the
    hierarchy: on a state [check_edge_counts] accepts, it accepts the
    state afterwards, although the graph of a coupled state has gained an
    edge; and the edges of the block graphs stay keyed canonically. *)
Theorem add_edge_keeps_edge_counts (g : graph_t) (e : nat * nat)
    (l : BlockState) (cs : list BlockState) :
  Forall (keys_canonical (directed g)) (l :: cs) ->
  check_edge_counts g l cs = true ->
  check_edge_counts g (add_edge g e l cs).1 (add_edge g e l cs).2 = true
  /\ Forall (keys_canonical (directed g))
            ((add_edge g e l cs).1 :: (add_edge g e l cs).2).
Proof.
  intros Hcanon Hchk.
  apply (edge_counts_ok_check cs g l Hcanon) in Hchk.
  destruct (add_edge_keeps cs g e l Hcanon Hchk) as [Hok' Hcanon'].
  split; [|exact Hcanon'].
  destruct (add_edge g e l cs) as [l' cs']. cbn [fst snd] in *.
  by apply (edge_counts_ok_check cs' g l' Hcanon').
Qed.





End EdgeCountsFacts.
Section EdgeCountsExample.

#[local] Existing Instance ps_model_stats.
#[local] Existing Instance externals_model.
#[local] Existing Instance apply_delta_model.

Lemma triangle_keys_canonical :
  Forall (keys_canonical (directed triangle)) [triangle_state; upper_state].
Proof.
  repeat constructor; intros k [m Hk].
  - change (({[ (0, 0)%nat := 1; (0, 1)%nat := 2 ]} : gmap (nat * nat) Z)
            !! k = Some m) in Hk.
    apply lookup_insert_Some in Hk as [[<- _]|[_ Hk]]; [reflexivity|].
    apply lookup_singleton_Some in Hk as [<- _]. reflexivity.
  - change (({[ (0, 0)%nat := 3 ]} : gmap (nat * nat) Z) !! k = Some m)
      in Hk.
    apply lookup_singleton_Some in Hk as [<- _]. reflexivity.
Qed.

Lemma triangle_edge_counts :
  check_edge_counts triangle triangle_state [upper_state] = true.
Proof. vm_compute. reflexivity. Qed.

(** The triangle state after [add_edge] on a loop at vertex 2: the block
    pair (1, 1) is an edge of the block graph with count zero. *)
Lemma triangle_added_edge_counts :
  Forall (keys_canonical (directed triangle))
         ((add_edge triangle (2, 2)%nat triangle_state [upper_state]).1
          :: (add_edge triangle (2, 2)%nat triangle_state [upper_state]).2)
  /\ check_edge_counts triangle
       (add_edge triangle (2, 2)%nat triangle_state [upper_state]).1
       (add_edge triangle (2, 2)%nat triangle_state [upper_state]).2 = true.
Proof.
  pose proof (proj1 (edge_counts_ok_check _ _ _ triangle_keys_canonical)
                triangle_edge_counts) as Hok.
  destruct (add_edge_keeps _ triangle (2, 2)%nat _ triangle_keys_canonical
              Hok) as [Hok' Hcanon'].
  split; [exact Hcanon'|].
  by apply (edge_counts_ok_check _ _ _ Hcanon').
Qed.

Lemma check_edge_counts_spec_witness :
  check_edge_counts triangle triangle_state [upper_state] = true
  /\ default 0 (_mrs triangle_state !! (0, 1)%nat)
     = pair_weight triangle triangle_state (0, 1)%nat.
Proof.
  split; [exact triangle_edge_counts|].
  pose proof (proj1 (check_edge_counts_spec triangle triangle_state
                       [upper_state] triangle_keys_canonical)
                triangle_edge_counts) as [Hl _].
  exact (Hl (0, 1)%nat).
Defined.

Lemma add_edge_keeps_edge_counts_witness :
  _mrs (add_edge triangle (2, 2)%nat triangle_state [upper_state]).1
    !! (1, 1)%nat = Some 0
  /\ check_edge_counts triangle
       (add_edge triangle (2, 2)%nat triangle_state [upper_state]).1
       (add_edge triangle (2, 2)%nat triangle_state [upper_state]).2 = true.
Proof.
  split; [vm_compute; reflexivity|].
  apply (add_edge_keeps_edge_counts triangle (2, 2)%nat triangle_state
           [upper_state] triangle_keys_canonical triangle_edge_counts).
Defined.



End EdgeCountsExample.



(** ** Sequences of public operations *)

Section PublicSequences.

Context `{PartitionStats} `{!Externals} `{!ApplyDelta}.
Hypothesis frame : apply_delta_frame.

Lemma move_vertices_keeps (vs : list nat) :
  forall (nrs : list nat) (g : graph_t) (l : BlockState)
         (cs : list BlockState),
    well_formed g l cs ->
    Forall (fun v => (v < num_vertices g)%nat) vs ->
    Forall (fun nr => (nr < _B l)%nat) nrs ->
    well_formed g (move_vertices vs nrs g l cs).2.1
                  (move_vertices vs nrs g l cs).2.2
    /\ _B (move_vertices vs nrs g l cs).2.1 = _B l.
Proof.
  induction vs as [|v vs IH]; intros nrs g l cs Hwf Hvs Hnrs;
    [by destruct nrs|].
  destruct nrs as [|nr nrs]; [done|].
  inversion Hvs as [|? ? Hv Hvs']; subst.
  inversion Hnrs as [|? ? Hnr Hnrs']; subst.
  destruct (move_vertex_keeps frame v nr g l cs Hwf Hv Hnr)
    as (Hwf' & HB & Hb).
  cbn [move_vertices].
  destruct (move_vertex v nr g l cs) as [[[]|e] [l1 cs1]];
    cbn [fst snd] in *.
  - destruct (IH nrs g l1 cs1 Hwf' Hvs') as (Hwf2 & HB2).
    { by rewrite HB. }
    split; [done|congruence].
  - injection Hb as -> ->. by split.
Qed.

Lemma get_empty_block_keeps (idx_back : gset nat -> nat) (v : nat)
    (force_add : bool) (g : graph_t) (l : BlockState)
    (cs : list BlockState) :
  well_formed g l cs -> (v < num_vertices g)%nat ->
  well_formed g (get_empty_block idx_back v force_add g l cs).2.1
                (get_empty_block idx_back v force_add g l cs).2.2.
Proof.
  intros Hwf Hv. unfold get_empty_block.
  destruct (bool_decide (_empty_groups l = ∅) || force_add); [|done].
  pose proof Hwf as (Hok & Hlb & _ & Hlab & _)%well_formed_sizes.
  pose proof (hier_ok_head _ _ Hok) as (_ & Hlw & _).
  assert (Hr : (_b l !!! v < _B l)%nat).
  { apply (Forall_lookup_total_1 (fun r => (r < _B l)%nat)); [done|lia]. }
  pose proof (add_block_keeps 1 g l cs Hwf) as Hwf1.
  destruct (add_block_fields 1 g l cs Hlw)
    as (EB & _ & Enew & _ & _ & Eb & _).
  assert (Hret : (add_block 1 g l cs).1 = Some (_B l)).
  { change ((add_block 1 g l cs).1)
      with (Some (pred (_B (add_block 1 g l cs).2.1))).
    rewrite EB. f_equal. lia. }
  destruct (add_block 1 g l cs) as [ret [l1 cs1]]. cbn [fst snd] in *.
  subst ret. rewrite Eb. cbn [fst snd].
  apply (relabel_empty_keeps g l1 _ cs1 _ (_B l)
           (match cs1 with [] => 0%nat | h :: _ => _b h !!! (_b l !!! v) end)
           Hwf1); [reflexivity| |lia|apply Enew; lia].
  destruct cs1 as [|h rest]; [done|].
  destruct Hwf1 as ((_ & Hc1 & _) & _).
  apply coupled_ok_pointwise in Hc1 as (_ & _ & _ & Hhlab & _).
  repeat split; try done. apply Hhlab. lia.
Qed.

Lemma step_hier (c c' : graph_t * (BlockState * list BlockState)) :
  step c c' -> hier_ok c.2.1 c.2.2 -> hier_ok c'.2.1 c'.2.2.
Proof.
  intros Hstep. destruct Hstep; cbn [fst snd]; intros Hok.
  - apply (modify_vertex_hier frame); auto.
  - apply (modify_vertex_hier frame); [done..|discriminate].
  - by apply (move_vertex_hier frame).
  - by apply add_block_hier.
  - by apply hier_ok_set_vertex_weight.
  - by apply move_vertices_keeps.
  - apply (set_partition_loop_keeps frame); [done|].
    apply Forall_seq. intros v Hv. lia.
  - by apply get_empty_block_keeps.
  - eapply (hier_ok_view cs); [|exact Hok]. symmetry. apply add_edge_view.
  - unfold remove_edge. destruct (edges g !! i); [|done]. cbn [fst snd].
    eapply (hier_ok_view cs); [|exact Hok]. symmetry.
    apply remove_edge_bg_view.
  - by apply (hier_ok_view cs cs l).
  - by apply (hier_ok_view cs cs l).
Qed.

Lemma steps_hier (c c' : graph_t * (BlockState * list BlockState)) :
  rtc step c c' -> hier_ok c.2.1 c.2.2 -> hier_ok c'.2.1 c'.2.2.
Proof.
  induction 1 as [|c c1 c2 Hstep _ IH]; [done|].
  intros Hok. apply IH. by eapply step_hier.
Qed.


End PublicSequences.

Section PublicSequencesExample.

#[local] Existing Instance ps_model_stats.
#[local] Existing Instance externals_model.
#[local] Existing Instance apply_delta_model.


Lemma point_alone_hier_ok : hier_ok point_alone_state [].
Proof.
  split; [|done].
  split; [|split; [reflexivity|split;
    repeat constructor; vm_compute; discriminate]].
  split; [vm_compute; reflexivity|]. split; [vm_compute; reflexivity|].
  apply Forall_seq. intros [|[|r]] Hr; [| |vm_compute in Hr; lia];
    vm_compute; (split; intros ?; discriminate).
Qed.

(** C5, refuted as stated: [remove_vertex] does not reset [b[v]], so that
    the isolated vertex 2, alone in block 1, can be removed twice.  The
    first call empties block 1 and files it under [_empty_groups]; the
    second takes the weight off again: the size is [-1] and the block is
    still in [_empty_groups]. *)
Lemma double_remove_vertex_breaks_I4 :
  hier_ok point_alone_state []
  /\ I4 (remove_vertex 2 edge_and_point point_alone_state []).1
  /\ _wr (remove_vertex 2 edge_and_point
            (remove_vertex 2 edge_and_point point_alone_state []).1
            (remove_vertex 2 edge_and_point point_alone_state []).2).1
     !!! 1%nat = -1
  /\ 1%nat ∈ _empty_groups
       (remove_vertex 2 edge_and_point
          (remove_vertex 2 edge_and_point point_alone_state []).1
          (remove_vertex 2 edge_and_point point_alone_state []).2).1
  /\ ~ I4 (remove_vertex 2 edge_and_point
             (remove_vertex 2 edge_and_point point_alone_state []).1
             (remove_vertex 2 edge_and_point point_alone_state []).2).1.
Proof.
  assert (Hwr : _wr (remove_vertex 2 edge_and_point
                       (remove_vertex 2 edge_and_point point_alone_state
                          []).1
                       (remove_vertex 2 edge_and_point point_alone_state
                          []).2).1 !!! 1%nat = -1)
    by (vm_compute; reflexivity).
  assert (Hin : 1%nat ∈ _empty_groups
                  (remove_vertex 2 edge_and_point
                     (remove_vertex 2 edge_and_point point_alone_state
                        []).1
                     (remove_vertex 2 edge_and_point point_alone_state
                        []).2).1)
    by (apply (bool_decide_unpack _); vm_compute; exact I).
  split; [exact point_alone_hier_ok|]. split.
  { pose proof (steps_hier apply_delta_model_frame
                  (edge_and_point, (point_alone_state, []))
                  (edge_and_point,
                   remove_vertex 2 edge_and_point point_alone_state [])
                  (rtc_once _ _ (step_remove_vertex 2 edge_and_point
                                   point_alone_state []
                                   ltac:(vm_compute; lia)
                                   ltac:(vm_compute; discriminate)))
                  point_alone_hier_ok) as Hok.
    apply hier_ok_head in Hok. exact (proj1 Hok). }
  split; [exact Hwr|]. split; [exact Hin|].
  intros HI. apply I4_pointwise in HI as (_ & _ & Hz).
  assert (HB : (1 < _B (remove_vertex 2 edge_and_point
                          (remove_vertex 2 edge_and_point point_alone_state
                             []).1
                          (remove_vertex 2 edge_and_point point_alone_state
                             []).2).1)%nat) by (vm_compute; lia).
  apply (Hz 1%nat HB) in Hin. rewrite Hwr in Hin. discriminate.
Qed.

End PublicSequencesExample.

(** ** Entropy and the value of [virtual_move] *)

Section BfieldFrameModel.

Context `{PartitionStats} `{!Externals}.

Lemma apply_entry_bfield (Add Remove : bool) (g : graph_t) (e : entry)
    (l : BlockState) :
  _bfield (apply_entry Add Remove g e l).1 = _bfield l.
Proof.
  unfold apply_entry. repeat case_match; reflexivity.
Qed.

Lemma apply_entries_bfield (Add Remove : bool) (g : graph_t)
    (es : list entry) :
  forall (l : BlockState) (cs : list BlockState),
    _bfield (apply_entries Add Remove g es l cs).1 = _bfield l.
Proof.
  unfold apply_entries.
  induction es as [|e es IH]; intros l cs; [reflexivity|].
  cbn [foldl fst snd].
  pose proof (apply_entry_bfield Add Remove g e l) as He.
  destruct (apply_entry Add Remove g e l) as [l1 [created removed]].
  cbn [fst] in He. rewrite IH. exact He.
Qed.

(** The modelled [apply_delta] does not write [_bfield]. *)
Lemma apply_delta_model_keeps_bfield :
  @apply_delta_keeps_bfield _ _ apply_delta_model.
Proof.
  intros Add Remove g l cs.
  change (_bfield (apply_delta_fuel (S (length cs)) Add Remove g l cs).1
          = _bfield l).
  cbn [apply_delta_fuel].
  pose proof (apply_entries_bfield Add Remove g (_entries (_m_entries l)) l cs)
    as He.
  destruct (apply_entries Add Remove g (_entries (_m_entries l)) l cs)
    as [l1 cs1]. cbn [fst snd] in He.
  destruct cs1 as [|h rest]; [exact He|].
  destruct (if decide (_rt l1 = NONE) then _ else _) as [|p pe] eqn:Epe;
    [exact He|].
  destruct (propagate_delta_with _ _ _ _ _ _ _) as [h1 rest1]. exact He.
Qed.

End BfieldFrameModel.

Section EntropyFacts.

Context `{PartitionStats} `{!Externals} `{!ApplyDelta} `{!EntropyTerms}.
Hypothesis frame : apply_delta_frame.
Hypothesis bfield_frame : apply_delta_keeps_bfield.

Lemma remove_partition_node_bfield (g : graph_t) (v r : nat)
    (l : BlockState) (cs : list BlockState) :
  _bfield (remove_partition_node g v r l cs).1 = _bfield l.
Proof.
  destruct cs as [|h rest]; simpl; unfold get_partition_stats; simpl;
    repeat case_match; reflexivity.
Qed.

Lemma add_partition_node_bfield (g : graph_t) (v r : nat)
    (l : BlockState) (cs : list BlockState) :
  _bfield (add_partition_node g v r l cs).1 = _bfield l.
Proof.
  destruct cs as [|h rest]; simpl; unfold get_partition_stats; simpl;
    repeat case_match; simpl in *; simplify_eq; reflexivity.
Qed.

Lemma move_vertex_bfield (v nr : nat) (g : graph_t) (l : BlockState)
    (cs : list BlockState) :
  _bfield (move_vertex v nr g l cs).2.1 = _bfield l.
Proof.
  unfold move_vertex, move_vertex_from.
  repeat case_match; try reflexivity.
  cbn [snd]. unfold move_vertex_entries.
  case_match; [done|].
  set (l1 := get_move_entries _ _ _ _ _ _).
  pose proof (bfield_frame true true g l1 cs) as Hb.
  destruct (apply_delta true true g l1 cs) as [l2 cs2]. cbn [fst] in Hb.
  pose proof (remove_partition_node_bfield g v (_b l !!! v) l2 cs2) as Hr.
  destruct (remove_partition_node g v (_b l !!! v) l2 cs2) as [l3 cs3].
  pose proof (add_partition_node_bfield g v nr l3 cs3) as Ha.
  cbn [fst] in *. rewrite Ha, Hr, Hb. reflexivity.
Qed.

(** With every term switched off [entropy] is the loop over the fields. *)
Lemma entropy_fields (ea : entropy_args_t) (g : graph_t) (l : BlockState) :
  ea_adjacency ea = false -> ea_partition_dl ea = false ->
  ea_degree_dl ea = false -> ea_edges_dl ea = false ->
  ea_recs ea = false -> ea_Bfield ea = false ->
  entropy ea false g l []
  = Ok (0 + entropy_bfield g l 0 * ea_beta_dl ea)%float.
Proof.
  intros Ha Hp Hd He Hr HB. cbn [entropy]. unfold entropy_adjacency.
  rewrite Ha, Hp, Hd, He, Hr, HB.
  rewrite andb_false_r. cbn [fst snd]. rewrite andb_false_r. reflexivity.
Qed.

(** [entropy_bfield] reads [_bfield], [_b] and the number of vertices. *)
Lemma entropy_bfield_ext (g : graph_t) (l l' : BlockState) (S_dl : float) :
  _bfield l' = _bfield l -> _b l' = _b l ->
  entropy_bfield g l' S_dl = entropy_bfield g l S_dl.
Proof. intros Hf Hb. unfold entropy_bfield. by rewrite Hf, Hb. Qed.

(** When [v] is the only vertex of [vs] with a field, the loop takes one
    term off. *)
Lemma field_loop_single (bf : list (list float)) (b : list nat) (v : nat)
    (vs : list nat) :
  NoDup vs -> (forall u : nat, u <> v -> bf !!! u = []) -> bf !!! v <> [] ->
  forall S_dl : float,
    foldl (fun (S_dl : float) (u : nat) =>
             let f := bf !!! u in
             if f is [] then S_dl
             else (S_dl - field_at f (b !!! u))%float) S_dl vs
    = if bool_decide (v ∈ vs)
      then (S_dl - field_at (bf !!! v) (b !!! v))%float else S_dl.
Proof.
  intros Hnd Hother Hv.
  induction vs as [|u vs IH]; intros S_dl; [reflexivity|].
  inversion Hnd as [|? ? Hu Hnd']; subst. cbn [foldl].
  rewrite (IH Hnd'). destruct (decide (u = v)) as [->|Hne].
  - rewrite (bool_decide_false (v ∈ vs)) by done.
    rewrite (bool_decide_true (v ∈ v :: vs)) by apply list_elem_of_here.
    destruct (bf !!! v); [done|reflexivity].
  - rewrite (Hother u Hne).
    destruct (decide (v ∈ vs)) as [Hin|Hin].
    + rewrite !bool_decide_true; [done| |done].
      by apply list_elem_of_further.
    + rewrite !bool_decide_false; [done| |done].
      intros [?|?]%elem_of_cons; [by apply Hne|done].
Qed.

Lemma entropy_bfield_single (g : graph_t) (l : BlockState) (v : nat) :
  (v < num_vertices g)%nat ->
  (forall u : nat, u <> v -> _bfield l !!! u = []) ->
  _bfield l !!! v <> [] ->
  entropy_bfield g l 0
  = (0 - field_at (_bfield l !!! v) (_b l !!! v))%float.
Proof.
  intros Hv Hother Hf. unfold entropy_bfield.
  rewrite (field_loop_single (_bfield l) (_b l) v); [|apply NoDup_seq|done..].
  rewrite bool_decide_true; [done|]. apply elem_of_seq. lia.
Qed.

(** C1, amended.  With every entropy term switched off and no coupled
    state, for a vertex of non-zero weight and an allowed target [nr]
    other than its block [r = b[v]]: [virtual_move(v, r, nr, ea)] returns
    [0 + beta_dl * (0 + ((0 - f[nr]) + f[r]))] with [f = _bfield[v]] read
    at [f.back()] beyond its end (and [0 + beta_dl * (0 + 0)] without a
    field); [move_vertex(v, nr)] changes, of what [entropy] reads, only
    [b[v]]; the entropy before and after the move is [0 + S_dl * beta_dl]
    with [S_dl] the fields taken off 0 in the order of the vertices; and
    when [v] is the only vertex with a field the two entropies are
    [0 + (0 - f[r]) * beta_dl] and [0 + (0 - f[nr]) * beta_dl]. *)
Theorem virtual_move_is_field_delta (ea : entropy_args_t) (v nr : nat)
    (g : graph_t) (l : BlockState) :
  ea_adjacency ea = false -> ea_partition_dl ea = false ->
  ea_degree_dl ea = false -> ea_edges_dl ea = false ->
  ea_recs ea = false -> ea_Bfield ea = false ->
  _vweight l !!! v <> 0 -> _b l !!! v <> nr ->
  allow_move (_b l !!! v) nr l [] = true ->
  let r := _b l !!! v in
  let f := _bfield l !!! v in
  let l' := (move_vertex v nr g l []).2.1 in
  (virtual_move v (Some r) (Some nr) ea g l []).1
  = Ok (0 + ea_beta_dl ea
            * (0 + (if f is [] then 0
                    else 0 - field_at f nr + field_at f r)))%float
  /\ (move_vertex v nr g l []).1 = Ok tt
  /\ _bfield l' = _bfield l /\ _b l' = <[ v := nr ]> (_b l)
  /\ entropy ea false g l []
     = Ok (0 + entropy_bfield g l 0 * ea_beta_dl ea)%float
  /\ entropy ea false g l' []
     = Ok (0 + entropy_bfield g (set_b (fun b => <[ v := nr ]> b) l) 0
               * ea_beta_dl ea)%float
  /\ ((v < num_vertices g)%nat -> (v < length (_b l))%nat ->
      (forall u : nat, u <> v -> _bfield l !!! u = []) -> f <> [] ->
      entropy ea false g l []
      = Ok (0 + (0 - field_at f r) * ea_beta_dl ea)%float
      /\ entropy ea false g l' []
         = Ok (0 + (0 - field_at f nr) * ea_beta_dl ea)%float).
Proof.
  intros Ha Hp Hd He Hr HB Hw Hne Hallow r f l'.
  destruct (move_vertex_head_fields frame v nr g l [] Hne Hallow)
    as (Hok & Hb & _).
  pose proof (move_vertex_bfield v nr g l []) as Hf.
  split; [|split; [exact Hok|split; [exact Hf|split; [exact Hb|
    split; [|split]]]]].
  - subst r. unfold virtual_move.
    rewrite bool_decide_false by (intros [= E]; by apply Hne).
    apply Z.eqb_neq in Hw. rewrite Hw. cbn [orb].
    rewrite Hallow. cbn [negb].
    unfold virtual_move_adjacency. rewrite Ha.
    cbn [get_delta_partition_dl].
    rewrite decide_False by (intros [= E]; by apply Hne).
    unfold partition_dl_own. rewrite Hp.
    unfold virtual_move_deg_edges_dl. rewrite Hd, He. cbn [orb].
    unfold virtual_move_Bfield. rewrite HB, andb_false_r.
    rewrite Hr. cbn [andb fst snd].
    change (_bfield (get_move_entries v (Some (_b l !!! v)) (Some nr)
                       no_efilt g l))
      with (_bfield l). fold f.
    destruct f; reflexivity.
  - by apply entropy_fields.
  - rewrite entropy_fields by done. do 3 f_equal.
    apply entropy_bfield_ext; [exact Hf|exact Hb].
  - intros Hv Hlen Hother Hfne. subst l' f r. split.
    + rewrite entropy_fields by done.
      by rewrite (entropy_bfield_single g l v).
    + rewrite entropy_fields by done.
      rewrite (entropy_bfield_single g _ v); [|done|by rewrite Hf..].
      rewrite Hf, Hb, list_lookup_total_insert_eq by done. reflexivity.
Qed.

End EntropyFacts.

Section EntropyFactsExample.

#[local] Existing Instance ps_model_stats.
#[local] Existing Instance externals_model.
#[local] Existing Instance apply_delta_model.
#[local] Existing Instance entropy_terms_model.

(** A level with the occupied block 0 and the empty block 1. *)
Lemma one_block_hier_ok (l : BlockState) (a : Z) :
  _empty_groups l = {[ 1%nat ]} -> _candidate_groups l = {[ 0%nat ]} ->
  _B l = 2%nat -> _wr l = [a; 0] -> 0 < a ->
  Forall (fun w => 0 <= w) (_vweight l) -> hier_ok l [].
Proof.
  intros He Hc HB Hwr Ha Hvw. split; [|done].
  unfold level_ok, I4. rewrite He, Hc, Hwr, HB.
  split; [split; [|split]|split; [reflexivity|split; [|done]]].
  - apply set_eq. intros r.
    rewrite elem_of_union, !elem_of_singleton, elem_of_set_seq. lia.
  - apply set_eq. intros r.
    rewrite elem_of_intersection, !elem_of_singleton, elem_of_empty. lia.
  - apply Forall_seq. intros r Hr. rewrite elem_of_singleton.
    destruct r as [|[|r]]; cbn; lia.
  - repeat constructor; lia.
Qed.

Lemma field_state_hier_ok (w : Z) : 0 <= w -> hier_ok (field_state w) [].
Proof.
  intros Hw. apply (one_block_hier_ok _ (2 + w)); try reflexivity; [lia|].
  repeat constructor; lia.
Qed.

Lemma virtual_move_is_field_delta_witness :
  (virtual_move 2 (Some 0%nat) (Some 1%nat) ea_off edge_and_point
     (field_state 1) []).1 = Ok (-1)%float
  /\ entropy ea_off false edge_and_point (field_state 1) [] = Ok (-1)%float
  /\ entropy ea_off false edge_and_point
       (move_vertex 2 1 edge_and_point (field_state 1) []).2.1 []
     = Ok (-2)%float.
Proof.
  destruct (virtual_move_is_field_delta apply_delta_model_frame
              apply_delta_model_keeps_bfield ea_off 2 1 edge_and_point
              (field_state 1) eq_refl eq_refl eq_refl eq_refl eq_refl eq_refl
              ltac:(vm_compute; discriminate) ltac:(vm_compute; lia)
              eq_refl)
    as (Hvm & _ & _ & _ & _ & _ & Hsingle).
  split; [exact Hvm|].
  apply Hsingle.
  - vm_compute. lia.
  - vm_compute. lia.
  - intros [|[|[|u]]] Hu; try reflexivity. by destruct Hu.
  - vm_compute. discriminate.
Defined.

(** C1, refuted as stated: [virtual_move] returns 0 for a vertex of weight
    zero before it looks at anything, while [entropy] takes the field of
    every vertex off, whatever its weight.  Moving the weightless vertex 2
    with the field [[1, 2]] from block 0 to block 1 changes the entropy
    from -1 to -2. *)
Lemma virtual_move_misses_weightless_field :
  hier_ok (field_state 0) []
  /\ allow_move 0 1 (field_state 0) [] = true
  /\ (virtual_move 2 (Some 0%nat) (Some 1%nat) ea_off edge_and_point
        (field_state 0) []).1 = Ok 0%float
  /\ (move_vertex 2 1 edge_and_point (field_state 0) []).1 = Ok tt
  /\ entropy ea_off false edge_and_point (field_state 0) [] = Ok (-1)%float
  /\ entropy ea_off false edge_and_point
       (move_vertex 2 1 edge_and_point (field_state 0) []).2.1 []
     = Ok (-2)%float
  /\ within_tolerance 0 (-1) (-2) = false.
Proof.
  split; [apply field_state_hier_ok; lia|].
  repeat split; vm_compute; reflexivity.
Qed.

(** For a vertex with a weight the returned value and the difference of the
    two entropies are the same expression in the fields only up to the
    order of the floating-point operations: between the fields [2^100] and
    [-2^100] the term of vertex 1 is rounded away from both entropies. *)
Lemma entropy_difference_cancels :
  hier_ok cancelling_state []
  /\ (virtual_move 1 (Some 0%nat) (Some 1%nat) ea_off three_points
        cancelling_state []).1 = Ok (-1)%float
  /\ (move_vertex 1 1 three_points cancelling_state []).1 = Ok tt
  /\ entropy ea_off false three_points cancelling_state [] = Ok 0%float
  /\ entropy ea_off false three_points
       (move_vertex 1 1 three_points cancelling_state []).2.1 []
     = Ok 0%float
  /\ within_tolerance (-1) 0 0 = false.
Proof.
  split.
  { apply (one_block_hier_ok _ 3); try reflexivity.
    repeat constructor; lia. }
  repeat split; vm_compute; reflexivity.
Qed.

End EntropyFactsExample.

End SBMFacts.
